(** * tiny-unzip: a shallow embedding of [ZipReader] and its properties

    The development follows [tiny-unzip.js] method by method.  JavaScript
    numbers that the reader handles are array offsets and unsigned fields
    of at most 32 bits, so they are exact integers and are modelled in [Z].
    The [DataView] bounds checks, which raise [RangeError], are explicit. *)

From Stdlib Require Import ZArith List String Ascii Bool Lia.
From Stdlib Require Import Strings.Byte.
Import ListNotations.
Open Scope Z_scope.

(** ** Exceptions and outcomes *)

(** What a call can raise.  The first five are the exceptions of the
    source and of the platform objects it calls ([DecompressionFailed]
    is the failure of the decompression stream).  The last two mark the
    border of the model: [SchemaMismatch] stands for a schema that uses
    as a length a field that was not decoded as a number, or lacks a
    field its reader asks for (the source goes on with [NaN] or
    [undefined]; no schema of the file does this, see
    [readLocalFile_Throw] and its siblings, and [lengthsDecoded] for the
    schemas within the border), [OutOfFuel] for a loop that would exceed
    its iteration bound (never the case, see [read_Throw]). *)
Inductive error : Type :=
| RangeError
| TypeError
| UnsupportedLength
| UnsupportedCompressionMethod
| DecompressionFailed
| SchemaMismatch
| OutOfFuel.

Inductive outcome (A : Type) : Type :=
| Return (a : A)
| Throw (e : error).
Arguments Return {A} a.
Arguments Throw {A} e.

Definition obind {A B} (o : outcome A) (f : A -> outcome B) : outcome B :=
  match o with
  | Return a => f a
  | Throw e => Throw e
  end.

Declare Scope outcome_scope.
Delimit Scope outcome_scope with outcome.
Notation "'let!' x ':=' o 'in' k" := (obind o (fun x => k))
  (at level 10, x name, o at level 100, k at level 200) : outcome_scope.
Open Scope outcome_scope.

(** ** DataView over an ArrayBuffer *)

Record DataView : Type := { buffer : list byte }.

Definition byteLength (dv : DataView) : Z := Z.of_nat (List.length (buffer dv)).

(** Little-endian value of a run of bytes. *)
Fixpoint littleEndian (bs : list byte) : Z :=
  match bs with
  | [] => 0
  | b :: rest => Z.of_N (Byte.to_N b) + 256 * littleEndian rest
  end.

(** [getUint8], [getUint16], [getUint32] and [getBigUint64] share the
    bounds check of [DataView]: a negative index, or a view that would
    run past [byteLength], raises [RangeError]. *)
Definition getUint (width : Z) (dv : DataView) (byteOffset : Z) : outcome Z :=
  if (0 <=? byteOffset) && (byteOffset + width <=? byteLength dv)
  then Return (littleEndian
                 (firstn (Z.to_nat width) (skipn (Z.to_nat byteOffset) (buffer dv))))
  else Throw RangeError.

Definition getUint8 := getUint 1.
Definition getUint16 := getUint 2.
Definition getUint32 := getUint 4.
Definition getBigUint64 := getUint 8.

(** [ArrayBuffer.prototype.slice(begin, end)]: both ends are clamped to
    the buffer, a negative end counts from the back. *)
Definition clampIndex (len rel : Z) : Z :=
  if rel <? 0 then Z.max (len + rel) 0 else Z.min rel len.

Definition slice (buf : list byte) (begin_ end_ : Z) : list byte :=
  let len := Z.of_nat (List.length buf) in
  let first := clampIndex len begin_ in
  let final := clampIndex len end_ in
  let newLen := Z.max (final - first) 0 in
  firstn (Z.to_nat newLen) (skipn (Z.to_nat first) buf).

(** ** readStruct *)

Inductive fieldLength : Type :=
| Bytes (n : Z)               (* typeof field.length === "number" *)
| LengthOf (name : string).   (* the name of an earlier field *)

Module Field.
Record t : Type := mk { name : string; length : fieldLength }.
End Field.

Inductive value : Type :=
| VNumber (n : Z)
| VBigInt (n : Z)
| VString (s : string).

(** The object under construction: properties in insertion order. *)
Definition Struct : Type := list (string * value).

Fixpoint getProp (name : string) (struct : Struct) : option value :=
  match struct with
  | [] => None
  | (k, v) :: rest => if String.eqb k name then Some v else getProp name rest
  end.

Fixpoint setProp (name : string) (v : value) (struct : Struct) : Struct :=
  match struct with
  | [] => [(name, v)]
  | (k, w) :: rest =>
      if String.eqb k name then (k, v) :: rest else (k, w) :: setProp name v rest
  end.

(** The inner loop of a text field: one [getUint8] and one
    [String.fromCharCode] per byte; no read at all for a zero count. *)
Fixpoint readChars (dv : DataView) (position : Z) (count : nat) : outcome string :=
  match count with
  | O => Return EmptyString
  | S k =>
      let! code := getUint8 dv position in
      let! rest := readChars dv (position + 1) k in
      Return (String (ascii_of_N (Z.to_N code)) rest)
  end.

Definition readFixed (dv : DataView) (n position : Z) : outcome value :=
  match n * 8 with
  | 8 => let! x := getUint8 dv position in Return (VNumber x)
  | 16 => let! x := getUint16 dv position in Return (VNumber x)
  | 32 => let! x := getUint32 dv position in Return (VNumber x)
  | 64 => let! x := getBigUint64 dv position in Return (VBigInt x)
  | _ => Throw UnsupportedLength
  end.

Fixpoint readFields (dv : DataView) (fields : list Field.t) (offset : Z)
    (struct : Struct) (totalLength : Z) : outcome (Struct * Z) :=
  match fields with
  | [] => Return (struct, totalLength)
  | field :: rest =>
      match Field.length field with
      | Bytes n =>
          let! v := readFixed dv n (offset + totalLength) in
          readFields dv rest offset (setProp (Field.name field) v struct)
            (totalLength + n)
      | LengthOf lengthName =>
          match getProp lengthName struct with
          | Some (VNumber n) =>
              let! str := readChars dv (offset + totalLength) (Z.to_nat n) in
              readFields dv rest offset
                (setProp (Field.name field) (VString str) struct)
                (totalLength + n)
          | _ => Throw SchemaMismatch
          end
      end
  end.

(** The decoded properties and [struct[ZipReader.totalLengthSymbol]]. *)
Definition readStruct (dv : DataView) (fields : list Field.t) (offset : Z)
  : outcome (Struct * Z) :=
  readFields dv fields offset [] 0.

Definition number (struct : Struct) (name : string) : outcome Z :=
  match getProp name struct with
  | Some (VNumber n) => Return n
  | _ => Throw SchemaMismatch
  end.

Definition text (struct : Struct) (name : string) : outcome string :=
  match getProp name struct with
  | Some (VString s) => Return s
  | _ => Throw SchemaMismatch
  end.

(** ** The four record schemas *)

Definition fixed (name : string) (n : Z) : Field.t := Field.mk name (Bytes n).
Definition sized (name lengthName : string) : Field.t :=
  Field.mk name (LengthOf lengthName).

Definition localFileFields : list Field.t :=
  [ fixed "signature" 4; fixed "version" 2; fixed "generalPurpose" 2;
    fixed "compressionMethod" 2; fixed "lastModifiedTime" 2;
    fixed "lastModifiedDate" 2; fixed "crc" 4; fixed "compressedSize" 4;
    fixed "uncompressedSize" 4; fixed "fileNameLength" 2;
    fixed "extraLength" 2; sized "fileName" "fileNameLength";
    sized "extra" "extraLength" ]%string.

Definition centralDirectoryFields : list Field.t :=
  [ fixed "signature" 4; fixed "versionCreated" 2; fixed "versionNeeded" 2;
    fixed "generalPurpose" 2; fixed "compressionMethod" 2;
    fixed "lastModifiedTime" 2; fixed "lastModifiedDate" 2; fixed "crc" 4;
    fixed "compressedSize" 4; fixed "uncompressedSize" 4;
    fixed "fileNameLength" 2; fixed "extraLength" 2;
    fixed "fileCommentLength" 2; fixed "diskNumber" 2;
    fixed "internalAttributes" 2; fixed "externalAttributes" 4;
    fixed "offset" 4; sized "fileName" "fileNameLength";
    sized "extra" "extraLength"; sized "comments" "fileCommentLength" ]%string.

Definition dataDescriptorFields : list Field.t :=
  [ fixed "signature" 4; fixed "crc" 4; fixed "compressedSize" 4;
    fixed "uncompressedSize" 4 ]%string.

Definition endCentralDirectoryFields : list Field.t :=
  [ fixed "signature" 4; fixed "numberOfDisks" 2;
    fixed "centralDirectoryStartDisk" 2;
    fixed "numberCentralDirectoryRecordsOnThisDisk" 2;
    fixed "numberCentralDirectoryRecords" 2; fixed "centralDirectorySize" 4;
    fixed "centralDirectoryOffset" 4; fixed "commentLength" 2;
    sized "comment" "commentLength" ]%string.

(** ** Decoded entities

    Each entity is the object that [readStruct] built, with the
    properties its reader adds.  [totalLength] is the property under
    [ZipReader.totalLengthSymbol]; the kind under
    [ZipReader.structTypeSymbol] is the record type itself. *)

Module LocalFile.
Record t : Type := mk {
  signature : Z; version : Z; generalPurpose : Z; compressionMethod : Z;
  lastModifiedTime : Z; lastModifiedDate : Z; crc : Z; compressedSize : Z;
  uncompressedSize : Z; fileNameLength : Z; extraLength : Z;
  fileName : string; extra : string;
  totalLength : Z;
  needsDataDescriptor : bool;       (* true, or absent *)
  startsAt : Z;
  enrichedByDataDescriptor : bool   (* true, or absent *)
}.

(** The four assignments of the data-descriptor branch of [read]. *)
Definition enrich (target : t) (crc' compressedSize' uncompressedSize' : Z) : t :=
  mk (signature target) (version target) (generalPurpose target)
     (compressionMethod target) (lastModifiedTime target)
     (lastModifiedDate target) crc' compressedSize' uncompressedSize'
     (fileNameLength target) (extraLength target) (fileName target)
     (extra target) (totalLength target) (needsDataDescriptor target)
     (startsAt target) true.
End LocalFile.

Module CentralDirectory.
Record t : Type := mk {
  signature : Z; versionCreated : Z; versionNeeded : Z; generalPurpose : Z;
  compressionMethod : Z; lastModifiedTime : Z; lastModifiedDate : Z;
  crc : Z; compressedSize : Z; uncompressedSize : Z; fileNameLength : Z;
  extraLength : Z; fileCommentLength : Z; diskNumber : Z;
  internalAttributes : Z; externalAttributes : Z; offset : Z;
  fileName : string; extra : string; comments : string;
  totalLength : Z
}.
End CentralDirectory.

Module DataDescriptor.
Record t : Type := mk {
  signature : Z; crc : Z; compressedSize : Z; uncompressedSize : Z;
  totalLength : Z
}.
End DataDescriptor.

Module EndCentralDirectory.
Record t : Type := mk {
  signature : Z; numberOfDisks : Z; centralDirectoryStartDisk : Z;
  numberCentralDirectoryRecordsOnThisDisk : Z;
  numberCentralDirectoryRecords : Z; centralDirectorySize : Z;
  centralDirectoryOffset : Z; commentLength : Z; comment : string;
  totalLength : Z
}.
End EndCentralDirectory.

Section Readers.
Variable dv : DataView.
Local Open Scope string_scope.

Definition readLocalFile (offset : Z) : outcome LocalFile.t :=
  let! entry := readStruct dv localFileFields offset in
  let '(struct, totalLength) := entry in
  let! signature := number struct "signature" in
  let! version := number struct "version" in
  let! generalPurpose := number struct "generalPurpose" in
  let! compressionMethod := number struct "compressionMethod" in
  let! lastModifiedTime := number struct "lastModifiedTime" in
  let! lastModifiedDate := number struct "lastModifiedDate" in
  let! crc := number struct "crc" in
  let! compressedSize := number struct "compressedSize" in
  let! uncompressedSize := number struct "uncompressedSize" in
  let! fileNameLength := number struct "fileNameLength" in
  let! extraLength := number struct "extraLength" in
  let! fileName := text struct "fileName" in
  let! extra := text struct "extra" in
  Return (LocalFile.mk signature version generalPurpose compressionMethod
            lastModifiedTime lastModifiedDate crc compressedSize
            uncompressedSize fileNameLength extraLength fileName extra
            totalLength
            (negb (Z.eqb (Z.land generalPurpose 0x08) 0))
            (offset + totalLength)
            false).

Definition readCentralDirectory (offset : Z) : outcome CentralDirectory.t :=
  let! entry := readStruct dv centralDirectoryFields offset in
  let '(struct, totalLength) := entry in
  let! signature := number struct "signature" in
  let! versionCreated := number struct "versionCreated" in
  let! versionNeeded := number struct "versionNeeded" in
  let! generalPurpose := number struct "generalPurpose" in
  let! compressionMethod := number struct "compressionMethod" in
  let! lastModifiedTime := number struct "lastModifiedTime" in
  let! lastModifiedDate := number struct "lastModifiedDate" in
  let! crc := number struct "crc" in
  let! compressedSize := number struct "compressedSize" in
  let! uncompressedSize := number struct "uncompressedSize" in
  let! fileNameLength := number struct "fileNameLength" in
  let! extraLength := number struct "extraLength" in
  let! fileCommentLength := number struct "fileCommentLength" in
  let! diskNumber := number struct "diskNumber" in
  let! internalAttributes := number struct "internalAttributes" in
  let! externalAttributes := number struct "externalAttributes" in
  let! offset' := number struct "offset" in
  let! fileName := text struct "fileName" in
  let! extra := text struct "extra" in
  let! comments := text struct "comments" in
  Return (CentralDirectory.mk signature versionCreated versionNeeded
            generalPurpose compressionMethod lastModifiedTime
            lastModifiedDate crc compressedSize uncompressedSize
            fileNameLength extraLength fileCommentLength diskNumber
            internalAttributes externalAttributes offset' fileName extra
            comments totalLength).

Definition readDataDescriptor (offset : Z) : outcome DataDescriptor.t :=
  let! entry := readStruct dv dataDescriptorFields offset in
  let '(struct, totalLength) := entry in
  let! signature := number struct "signature" in
  let! crc := number struct "crc" in
  let! compressedSize := number struct "compressedSize" in
  let! uncompressedSize := number struct "uncompressedSize" in
  Return (DataDescriptor.mk signature crc compressedSize uncompressedSize
            totalLength).

Definition readEndCentralDirectory (offset : Z)
  : outcome EndCentralDirectory.t :=
  let! entry := readStruct dv endCentralDirectoryFields offset in
  let '(struct, totalLength) := entry in
  let! signature := number struct "signature" in
  let! numberOfDisks := number struct "numberOfDisks" in
  let! centralDirectoryStartDisk := number struct "centralDirectoryStartDisk" in
  let! onThisDisk := number struct "numberCentralDirectoryRecordsOnThisDisk" in
  let! records := number struct "numberCentralDirectoryRecords" in
  let! centralDirectorySize := number struct "centralDirectorySize" in
  let! centralDirectoryOffset := number struct "centralDirectoryOffset" in
  let! commentLength := number struct "commentLength" in
  let! comment := text struct "comment" in
  Return (EndCentralDirectory.mk signature numberOfDisks
            centralDirectoryStartDisk onThisDisk records
            centralDirectorySize centralDirectoryOffset commentLength
            comment totalLength).
End Readers.

(** ** The reader object *)

Record ZipReader : Type := mkZipReader {
  index : Z;
  localFiles : list LocalFile.t;
  centralDirectories : list CentralDirectory.t;
  endOfCentralDirectory : option EndCentralDirectory.t;
  backwardIndex : option Z;          (* absent until [read] assigns it *)
  dataView : DataView
}.

(** [new ZipReader(arrayBuffer)] *)
Definition newZipReader (arrayBuffer : list byte) : ZipReader :=
  mkZipReader 0 [] [] None None {| buffer := arrayBuffer |}.

Definition setIndex (i : Z) (this : ZipReader) : ZipReader :=
  mkZipReader i (localFiles this) (centralDirectories this)
    (endOfCentralDirectory this) (backwardIndex this) (dataView this).

Definition setLocalFiles (l : list LocalFile.t) (this : ZipReader) : ZipReader :=
  mkZipReader (index this) l (centralDirectories this)
    (endOfCentralDirectory this) (backwardIndex this) (dataView this).

Definition setCentralDirectories (l : list CentralDirectory.t)
    (this : ZipReader) : ZipReader :=
  mkZipReader (index this) (localFiles this) l
    (endOfCentralDirectory this) (backwardIndex this) (dataView this).

Definition setEndOfCentralDirectory (e : option EndCentralDirectory.t)
    (this : ZipReader) : ZipReader :=
  mkZipReader (index this) (localFiles this) (centralDirectories this)
    e (backwardIndex this) (dataView this).

Definition setBackwardIndex (b : option Z) (this : ZipReader) : ZipReader :=
  mkZipReader (index this) (localFiles this) (centralDirectories this)
    (endOfCentralDirectory this) b (dataView this).

(** Methods run on [this] and may throw after they have changed it: a
    computation returns its outcome together with the reader as it is
    left. *)
Definition M (A : Type) : Type := ZipReader -> outcome A * ZipReader.

Definition ret {A} (a : A) : M A := fun this => (Return a, this).
Definition throw {A} (e : error) : M A := fun this => (Throw e, this).
Definition lift {A} (o : outcome A) : M A := fun this => (o, this).
Definition bind {A B} (m : M A) (f : A -> M B) : M B := fun this =>
  match m this with
  | (Return a, this') => f a this'
  | (Throw e, this') => (Throw e, this')
  end.
Definition get : M ZipReader := fun this => (Return this, this).
Definition modify (f : ZipReader -> ZipReader) : M unit :=
  fun this => (Return tt, f this).

Declare Scope reader_scope.
Delimit Scope reader_scope with reader.
Notation "x <- m ;; k" := (bind m (fun x => k))
  (at level 61, m at next level, right associativity) : reader_scope.
Notation "m ;; k" := (bind m (fun _ => k))
  (at level 61, right associativity) : reader_scope.

(** An entry handed to [extract] or found by name is of either shape. *)
Inductive Entry : Type :=
| ELocal (entry : LocalFile.t)
| ECentral (entry : CentralDirectory.t).

Definition entryCompressedSize (entry : Entry) : Z :=
  match entry with
  | ELocal e => LocalFile.compressedSize e
  | ECentral c => CentralDirectory.compressedSize c
  end.

Definition entryFileName (entry : Entry) : string :=
  match entry with
  | ELocal e => LocalFile.fileName e
  | ECentral c => CentralDirectory.fileName c
  end.

Definition entryCompressionMethod (entry : Entry) : Z :=
  match entry with
  | ELocal e => LocalFile.compressionMethod e
  | ECentral c => CentralDirectory.compressionMethod c
  end.

Definition entryByFileName (name : string) (useCentralDirectory : bool)
    (this : ZipReader) : option Entry :=
  let heap := if useCentralDirectory
              then map ECentral (centralDirectories this)
              else map ELocal (localFiles this) in
  find (fun e => String.eqb (entryFileName e) name) heap.

(** ** read: the forward scan *)

Inductive flow : Type := Continue | Break.

Definition addIndex (n : Z) : M unit :=
  modify (fun this => setIndex (index this + n) this).

Definition pushLocalFile (entry : LocalFile.t) : M unit :=
  modify (fun this => setLocalFiles (localFiles this ++ [entry]) this).

Definition pushCentralDirectory (entry : CentralDirectory.t) : M unit :=
  modify (fun this =>
            setCentralDirectories (centralDirectories this ++ [entry]) this).

(** [this.localFiles[this.localFiles.length - 1]], absent on an empty list. *)
Definition lastLocalFile (this : ZipReader) : option LocalFile.t :=
  match rev (localFiles this) with
  | [] => None
  | target :: _ => Some target
  end.

Definition replaceLastLocalFile (target : LocalFile.t) : M unit :=
  modify (fun this =>
            setLocalFiles (removelast (localFiles this) ++ [target]) this).

Section Scan.
Local Open Scope reader_scope.

(** One turn of the [while] body of [read]. *)
Definition scanStep (useCentralDirectory : bool) : M flow :=
  this <- get ;;
  signature <- lift (getUint32 (dataView this) (index this)) ;;
  if signature =? 0x04034b50 then
    entry <- lift (readLocalFile (dataView this) (index this)) ;;
    pushLocalFile entry ;;
    addIndex (LocalFile.startsAt entry + LocalFile.compressedSize entry) ;;
    if LocalFile.needsDataDescriptor entry then
      if useCentralDirectory then
        this' <- get ;;
        match entryByFileName (LocalFile.fileName entry) true this' with
        | Some found => addIndex (entryCompressedSize found) ;; ret Continue
        | None => throw TypeError
        end
      else ret Break
    else ret Continue
  else if signature =? 0x08074b50 then
    entry <- lift (readDataDescriptor (dataView this) (index this)) ;;
    match lastLocalFile this with
    | Some target =>
        replaceLastLocalFile
          (LocalFile.enrich target (DataDescriptor.crc entry)
             (DataDescriptor.compressedSize entry)
             (DataDescriptor.uncompressedSize entry)) ;;
        addIndex (DataDescriptor.totalLength entry) ;;
        ret Continue
    | None => throw TypeError
    end
  else if useCentralDirectory then ret Break
  else if signature =? 0x02014b50 then
    entry <- lift (readCentralDirectory (dataView this) (index this)) ;;
    pushCentralDirectory entry ;;
    addIndex (CentralDirectory.totalLength entry) ;;
    ret Continue
  else if signature =? 0x06054b50 then
    entry <- lift (readEndCentralDirectory (dataView this) (index this)) ;;
    modify (setEndOfCentralDirectory (Some entry)) ;;
    addIndex (EndCentralDirectory.totalLength entry) ;;
    ret Break
  else ret Break.

(** The [while (this.index + 4 < this.dataView.byteLength)] loop.  Every
    turn that goes on moves the cursor forward, so the distance to the
    end of the buffer bounds the number of turns. *)
Fixpoint scanLoop (fuel : nat) (useCentralDirectory : bool) : M unit :=
  fun this =>
    if index this + 4 <? byteLength (dataView this) then
      match fuel with
      | O => (Throw OutOfFuel, this)
      | S fuel' =>
          match scanStep useCentralDirectory this with
          | (Return Continue, this') => scanLoop fuel' useCentralDirectory this'
          | (Return Break, this') => (Return tt, this')
          | (Throw e, this') => (Throw e, this')
          end
      end
    else (Return tt, this).

Definition scan (useCentralDirectory : bool) : M unit := fun this =>
  scanLoop (Z.to_nat (byteLength (dataView this) - index this))
    useCentralDirectory this.

(** ** read: locating the end of central directory *)

(** [while (readOffset < offset)] inside the heuristics. *)
Fixpoint readCentralDirectoriesUntil (fuel : nat) (offset readOffset : Z)
  : M unit :=
  fun this =>
    if readOffset <? offset then
      match fuel with
      | O => (Throw OutOfFuel, this)
      | S fuel' =>
          (centralDirectory <-
             lift (readCentralDirectory (dataView this) readOffset) ;;
           pushCentralDirectory centralDirectory ;;
           readCentralDirectoriesUntil fuel' offset
             (readOffset + CentralDirectory.totalLength centralDirectory))
            this
      end
    else (Return tt, this).

Definition heuristicsCentralDirectorySearch (offset : Z) : M bool :=
  this <- get ;;
  signature <- lift (getUint32 (dataView this) offset) ;;
  if signature =? 0x06054b50 then
    endOfCentralDirectory <-
      lift (readEndCentralDirectory (dataView this) offset) ;;
    if EndCentralDirectory.totalLength endOfCentralDirectory
       =? byteLength (dataView this) - offset then
      signature' <-
        lift (getUint32 (dataView this)
                (EndCentralDirectory.centralDirectoryOffset
                   endOfCentralDirectory)) ;;
      if signature' =? 0x02014b50 then
        modify (setEndOfCentralDirectory (Some endOfCentralDirectory)) ;;
        let readOffset :=
          EndCentralDirectory.centralDirectoryOffset endOfCentralDirectory in
        readCentralDirectoriesUntil (Z.to_nat (offset - readOffset))
          offset readOffset ;;
        ret true
      else ret false
    else ret false
  else ret false.

End Scan.

(** The two searches that follow call the closure
    [heuristicsCentralDirectorySearch] of [read]; they are written over
    the closure they call, here [validate]. *)
Section Locator.
Local Open Scope reader_scope.
Variable validate : Z -> M bool.

(** [for (let i = 0; i < hotSpots.length; i++)] *)
Fixpoint probeHotSpots (hotSpots : list Z) : M unit :=
  match hotSpots with
  | [] => ret tt
  | spot :: rest =>
      found <- validate spot ;;
      if found : bool then ret tt else probeHotSpots rest
  end.

Definition hotSpotSearch : M unit :=
  this <- get ;;
  match endOfCentralDirectory this with
  | None =>
      let hotSpots := [byteLength (dataView this) - 22] in
      let jumpPos := byteLength (dataView this) - 64 * 1024 - 22 in
      let hotSpots := if jumpPos >? 0 then hotSpots ++ [jumpPos] else hotSpots in
      probeHotSpots hotSpots
  | Some _ => ret tt
  end.

(** [this.backwardIndex--]; an absent value stays one that fails every
    comparison. *)
Definition decrementBackwardIndex : M unit :=
  modify (fun this =>
            setBackwardIndex
              (match backwardIndex this with
               | Some backward => Some (backward - 1)
               | None => None
               end) this).

(** The backward [while]; [undefined > 0] is false. *)
Fixpoint bruteForceLoop (fuel : nat) : M unit := fun this =>
  match backwardIndex this with
  | Some backward =>
      if match endOfCentralDirectory this with None => true | Some _ => false end
         && (backward >? 0) && (backward >? index this)
      then
        match fuel with
        | O => (Throw OutOfFuel, this)
        | S fuel' =>
            (found <- validate backward ;;
             if found : bool then ret tt
             else decrementBackwardIndex ;; bruteForceLoop fuel') this
        end
      else (Return tt, this)
  | None => (Return tt, this)
  end.

Definition bruteForceSearch : M unit :=
  this <- get ;;
  modify (setBackwardIndex (Some (byteLength (dataView this) - 23))) ;;
  bruteForceLoop (Z.to_nat (byteLength (dataView this) - 23)).

(** Lines 212 to 247 of [read]: the hot spots, then the backward scan. *)
Definition locateEndOfCentralDirectory : M unit :=
  hotSpotSearch ;; bruteForceSearch.
End Locator.

Section Read.
Local Open Scope reader_scope.

Definition read (useCentralDirectory : bool) : M unit :=
  (if useCentralDirectory
   then modify (fun this => setLocalFiles [] (setIndex 0 this))
   else ret tt) ;;
  scan useCentralDirectory ;;
  if useCentralDirectory then ret tt
  else locateEndOfCentralDirectory heuristicsCentralDirectorySearch.
End Read.

(** ** Blob *)

Record Blob : Type := { blobBytes : list byte; blobType : string }.

Definition inTypeRange (c : ascii) : bool :=
  (0x20 <=? Z.of_nat (nat_of_ascii c)) && (Z.of_nat (nat_of_ascii c) <=? 0x7E).

Definition asciiLowercase (c : ascii) : ascii :=
  let code := Z.of_nat (nat_of_ascii c) in
  if (0x41 <=? code) && (code <=? 0x5A)
  then ascii_of_nat (nat_of_ascii c + 0x20)
  else c.

Fixpoint everyChar (f : ascii -> bool) (s : string) : bool :=
  match s with
  | EmptyString => true
  | String c rest => f c && everyChar f rest
  end.

Fixpoint mapChars (f : ascii -> ascii) (s : string) : string :=
  match s with
  | EmptyString => EmptyString
  | String c rest => String (f c) (mapChars f rest)
  end.

(** The [type] that the [Blob] constructor keeps: empty when the given
    one has a character outside U+0020 to U+007E, converted to ASCII
    lowercase otherwise. *)
Definition normalizeType (type : string) : string :=
  if everyChar inTypeRange type then mapChars asciiLowercase type
  else EmptyString.

(** [new Blob(blobParts, { type })]; [new Blob(blobParts)] is the case of
    the empty type. *)
Definition newBlob (blobParts : list (list byte)) (type : string) : Blob :=
  {| blobBytes := List.concat blobParts; blobType := normalizeType type |}.

(** ** extract *)

Section Extract.
(** The platform's [DecompressionStream("deflate-raw")]: the chunks it
    yields for an input, or the failure of the stream. *)
Variable inflateRaw : list byte -> outcome (list (list byte)).
Local Open Scope reader_scope.

Definition extract (entry : Entry) (type : string) : M Blob :=
  this <- get ;;
  let centralDirectory := entry in
  entry <- match entry with
           | ECentral c =>
               lift (readLocalFile (dataView this) (CentralDirectory.offset c))
           | ELocal e => ret e
           end ;;
  let size := if LocalFile.compressedSize entry =? 0
              then entryCompressedSize centralDirectory
              else LocalFile.compressedSize entry in
  let buffer := slice (buffer (dataView this)) (LocalFile.startsAt entry)
                  (LocalFile.startsAt entry + size) in
  if LocalFile.compressionMethod entry =? 0x00 then
    ret (newBlob [buffer] EmptyString)
  else if LocalFile.compressionMethod entry =? 0x08 then
    data <- lift (inflateRaw buffer) ;;
    ret (newBlob data type)
  else throw UnsupportedCompressionMethod.

Definition extractByFileName (name : string) (useCentralDirectory : bool)
  : M (option Blob) :=
  this <- get ;;
  match entryByFileName name useCentralDirectory this with
  | None => ret None
  | Some entry => blob <- extract entry EmptyString ;; ret (Some blob)
  end.
End Extract.

Definition entries (this : ZipReader) : list LocalFile.t := localFiles this.

(** ** Archive fixtures

    Encoders for the four records, used to write concrete archives. *)

Module Fixture.
Definition byteOf (n : Z) : byte :=
  match Byte.of_N (Z.to_N (n mod 256)) with
  | Some b => b
  | None => x00
  end.

Definition le16 (n : Z) : list byte := [byteOf n; byteOf (n / 256)].
Definition le32 (n : Z) : list byte :=
  [byteOf n; byteOf (n / 256); byteOf (n / 65536); byteOf (n / 16777216)].

Definition chars (s : string) : list byte := list_byte_of_string s.
Definition size (l : list byte) : Z := Z.of_nat (List.length l).

Definition localHeader (generalPurpose method crc compressedSize
    uncompressedSize : Z) (name : string) : list byte :=
  le32 0x04034b50 ++ le16 20 ++ le16 generalPurpose ++ le16 method
    ++ le16 0 ++ le16 0 ++ le32 crc ++ le32 compressedSize
    ++ le32 uncompressedSize ++ le16 (size (chars name)) ++ le16 0
    ++ chars name.

Definition centralHeader (generalPurpose method crc compressedSize
    uncompressedSize offset : Z) (name : string) : list byte :=
  le32 0x02014b50 ++ le16 20 ++ le16 20 ++ le16 generalPurpose
    ++ le16 method ++ le16 0 ++ le16 0 ++ le32 crc ++ le32 compressedSize
    ++ le32 uncompressedSize ++ le16 (size (chars name)) ++ le16 0
    ++ le16 0 ++ le16 0 ++ le16 0 ++ le32 0 ++ le32 offset ++ chars name.

Definition dataDescriptor (crc compressedSize uncompressedSize : Z)
  : list byte :=
  le32 0x08074b50 ++ le32 crc ++ le32 compressedSize ++ le32 uncompressedSize.

Definition endRecord (records directorySize directoryOffset : Z)
    (comment : string) : list byte :=
  le32 0x06054b50 ++ le16 0 ++ le16 0 ++ le16 records ++ le16 records
    ++ le32 directorySize ++ le32 directoryOffset
    ++ le16 (size (chars comment)) ++ chars comment.
End Fixture.

(** * Vocabulary of the properties *)

Definition nonnegValue (v : value) : Prop :=
  match v with
  | VNumber n | VBigInt n => 0 <= n
  | VString _ => True
  end.

Definition NonnegStruct (struct : Struct) : Prop :=
  Forall (fun kv => nonnegValue (snd kv)) struct.

(** The invariant that the central-directory jump relies on. *)
Definition DirectoryNonneg (this : ZipReader) : Prop :=
  Forall (fun c => 0 <= CentralDirectory.compressedSize c)
    (centralDirectories this).

(** The central directory as the walk reads it: header after header from
    [readOffset], each where the previous one ends, until the position
    is no longer below [offset]. *)
Inductive DirectoryChain (dv : DataView) (offset : Z)
  : Z -> list CentralDirectory.t -> Prop :=
| chain_end (readOffset : Z) :
    offset <= readOffset -> DirectoryChain dv offset readOffset []
| chain_step (readOffset : Z) (entry : CentralDirectory.t)
    (rest : list CentralDirectory.t) :
    readOffset < offset ->
    readCentralDirectory dv readOffset = Return entry ->
    DirectoryChain dv offset
      (readOffset + CentralDirectory.totalLength entry) rest ->
    DirectoryChain dv offset readOffset (entry :: rest).

(** The archive state of the spec: the reader without [backwardIndex],
    and an outcome without its value. *)
Definition archiveState (this : ZipReader) : ZipReader :=
  setBackwardIndex None this.

Definition void {A} (o : outcome A) : outcome unit :=
  match o with
  | Return _ => Return tt
  | Throw e => Throw e
  end.

Definition forget {A} (result : outcome A * ZipReader) : outcome unit * ZipReader :=
  (void (fst result), archiveState (snd result)).

(** Candidates tried in order until one validates; the answer is the
    offset that did. *)
Fixpoint probeInOrder (validate : Z -> M bool) (candidates : list Z)
  : M (option Z) := fun this =>
  match candidates with
  | [] => (Return None, this)
  | candidate :: rest =>
      match validate candidate this with
      | (Return true, this') => (Return (Some candidate), this')
      | (Return false, this') => probeInOrder validate rest this'
      | (Throw e, this') => (Throw e, this')
      end
  end.

(** What the two searches rely on in the closure they call: it neither
    reads nor writes [backwardIndex]; a candidate that it turns down
    leaves buffer, cursor and end record as they were; one that it
    accepts leaves an end record stored. *)
Record Validation (validate : Z -> M bool) : Prop := {
  validation_backwardIndex :
    forall (b : option Z) (offset : Z) (this : ZipReader),
      validate offset (setBackwardIndex b this)
      = (fst (validate offset this),
         setBackwardIndex b (snd (validate offset this)));
  validation_false :
    forall (offset : Z) (this this' : ZipReader),
      validate offset this = (Return false, this') ->
      dataView this' = dataView this
      /\ index this' = index this
      /\ endOfCentralDirectory this' = endOfCentralDirectory this;
  validation_true :
    forall (offset : Z) (this this' : ZipReader),
      validate offset this = (Return true, this') ->
      endOfCentralDirectory this' <> None
}.

(** A closure that keeps the contract and accepts offset 2 only. *)
Definition acceptAtTwo : Z -> M bool := fun offset this =>
  if offset =? 2
  then (Return true,
        setEndOfCentralDirectory
          (Some (EndCentralDirectory.mk 0 0 0 0 0 0 0 0 EmptyString 22)) this)
  else (Return false, this).

(** [hi], [hi - 1], ... : [n] offsets going down. *)
Fixpoint countdown (hi : Z) (n : nat) : list Z :=
  match n with
  | O => []
  | S k => hi :: countdown (hi - 1) k
  end.

(** The offsets above [lo] and up to [hi], from the top. *)
Definition backwardRange (hi lo : Z) : list Z := countdown hi (Z.to_nat (hi - lo)).

(** The candidates of the locator in the order of the spec: the end
    minus 22; the end minus 64 KiB minus 22 in a buffer larger than
    that; then from the end minus 23 down, above the cursor. *)
Definition locatorCandidates (this : ZipReader) : list Z :=
  let len := byteLength (dataView this) in
  [len - 22]
    ++ (if 65536 + 22 <? len then [len - 65536 - 22] else [])
    ++ backwardRange (len - 23) (Z.max (index this) 0).

(** The local file entry that [extract] works on: the entry itself, or
    for a central directory entry the header decoded at its [offset]. *)
Definition localFileOf (this : ZipReader) (entry : Entry) : outcome LocalFile.t :=
  match entry with
  | ECentral c => readLocalFile (dataView this) (CentralDirectory.offset c)
  | ELocal e => Return e
  end.

(** [entry.compressedSize || centralDirectory.compressedSize] *)
Definition sliceSize (entry : LocalFile.t) (centralDirectory : Entry) : Z :=
  if LocalFile.compressedSize entry =? 0
  then entryCompressedSize centralDirectory
  else LocalFile.compressedSize entry.

(** A character of a content type that the [Blob] constructor keeps as
    it is: in the range U+0020 to U+007E and not an upper-case letter. *)
Definition keptInType (c : ascii) : bool :=
  inTypeRange c
  && negb ((0x41 <=? Z.of_nat (nat_of_ascii c))
           && (Z.of_nat (nat_of_ascii c) <=? 0x5A)).

(** The cursor stands where the forward scan cannot go on: at the end of
    the buffer or at a signature that is none of the four. *)
Definition Stalled (this : ZipReader) : Prop :=
  byteLength (dataView this) <= index this + 4
  \/ exists signature,
       getUint32 (dataView this) (index this) = Return signature
       /\ signature <> 0x04034b50 /\ signature <> 0x08074b50
       /\ signature <> 0x02014b50 /\ signature <> 0x06054b50.

(** From [position] on, the plain scanner meets central directory
    headers only, until it stops (end of the buffer, end record, unknown
    signature, or a header that runs past the buffer). *)
Inductive DirectoryOnly (dv : DataView) : Z -> Prop :=
| directory_stop (position : Z) :
    (position + 4 < byteLength dv ->
     forall signature,
       getUint32 dv position = Return signature ->
       signature <> 0x04034b50 /\ signature <> 0x08074b50
       /\ signature <> 0x02014b50) ->
    DirectoryOnly dv position
| directory_entry (position : Z) :
    position + 4 < byteLength dv ->
    getUint32 dv position = Return 0x02014b50 ->
    (forall entry,
        readCentralDirectory dv position = Return entry ->
        DirectoryOnly dv (position + CentralDirectory.totalLength entry)) ->
    DirectoryOnly dv position.

Definition sizeUpfront (entry : LocalFile.t) : Prop :=
  LocalFile.needsDataDescriptor entry = false.

(** The schemas on which [readFields] follows the source up to the first
    field of an unsupported width: every text field before it takes its
    length from a field decoded earlier as a number (one, two or four
    bytes wide), under a name other than [__proto__], which an object
    does not hold as a property of its own.  [numbers] are the names
    that hold a number so far. *)
Fixpoint lengthsDecoded (numbers : list string) (fields : list Field.t) : bool :=
  match fields with
  | [] => true
  | field :: rest =>
      match Field.length field with
      | Bytes n =>
          if (n =? 1) || (n =? 2) || (n =? 4)
          then lengthsDecoded (Field.name field :: numbers) rest
          else if n =? 8
          then lengthsDecoded (remove string_dec (Field.name field) numbers) rest
          else true
      | LengthOf lengthName =>
          existsb (String.eqb lengthName) numbers
          && negb (String.eqb lengthName "__proto__")
          && lengthsDecoded (remove string_dec (Field.name field) numbers) rest
      end
  end.

(** An unsigned value of [bits] bits. *)
Definition isUint (bits v : Z) : Prop := 0 <= v < 2 ^ bits.

(** The local file header at [offset] fits into the buffer: its thirty
    fixed bytes, then the name and the extra field of the lengths found
    at [offset + 26] and [offset + 28]. *)
Definition localFileFits (dv : DataView) (offset : Z) : Prop :=
  0 <= offset
  /\ exists fileNameLength extraLength,
       getUint16 dv (offset + 26) = Return fileNameLength
       /\ getUint16 dv (offset + 28) = Return extraLength
       /\ offset + 30 + fileNameLength + extraLength <= byteLength dv.

(** The list that [entryByFileName] searches. *)
Definition heapOf (useCentralDirectory : bool) (this : ZipReader) : list Entry :=
  if useCentralDirectory
  then map ECentral (centralDirectories this)
  else map ELocal (localFiles this).

(** A central directory entry that is the header decoded at some offset
    of the buffer. *)
Definition Decoded (dv : DataView) (entry : CentralDirectory.t) : Prop :=
  exists offset, readCentralDirectory dv offset = Return entry.

(** What the locator may change in a reader: it appends central
    directory entries decoded from the buffer (and sets the end record
    and [backwardIndex]); the buffer, the cursor and the local entries
    stay. *)
Definition LocatorFrame (this this' : ZipReader) : Prop :=
  dataView this' = dataView this
  /\ index this' = index this
  /\ localFiles this' = localFiles this
  /\ exists added,
       centralDirectories this' = centralDirectories this ++ added
       /\ Forall (Decoded (dataView this)) added.

(** The local entries as a scan may leave them: entries are appended,
    and the one that was last may have received the crc and the sizes
    of a data descriptor; every other entry is in its place as it
    was. *)
Definition Patched (before after : list LocalFile.t) : Prop :=
  (exists added, after = before ++ added)
  \/ exists init target crc compressedSize uncompressedSize added,
       before = init ++ [target]
       /\ after
          = init ++ LocalFile.enrich target crc compressedSize uncompressedSize
                    :: added.

(** What a plain [read] may change: the cursor moves forward, the local
    entries are patched at the end and appended to, central directory
    entries decoded from the buffer are appended; the buffer stays. *)
Definition Extends (this this' : ZipReader) : Prop :=
  dataView this' = dataView this
  /\ index this <= index this'
  /\ Patched (localFiles this) (localFiles this')
  /\ exists added,
       centralDirectories this' = centralDirectories this ++ added
       /\ Forall (Decoded (dataView this)) added.

(** * Archives used as examples *)

(** *** Three stored entries

    A regular archive: three stored one-byte files with their sizes in
    the headers, the central directory and the end record. *)
Definition threeStoredEntries : list byte :=
  (Fixture.localHeader 0 0 11 1 1 "a" ++ Fixture.chars "x"
   ++ Fixture.localHeader 0 0 12 1 1 "b" ++ Fixture.chars "y"
   ++ Fixture.localHeader 0 0 13 1 1 "c" ++ Fixture.chars "z"
   ++ Fixture.centralHeader 0 0 11 1 1 0 "a"
   ++ Fixture.centralHeader 0 0 12 1 1 32 "b"
   ++ Fixture.centralHeader 0 0 13 1 1 64 "c"
   ++ Fixture.endRecord 3 141 96 EmptyString).

(** *** A directory cut short

    Four bytes that are no signature, the signature of a central
    directory header, then an end record that declares the directory at
    offset 4. *)
Definition truncatedDirectory : list byte :=
  Fixture.le32 0 ++ Fixture.le32 0x02014b50
    ++ Fixture.endRecord 1 46 4 EmptyString.

(** *** A streamed entry

    One entry written the streaming way: bit 3 set and zero sizes in the
    local header, two bytes of data, the data descriptor, the central
    directory header and the end record without comment. *)
Definition streamedEntry : list byte :=
  Fixture.localHeader 8 0 0 0 0 "a" ++ Fixture.chars "xy"
    ++ Fixture.dataDescriptor 77 2 2
    ++ Fixture.centralHeader 8 0 77 2 2 0 "a"
    ++ Fixture.endRecord 1 47 49 EmptyString.

(** *** A streamed entry under a commented end record *)
Definition commentedArchive : list byte :=
  Fixture.localHeader 8 0 0 0 0 "a" ++ Fixture.chars "xy"
    ++ Fixture.dataDescriptor 77 2 2
    ++ Fixture.centralHeader 8 0 77 2 2 0 "a"
    ++ Fixture.endRecord 1 47 49 "ok".

(** *** A stored entry whose header declares two different sizes *)
Definition mismatchedSizes : list byte :=
  Fixture.localHeader 0 0 5 1 5 "a" ++ Fixture.chars "x"
    ++ Fixture.centralHeader 0 0 5 1 5 0 "a"
    ++ Fixture.endRecord 1 47 32 EmptyString.

(** *** A central directory that names a method the local header does not *)
Definition mislabelledMethod : list byte :=
  Fixture.localHeader 0 0 5 1 1 "a" ++ Fixture.chars "x"
    ++ Fixture.centralHeader 0 12 5 1 1 0 "a"
    ++ Fixture.endRecord 1 47 32 EmptyString.

(** *** A stored file under a method the reader does not know *)
Definition unknownMethod : list byte :=
  Fixture.localHeader 0 12 5 1 1 "a" ++ Fixture.chars "x"
    ++ Fixture.centralHeader 0 12 5 1 1 0 "a"
    ++ Fixture.endRecord 1 47 32 EmptyString.

(** *** A deflated entry

    One byte of data under method 8; the data is not a deflate stream,
    the archive serves runs in which the stream is a given function. *)
Definition deflatedEntry : list byte :=
  Fixture.localHeader 0 8 5 1 1 "a" ++ Fixture.chars "x"
    ++ Fixture.centralHeader 0 8 5 1 1 0 "a"
    ++ Fixture.endRecord 1 47 32 EmptyString.

(** *** Two streamed entries

    Two entries written the streaming way, each with its data
    descriptor, then the central directory and the end record. *)
Definition twoStreamedEntries : list byte :=
  Fixture.localHeader 8 0 0 0 0 "a" ++ Fixture.chars "xy"
    ++ Fixture.dataDescriptor 77 2 2
    ++ Fixture.localHeader 8 0 0 0 0 "b" ++ Fixture.chars "z"
    ++ Fixture.dataDescriptor 88 1 1
    ++ Fixture.centralHeader 8 0 77 2 2 0 "a"
    ++ Fixture.centralHeader 8 0 88 1 1 49 "b"
    ++ Fixture.endRecord 2 94 97 EmptyString.

(** *** Two streamed empty files *)
Definition twoStreamedEmpty : list byte :=
  Fixture.localHeader 8 0 0 0 0 "a" ++ Fixture.dataDescriptor 0 0 0
    ++ Fixture.localHeader 8 0 0 0 0 "b" ++ Fixture.dataDescriptor 0 0 0
    ++ Fixture.centralHeader 8 0 0 0 0 0 "a"
    ++ Fixture.centralHeader 8 0 0 0 0 47 "b"
    ++ Fixture.endRecord 2 94 94 EmptyString.

(** *** A local file header behind a central directory header *)
Definition headerAfterDirectory : list byte :=
  Fixture.localHeader 0 0 0 0 0 "a"
    ++ Fixture.centralHeader 0 0 0 0 0 0 "a"
    ++ Fixture.localHeader 0 0 0 0 0 "b".

(** * Properties *)

(** ** Decoding *)

Ltac bind_inv H :=
  match type of H with
  | obind ?o _ = Return _ =>
      let v := fresh "v" in
      let E := fresh "E" in
      destruct o as [v|] eqn:E; cbn [obind] in H; [|discriminate H]
  end.

Lemma littleEndian_nonneg (bs : list byte) : 0 <= littleEndian bs.
Proof.
  induction bs as [|b rest IH]; cbn [littleEndian]; lia.
Qed.

Lemma getUint_Return (width : Z) (dv : DataView) (byteOffset v : Z) :
  getUint width dv byteOffset = Return v ->
  0 <= byteOffset /\ byteOffset + width <= byteLength dv /\ 0 <= v.
Proof.
  unfold getUint.
  destruct (0 <=? byteOffset) eqn:E1; cbn [andb]; [|discriminate].
  destruct (byteOffset + width <=? byteLength dv) eqn:E2; [|discriminate].
  intros H. injection H as <-.
  repeat split; try lia. apply littleEndian_nonneg.
Qed.

Lemma getUint_in_range (width : Z) (dv : DataView) (byteOffset : Z) :
  0 <= byteOffset -> byteOffset + width <= byteLength dv ->
  exists v, getUint width dv byteOffset = Return v.
Proof.
  intros H1 H2. unfold getUint.
  destruct (Z.leb_spec 0 byteOffset); [|lia].
  destruct (Z.leb_spec (byteOffset + width) (byteLength dv)); [|lia].
  cbn [andb]. eauto.
Qed.

Lemma littleEndian_bound (bs : list byte) :
  littleEndian bs < 256 ^ Z.of_nat (List.length bs).
Proof.
  induction bs as [|b rest IH]; cbn [littleEndian List.length].
  - cbn. lia.
  - rewrite Nat2Z.inj_succ, Z.pow_succ_r by lia.
    pose proof (Byte.to_N_bounded b). lia.
Qed.

Lemma getUint_bound (width : Z) (dv : DataView) (byteOffset v : Z) :
  0 <= width ->
  getUint width dv byteOffset = Return v -> v < 256 ^ width.
Proof.
  intros Hw. unfold getUint.
  destruct (Z.leb_spec 0 byteOffset) as [H0|]; cbn [andb]; [|discriminate].
  destruct (Z.leb_spec (byteOffset + width) (byteLength dv)) as [H1|];
    [|discriminate].
  intros H; injection H as <-.
  match goal with |- littleEndian ?l < _ => pose proof (littleEndian_bound l) as Hb end.
  rewrite length_firstn, length_skipn in Hb. unfold byteLength in H1.
  replace (Z.of_nat (Nat.min (Z.to_nat width)
                       (List.length (buffer dv) - Z.to_nat byteOffset)))
    with width in Hb by lia.
  exact Hb.
Qed.

Lemma readChars_Return (dv : DataView) (count : nat) :
  forall (position : Z) (s : string),
    readChars dv position count = Return s ->
    String.length s = count
    /\ (count <> O ->
        0 <= position /\ position + Z.of_nat count <= byteLength dv).
Proof.
  induction count as [|k IH]; intros position s; cbn [readChars].
  - intros H; injection H as <-. split; [reflexivity|congruence].
  - intros H. bind_inv H. bind_inv H. injection H as <-.
    apply getUint_Return in E as (H0 & H1 & _).
    apply IH in E0 as [Hlen Hrange]. cbn [String.length]. split; [congruence|].
    intros _. destruct k as [|k]; [lia|].
    destruct Hrange as [_ Hr]; [discriminate|]. lia.
Qed.

Lemma readChars_in_range (dv : DataView) (count : nat) :
  forall position : Z,
    (count = O \/ (0 <= position /\ position + Z.of_nat count <= byteLength dv)) ->
    exists s, readChars dv position count = Return s.
Proof.
  induction count as [|k IH]; intros position Hr; cbn [readChars].
  - eexists. reflexivity.
  - destruct Hr as [Hr|[H0 H1]]; [discriminate|].
    unfold getUint8.
    destruct (getUint_in_range 1 dv position) as [code ->]; [lia|lia|].
    cbn [obind].
    destruct (IH (position + 1)) as [rest ->].
    { destruct k; [left; reflexivity|right; lia]. }
    cbn [obind]. eexists. reflexivity.
Qed.

Lemma obind_Return {A B} (o : outcome A) (f : A -> outcome B) (b : B) :
  obind o f = Return b -> exists a, o = Return a /\ f a = Return b.
Proof.
  destruct o as [a|e]; cbn [obind]; [|discriminate]. intros H. exists a. auto.
Qed.

Lemma Return_inj {A} (a b : A) : Return a = Return b -> a = b.
Proof. intros H. injection H as ->. reflexivity. Qed.

Ltac bind_step H :=
  let v := fresh "v" in
  let E := fresh "E" in
  apply obind_Return in H as (v & E & H); cbv beta in H.

Lemma setProp_nonneg (name : string) (v : value) (struct : Struct) :
  nonnegValue v -> NonnegStruct struct -> NonnegStruct (setProp name v struct).
Proof.
  intros Hv. induction 1 as [|[k w] rest Hw Hrest IH]; cbn [setProp].
  - repeat constructor. exact Hv.
  - destruct (String.eqb k name); constructor; auto.
Qed.

Lemma getProp_nonneg (name : string) (struct : Struct) (v : value) :
  NonnegStruct struct -> getProp name struct = Some v -> nonnegValue v.
Proof.
  induction 1 as [|[k w] rest Hw Hrest IH]; cbn [getProp]; [discriminate|].
  destruct (String.eqb k name); [|exact IH].
  intros H; injection H as <-. exact Hw.
Qed.

Lemma number_nonneg (struct : Struct) (name : string) (n : Z) :
  NonnegStruct struct -> number struct name = Return n -> 0 <= n.
Proof.
  unfold number. intros Hs.
  destruct (getProp name struct) as [[m|m|s]|] eqn:E; try discriminate.
  intros H; injection H as <-. exact (getProp_nonneg _ _ _ Hs E).
Qed.

Lemma readFixed_Return (dv : DataView) (n position : Z) (v : value) :
  readFixed dv n position = Return v -> nonnegValue v /\ 0 < n.
Proof.
  unfold readFixed, getUint8, getUint16, getUint32, getBigUint64.
  destruct (n * 8) as [|p|p] eqn:En; try discriminate.
  intros H. split; [|lia].
  repeat (destruct p as [p|p|]; try discriminate H);
    bind_inv H; injection H as <-; cbn [nonnegValue];
    eapply getUint_Return; eassumption.
Qed.

Lemma readFields_Return (dv : DataView) (fields : list Field.t) (offset : Z) :
  forall (struct : Struct) (totalLength : Z) (struct' : Struct) (totalLength' : Z),
    NonnegStruct struct ->
    readFields dv fields offset struct totalLength = Return (struct', totalLength') ->
    NonnegStruct struct' /\ totalLength <= totalLength'.
Proof.
  induction fields as [|field rest IH]; intros struct total struct' total' Hs H;
    cbn [readFields] in H.
  - injection H as <- <-. split; [exact Hs|lia].
  - destruct (Field.length field) as [n|lengthName].
    + bind_inv H. apply readFixed_Return in E as [Hv Hn].
      apply IH in H as [H1 H2]; [|apply setProp_nonneg; assumption].
      split; [exact H1|lia].
    + destruct (getProp lengthName struct) as [[n|n|s]|] eqn:El; try discriminate.
      bind_inv H.
      pose proof (getProp_nonneg _ _ _ Hs El) as Hn. cbn [nonnegValue] in Hn.
      apply IH in H as [H1 H2]; [|apply setProp_nonneg; [exact I|assumption]].
      split; [exact H1|lia].
Qed.

(** Every schema starts with the four-byte signature, so a decoded
    record has a positive length. *)
Lemma readStruct_Return (dv : DataView) (name : string) (rest : list Field.t)
    (offset : Z) (struct : Struct) (totalLength : Z) :
  readStruct dv (fixed name 4 :: rest) offset = Return (struct, totalLength) ->
  NonnegStruct struct /\ 4 <= totalLength.
Proof.
  unfold readStruct. cbn [readFields fixed Field.length Field.name].
  intros H. bind_inv H.
  apply readFixed_Return in E as [Hv _].
  apply readFields_Return in H as [H1 H2].
  - split; [exact H1|lia].
  - apply setProp_nonneg; [exact Hv|constructor].
Qed.

Ltac reader_inv H :=
  let entry := fresh "entry" in
  let E := fresh "E" in
  match type of H with
  | obind ?o _ = Return _ =>
      destruct o as [entry|] eqn:E; cbn [obind] in H; [|discriminate H];
      destruct entry as [struct total];
      apply readStruct_Return in E as [Hstruct Htotal]
  end.

Lemma readLocalFile_Return (dv : DataView) (offset : Z) (entry : LocalFile.t) :
  readLocalFile dv offset = Return entry ->
  LocalFile.startsAt entry = offset + LocalFile.totalLength entry
  /\ 4 <= LocalFile.totalLength entry
  /\ 0 <= LocalFile.compressedSize entry
  /\ LocalFile.enrichedByDataDescriptor entry = false
  /\ LocalFile.needsDataDescriptor entry
     = negb (Z.land (LocalFile.generalPurpose entry) 0x08 =? 0).
Proof.
  unfold readLocalFile, localFileFields. intros H. reader_inv H.
  repeat bind_inv H. injection H as <-. cbn.
  repeat split; try lia.
  eapply number_nonneg; eassumption.
Qed.

Lemma readCentralDirectory_Return (dv : DataView) (offset : Z)
    (entry : CentralDirectory.t) :
  readCentralDirectory dv offset = Return entry ->
  4 <= CentralDirectory.totalLength entry
  /\ 0 <= CentralDirectory.compressedSize entry.
Proof.
  unfold readCentralDirectory, centralDirectoryFields. intros H. reader_inv H.
  repeat bind_inv H. injection H as <-. cbn.
  split; [lia|]. eapply number_nonneg; eassumption.
Qed.

Lemma readEndCentralDirectory_Return (dv : DataView) (offset : Z)
    (entry : EndCentralDirectory.t) :
  readEndCentralDirectory dv offset = Return entry ->
  4 <= EndCentralDirectory.totalLength entry
  /\ 0 <= EndCentralDirectory.centralDirectoryOffset entry.
Proof.
  unfold readEndCentralDirectory, endCentralDirectoryFields. intros H.
  reader_inv H. repeat bind_inv H. injection H as <-. cbn.
  split; [lia|]. eapply number_nonneg; eassumption.
Qed.

(** *** The schemas, unfolded

    What [readStruct] does on each of the four schemas, read by read. *)

Ltac step_decoder :=
  match goal with
  | |- context [obind (?f ?dv ?o) _] =>
      match f with
      | getUint8 => idtac
      | getUint16 => idtac
      | getUint32 => idtac
      end;
      destruct (f dv o);
      cbn -[getUint8 getUint16 getUint32 readChars Z.to_nat]; [|reflexivity]
  | |- context [obind (readChars ?dv ?o ?n) _] =>
      destruct (readChars dv o n);
      cbn -[getUint8 getUint16 getUint32 readChars Z.to_nat]; [|reflexivity]
  end.

Ltac unfold_schema :=
  unfold readStruct;
  cbn -[getUint8 getUint16 getUint32 readChars Z.to_nat];
  repeat step_decoder; reflexivity.

Lemma readLocalFile_eq (dv : DataView) (offset : Z) :
  readLocalFile dv offset =
  let! signature := getUint32 dv (offset + 0) in
  let! version := getUint16 dv (offset + 4) in
  let! generalPurpose := getUint16 dv (offset + 6) in
  let! compressionMethod := getUint16 dv (offset + 8) in
  let! lastModifiedTime := getUint16 dv (offset + 10) in
  let! lastModifiedDate := getUint16 dv (offset + 12) in
  let! crc := getUint32 dv (offset + 14) in
  let! compressedSize := getUint32 dv (offset + 18) in
  let! uncompressedSize := getUint32 dv (offset + 22) in
  let! fileNameLength := getUint16 dv (offset + 26) in
  let! extraLength := getUint16 dv (offset + 28) in
  let! fileName := readChars dv (offset + 30) (Z.to_nat fileNameLength) in
  let! extra :=
    readChars dv (offset + (30 + fileNameLength)) (Z.to_nat extraLength) in
  Return (LocalFile.mk signature version generalPurpose compressionMethod
            lastModifiedTime lastModifiedDate crc compressedSize
            uncompressedSize fileNameLength extraLength fileName extra
            (30 + fileNameLength + extraLength)
            (negb (Z.land generalPurpose 0x08 =? 0))
            (offset + (30 + fileNameLength + extraLength))
            false).
Proof. unfold readLocalFile, localFileFields. unfold_schema. Qed.

Lemma readCentralDirectory_eq (dv : DataView) (offset : Z) :
  readCentralDirectory dv offset =
  let! signature := getUint32 dv (offset + 0) in
  let! versionCreated := getUint16 dv (offset + 4) in
  let! versionNeeded := getUint16 dv (offset + 6) in
  let! generalPurpose := getUint16 dv (offset + 8) in
  let! compressionMethod := getUint16 dv (offset + 10) in
  let! lastModifiedTime := getUint16 dv (offset + 12) in
  let! lastModifiedDate := getUint16 dv (offset + 14) in
  let! crc := getUint32 dv (offset + 16) in
  let! compressedSize := getUint32 dv (offset + 20) in
  let! uncompressedSize := getUint32 dv (offset + 24) in
  let! fileNameLength := getUint16 dv (offset + 28) in
  let! extraLength := getUint16 dv (offset + 30) in
  let! fileCommentLength := getUint16 dv (offset + 32) in
  let! diskNumber := getUint16 dv (offset + 34) in
  let! internalAttributes := getUint16 dv (offset + 36) in
  let! externalAttributes := getUint32 dv (offset + 38) in
  let! offset' := getUint32 dv (offset + 42) in
  let! fileName := readChars dv (offset + 46) (Z.to_nat fileNameLength) in
  let! extra :=
    readChars dv (offset + (46 + fileNameLength)) (Z.to_nat extraLength) in
  let! comments :=
    readChars dv (offset + (46 + fileNameLength + extraLength))
      (Z.to_nat fileCommentLength) in
  Return (CentralDirectory.mk signature versionCreated versionNeeded
            generalPurpose compressionMethod lastModifiedTime
            lastModifiedDate crc compressedSize uncompressedSize
            fileNameLength extraLength fileCommentLength diskNumber
            internalAttributes externalAttributes offset' fileName extra
            comments (46 + fileNameLength + extraLength + fileCommentLength)).
Proof. unfold readCentralDirectory, centralDirectoryFields. unfold_schema. Qed.

Lemma readDataDescriptor_eq (dv : DataView) (offset : Z) :
  readDataDescriptor dv offset =
  let! signature := getUint32 dv (offset + 0) in
  let! crc := getUint32 dv (offset + 4) in
  let! compressedSize := getUint32 dv (offset + 8) in
  let! uncompressedSize := getUint32 dv (offset + 12) in
  Return (DataDescriptor.mk signature crc compressedSize uncompressedSize 16).
Proof. unfold readDataDescriptor, dataDescriptorFields. unfold_schema. Qed.

Lemma readEndCentralDirectory_eq (dv : DataView) (offset : Z) :
  readEndCentralDirectory dv offset =
  let! signature := getUint32 dv (offset + 0) in
  let! numberOfDisks := getUint16 dv (offset + 4) in
  let! centralDirectoryStartDisk := getUint16 dv (offset + 6) in
  let! onThisDisk := getUint16 dv (offset + 8) in
  let! records := getUint16 dv (offset + 10) in
  let! centralDirectorySize := getUint32 dv (offset + 12) in
  let! centralDirectoryOffset := getUint32 dv (offset + 16) in
  let! commentLength := getUint16 dv (offset + 20) in
  let! comment := readChars dv (offset + 22) (Z.to_nat commentLength) in
  Return (EndCentralDirectory.mk signature numberOfDisks
            centralDirectoryStartDisk onThisDisk records centralDirectorySize
            centralDirectoryOffset commentLength comment (22 + commentLength)).
Proof.
  unfold readEndCentralDirectory, endCentralDirectoryFields. unfold_schema.
Qed.

(** The only exception a decoder raises is the [RangeError] of a read
    past the buffer: the two borders of the model are never reached. *)
Lemma getUint_Throw (width : Z) (dv : DataView) (byteOffset : Z) (e : error) :
  getUint width dv byteOffset = Throw e -> e = RangeError.
Proof.
  unfold getUint.
  destruct ((0 <=? byteOffset) && (byteOffset + width <=? byteLength dv));
    [discriminate|].
  intros H; injection H as <-. reflexivity.
Qed.

Lemma readChars_Throw (dv : DataView) (count : nat) :
  forall (position : Z) (e : error),
    readChars dv position count = Throw e -> e = RangeError.
Proof.
  induction count as [|k IH]; intros position e; cbn [readChars]; [discriminate|].
  destruct (getUint8 dv position) eqn:E1; cbn [obind].
  - destruct (readChars dv (position + 1) k) eqn:E2; cbn [obind]; [discriminate|].
    intros H; injection H as <-. eapply IH; eassumption.
  - intros H; injection H as <-. eapply getUint_Throw; eassumption.
Qed.

Ltac throw_inv H :=
  repeat
    match type of H with
    | obind ?o _ = Throw _ =>
        let E := fresh "E" in
        destruct o eqn:E; cbn [obind] in H;
        [|injection H as <-;
          first [ eapply getUint_Throw; eassumption
                | eapply readChars_Throw; eassumption ]]
    end;
  discriminate H.

Lemma readLocalFile_Throw (dv : DataView) (offset : Z) (e : error) :
  readLocalFile dv offset = Throw e -> e = RangeError.
Proof. rewrite readLocalFile_eq. intros H. throw_inv H. Qed.

Lemma readCentralDirectory_Throw (dv : DataView) (offset : Z) (e : error) :
  readCentralDirectory dv offset = Throw e -> e = RangeError.
Proof. rewrite readCentralDirectory_eq. intros H. throw_inv H. Qed.

Lemma readDataDescriptor_Throw (dv : DataView) (offset : Z) (e : error) :
  readDataDescriptor dv offset = Throw e -> e = RangeError.
Proof. rewrite readDataDescriptor_eq. intros H. throw_inv H. Qed.

Lemma readEndCentralDirectory_Throw (dv : DataView) (offset : Z) (e : error) :
  readEndCentralDirectory dv offset = Throw e -> e = RangeError.
Proof. rewrite readEndCentralDirectory_eq. intros H. throw_inv H. Qed.

(** A data descriptor is sixteen bytes and decodes wherever they fit. *)
Lemma readDataDescriptor_in_range (dv : DataView) (offset : Z) :
  0 <= offset -> offset + 16 <= byteLength dv ->
  exists entry, readDataDescriptor dv offset = Return entry
                /\ DataDescriptor.totalLength entry = 16.
Proof.
  intros H1 H2. rewrite readDataDescriptor_eq. unfold getUint32.
  destruct (getUint_in_range 4 dv (offset + 0)) as [a ->]; [lia|lia|].
  destruct (getUint_in_range 4 dv (offset + 4)) as [b ->]; [lia|lia|].
  destruct (getUint_in_range 4 dv (offset + 8)) as [c ->]; [lia|lia|].
  destruct (getUint_in_range 4 dv (offset + 12)) as [d ->]; [lia|lia|].
  cbn [obind]. eexists. split; reflexivity.
Qed.

Lemma readDataDescriptor_Return (dv : DataView) (offset : Z)
    (entry : DataDescriptor.t) :
  readDataDescriptor dv offset = Return entry ->
  DataDescriptor.totalLength entry = 16.
Proof.
  rewrite readDataDescriptor_eq. intros H.
  repeat bind_inv H. injection H as <-. reflexivity.
Qed.

(** ** The forward scan *)

(** [scanStep] in direct style: what one turn of the loop does to the
    reader, branch by branch. *)
Lemma scanStep_eq (useCentralDirectory : bool) (this : ZipReader) :
  scanStep useCentralDirectory this =
  match getUint32 (dataView this) (index this) with
  | Throw e => (Throw e, this)
  | Return signature =>
      if signature =? 0x04034b50 then
        match readLocalFile (dataView this) (index this) with
        | Throw e => (Throw e, this)
        | Return entry =>
            let this1 :=
              setIndex (index this + (LocalFile.startsAt entry
                                      + LocalFile.compressedSize entry))
                (setLocalFiles (localFiles this ++ [entry]) this) in
            if LocalFile.needsDataDescriptor entry then
              if useCentralDirectory then
                match entryByFileName (LocalFile.fileName entry) true this1 with
                | Some found =>
                    (Return Continue,
                     setIndex (index this1 + entryCompressedSize found) this1)
                | None => (Throw TypeError, this1)
                end
              else (Return Break, this1)
            else (Return Continue, this1)
        end
      else if signature =? 0x08074b50 then
        match readDataDescriptor (dataView this) (index this) with
        | Throw e => (Throw e, this)
        | Return entry =>
            match lastLocalFile this with
            | Some target =>
                (Return Continue,
                 setIndex (index this + DataDescriptor.totalLength entry)
                   (setLocalFiles
                      (removelast (localFiles this)
                       ++ [LocalFile.enrich target (DataDescriptor.crc entry)
                             (DataDescriptor.compressedSize entry)
                             (DataDescriptor.uncompressedSize entry)])
                      this))
            | None => (Throw TypeError, this)
            end
        end
      else if useCentralDirectory then (Return Break, this)
      else if signature =? 0x02014b50 then
        match readCentralDirectory (dataView this) (index this) with
        | Throw e => (Throw e, this)
        | Return entry =>
            (Return Continue,
             setIndex (index this + CentralDirectory.totalLength entry)
               (setCentralDirectories (centralDirectories this ++ [entry]) this))
        end
      else if signature =? 0x06054b50 then
        match readEndCentralDirectory (dataView this) (index this) with
        | Throw e => (Throw e, this)
        | Return entry =>
            (Return Break,
             setIndex (index this + EndCentralDirectory.totalLength entry)
               (setEndOfCentralDirectory (Some entry) this))
        end
      else (Return Break, this)
  end.
Proof.
  unfold scanStep, bind, get, lift.
  destruct (getUint32 (dataView this) (index this)) as [signature|e];
    [|reflexivity].
  destruct (signature =? 0x04034b50).
  { destruct (readLocalFile (dataView this) (index this)) as [entry|e];
      [|reflexivity].
    cbn -[entryByFileName].
    destruct (LocalFile.needsDataDescriptor entry); [|reflexivity].
    destruct useCentralDirectory; [|reflexivity].
    match goal with
    | |- context [entryByFileName ?n ?b ?s] => destruct (entryByFileName n b s)
    end; reflexivity. }
  destruct (signature =? 0x08074b50).
  { destruct (readDataDescriptor (dataView this) (index this)) as [entry|e];
      [|reflexivity].
    destruct (lastLocalFile this); reflexivity. }
  destruct useCentralDirectory; [reflexivity|].
  destruct (signature =? 0x02014b50).
  { destruct (readCentralDirectory (dataView this) (index this)); reflexivity. }
  destruct (signature =? 0x06054b50); [|reflexivity].
  destruct (readEndCentralDirectory (dataView this) (index this)); reflexivity.
Qed.

Lemma entryByFileName_central (name : string) (this : ZipReader) (found : Entry) :
  entryByFileName name true this = Some found ->
  exists c, found = ECentral c /\ In c (centralDirectories this)
            /\ CentralDirectory.fileName c = name.
Proof.
  unfold entryByFileName. intros H. apply find_some in H as [Hin Hname].
  apply in_map_iff in Hin as [c [<- Hc]].
  exists c. repeat split; [exact Hc|]. apply String.eqb_eq. exact Hname.
Qed.

Lemma scanStep_dataView (useCentralDirectory : bool) (this : ZipReader) :
  dataView (snd (scanStep useCentralDirectory this)) = dataView this.
Proof.
  rewrite scanStep_eq.
  repeat first
    [ progress cbn zeta
    | match goal with
      | |- context [match ?x with _ => _ end] => destruct x
      end ];
    reflexivity.
Qed.

(** A turn that goes on has moved the cursor forward; in central
    directory mode it has left the central directory alone. *)
Lemma scanStep_Continue (useCentralDirectory : bool) (this this' : ZipReader) :
  (useCentralDirectory = true -> DirectoryNonneg this) ->
  scanStep useCentralDirectory this = (Return Continue, this') ->
  index this < index this'
  /\ (useCentralDirectory = true ->
      centralDirectories this' = centralDirectories this).
Proof.
  intros Hinv. rewrite scanStep_eq.
  destruct (getUint32 (dataView this) (index this)) as [signature|e] eqn:Es;
    [|discriminate].
  apply getUint_Return in Es as [Hidx _].
  destruct (signature =? 0x04034b50).
  { destruct (readLocalFile (dataView this) (index this)) as [entry|e] eqn:El;
      [|discriminate].
    apply readLocalFile_Return in El as (Hs & Ht & Hc & _).
    cbn zeta. destruct (LocalFile.needsDataDescriptor entry).
    - destruct useCentralDirectory; [|discriminate].
      match goal with
      | |- context [entryByFileName ?n ?b ?s] =>
          destruct (entryByFileName n b s) as [found|] eqn:Ef
      end; [|discriminate].
      apply entryByFileName_central in Ef as (c & -> & Hin & _).
      cbn in Hin. specialize (Hinv eq_refl).
      unfold DirectoryNonneg in Hinv. rewrite Forall_forall in Hinv.
      specialize (Hinv c Hin).
      intros H; injection H as <-. cbn. split; [lia|reflexivity].
    - intros H; injection H as <-. cbn. split; [lia|reflexivity]. }
  destruct (signature =? 0x08074b50).
  { destruct (readDataDescriptor (dataView this) (index this)) as [entry|e] eqn:Ed;
      [|discriminate].
    apply readDataDescriptor_Return in Ed.
    destruct (lastLocalFile this); [|discriminate].
    intros H; injection H as <-. cbn. split; [lia|reflexivity]. }
  destruct useCentralDirectory; [discriminate|].
  destruct (signature =? 0x02014b50).
  { destruct (readCentralDirectory (dataView this) (index this)) as [entry|e] eqn:Ec;
      [|discriminate].
    apply readCentralDirectory_Return in Ec as [Ht _].
    intros H; injection H as <-. cbn. split; [lia|discriminate]. }
  destruct (signature =? 0x06054b50); [|discriminate].
  destruct (readEndCentralDirectory (dataView this) (index this)); discriminate.
Qed.

(** The bound of [scan] is never reached: any two sufficient bounds give
    the same run. *)
Lemma scanLoop_fuel (useCentralDirectory : bool) (fuel : nat) :
  forall (fuel' : nat) (this : ZipReader),
    (useCentralDirectory = true -> DirectoryNonneg this) ->
    (Z.to_nat (byteLength (dataView this) - index this) <= fuel)%nat ->
    (Z.to_nat (byteLength (dataView this) - index this) <= fuel')%nat ->
    scanLoop fuel useCentralDirectory this
    = scanLoop fuel' useCentralDirectory this.
Proof.
  induction fuel as [|fuel IH]; intros fuel' this Hinv H1 H2.
  - destruct fuel'; cbn [scanLoop];
      destruct (Z.ltb_spec (index this + 4) (byteLength (dataView this)));
      try reflexivity; lia.
  - destruct fuel' as [|fuel']; cbn [scanLoop];
      destruct (Z.ltb_spec (index this + 4) (byteLength (dataView this)));
      try reflexivity; [lia|].
    destruct (scanStep useCentralDirectory this) as [[[|]|e] this'] eqn:Es;
      try reflexivity.
    pose proof (scanStep_dataView useCentralDirectory this) as Hdv.
    rewrite Es in Hdv. cbn [snd] in Hdv.
    apply scanStep_Continue in Es as [Hlt Hcd]; [|exact Hinv].
    apply IH.
    + intros Hu. unfold DirectoryNonneg. rewrite (Hcd Hu). exact (Hinv Hu).
    + rewrite Hdv. lia.
    + rewrite Hdv. lia.
Qed.

(** [scan] as the loop it embeds. *)
Lemma scan_unfold (useCentralDirectory : bool) (this : ZipReader) :
  (useCentralDirectory = true -> DirectoryNonneg this) ->
  scan useCentralDirectory this =
  if index this + 4 <? byteLength (dataView this) then
    match scanStep useCentralDirectory this with
    | (Return Continue, this') => scan useCentralDirectory this'
    | (Return Break, this') => (Return tt, this')
    | (Throw e, this') => (Throw e, this')
    end
  else (Return tt, this).
Proof.
  intros Hinv. unfold scan.
  destruct (Z.ltb_spec (index this + 4) (byteLength (dataView this))) as [Hlt|Hge].
  - destruct (Z.to_nat (byteLength (dataView this) - index this)) as [|fuel] eqn:Ef;
      [lia|].
    cbn [scanLoop]. destruct (Z.ltb_spec (index this + 4) (byteLength (dataView this)));
      [|lia].
    destruct (scanStep useCentralDirectory this) as [[[|]|e] this'] eqn:Es;
      try reflexivity.
    pose proof (scanStep_dataView useCentralDirectory this) as Hdv.
    rewrite Es in Hdv. cbn [snd] in Hdv.
    apply scanStep_Continue in Es as [Hlt' Hcd]; [|exact Hinv].
    apply scanLoop_fuel.
    + intros Hu. unfold DirectoryNonneg. rewrite (Hcd Hu). exact (Hinv Hu).
    + rewrite Hdv. lia.
    + lia.
  - destruct (Z.to_nat (byteLength (dataView this) - index this)); cbn [scanLoop];
      destruct (Z.ltb_spec (index this + 4) (byteLength (dataView this)));
      try reflexivity; lia.
Qed.

Lemma read_false_eq (this : ZipReader) :
  read false this =
  match scan false this with
  | (Return _, this') =>
      match hotSpotSearch heuristicsCentralDirectorySearch this' with
      | (Return _, this'') =>
          bruteForceSearch heuristicsCentralDirectorySearch this''
      | (Throw e, this'') => (Throw e, this'')
      end
  | (Throw e, this') => (Throw e, this')
  end.
Proof.
  unfold read, locateEndOfCentralDirectory, bind, ret.
  destruct (scan false this) as [[[]|e] this']; reflexivity.
Qed.

Lemma read_true_eq (this : ZipReader) :
  read true this = scan true (setLocalFiles [] (setIndex 0 this)).
Proof.
  unfold read, bind, ret, modify.
  destruct (scan true (setLocalFiles [] (setIndex 0 this))) as [[[]|e] this'];
    reflexivity.
Qed.

(** A local file header with bit 3 clear: the entry is appended and the
    cursor, which is added to rather than set, receives [startsAt], an
    absolute offset that already contains the old cursor. *)
Lemma scanStep_localFile (useCentralDirectory : bool) (this : ZipReader)
    (entry : LocalFile.t) :
  getUint32 (dataView this) (index this) = Return 0x04034b50 ->
  readLocalFile (dataView this) (index this) = Return entry ->
  LocalFile.needsDataDescriptor entry = false ->
  exists this',
    scanStep useCentralDirectory this = (Return Continue, this')
    /\ localFiles this' = localFiles this ++ [entry]
    /\ index this' = index this + (index this + LocalFile.totalLength entry)
                     + LocalFile.compressedSize entry.
Proof.
  intros Hs He Hn. rewrite scanStep_eq, Hs, He. cbn -[Z.add]. rewrite Hn.
  eexists. split; [reflexivity|]. cbn -[Z.add].
  apply readLocalFile_Return in He as (-> & _). split; [reflexivity|lia].
Qed.

(** C1, on the code: the second header of [threeStoredEntries] stands at
    cursor 32, is 31 bytes long and declares one byte of data, so the
    cursor should move to 64, where the third header is.  The scanner
    moves it to 96 = 32 + (32 + 31) + 1, and [read] returns with two
    local entries: the third is never decoded. *)
Theorem read_threeStoredEntries_skips_third :
  let this0 := newZipReader threeStoredEntries in
  let this1 := snd (scanStep false this0) in
  let this2 := snd (scanStep false this1) in
  index this1 = 32
  /\ getUint32 (dataView this1) 32 = Return 0x04034b50
  /\ option_map (fun e => (LocalFile.totalLength e, LocalFile.compressedSize e))
       (lastLocalFile this2) = Some (31, 1)
  /\ index this2 = 96
  /\ getUint32 (dataView this1) 64 = Return 0x04034b50
  /\ fst (read false this0) = Return tt
  /\ map LocalFile.fileName (entries (snd (read false this0)))
     = ["a"; "b"]%string.
Proof. vm_compute. repeat split. Qed.

(** ** A data descriptor before any local file header *)

Lemma getUint32_prefix (arrayBuffer : list byte) (b0 b1 b2 b3 : byte) :
  firstn 4 arrayBuffer = [b0; b1; b2; b3] ->
  getUint32 {| buffer := arrayBuffer |} 0
  = Return (littleEndian [b0; b1; b2; b3]).
Proof.
  intros H. unfold getUint32, getUint, byteLength. cbn [buffer].
  assert (4 <= List.length arrayBuffer)%nat as Hlen.
  { destruct arrayBuffer as [|? [|? [|? [|? ?]]]]; try discriminate H.
    cbn. lia. }
  destruct (Z.leb_spec (0 + 4) (Z.of_nat (List.length arrayBuffer))); [|lia].
  change (Z.to_nat 4) with 4%nat. change (Z.to_nat 0) with 0%nat.
  cbn [skipn]. rewrite H. reflexivity.
Qed.

(** C10: on a fresh reader over a buffer of at least sixteen bytes that
    begins with the data descriptor signature [50 4b 07 08], [read]
    decodes the descriptor, finds no last local entry to patch and throws
    [TypeError]; the reader is left as it was created. *)
Theorem read_dataDescriptor_first_throws (arrayBuffer : list byte) :
  firstn 4 arrayBuffer = [x50; x4b; x07; x08] ->
  (16 <= List.length arrayBuffer)%nat ->
  localFiles (newZipReader arrayBuffer) = []
  /\ read false (newZipReader arrayBuffer)
     = (Throw TypeError, newZipReader arrayBuffer).
Proof.
  intros Hsig Hlen. split; [reflexivity|].
  rewrite read_false_eq, scan_unfold by discriminate.
  unfold newZipReader at 1 2. cbn [index dataView]. unfold byteLength at 1.
  cbn [buffer].
  destruct (Z.ltb_spec (0 + 4) (Z.of_nat (List.length arrayBuffer))); [|lia].
  rewrite scanStep_eq. cbn [index dataView newZipReader].
  rewrite (getUint32_prefix _ _ _ _ _ Hsig).
  change (littleEndian [x50; x4b; x07; x08]) with 0x08074b50.
  change (0x08074b50 =? 0x04034b50) with false.
  change (0x08074b50 =? 0x08074b50) with true. cbv iota.
  destruct (readDataDescriptor_in_range {| buffer := arrayBuffer |} 0)
    as (entry & -> & _); [lia|unfold byteLength; cbn [buffer]; lia|].
  reflexivity.
Qed.

Lemma read_dataDescriptor_first_throws_witness :
  read false (newZipReader (Fixture.dataDescriptor 1 2 3))
  = (Throw TypeError, newZipReader (Fixture.dataDescriptor 1 2 3)).
Proof.
  apply (read_dataDescriptor_first_throws (Fixture.dataDescriptor 1 2 3)).
  - reflexivity.
  - vm_compute. lia.
Defined.

(** ** Validating a candidate end of central directory *)

Lemma readCentralDirectoriesUntil_S (fuel : nat) (offset readOffset : Z)
    (this : ZipReader) :
  readCentralDirectoriesUntil (S fuel) offset readOffset this =
  if readOffset <? offset then
    match readCentralDirectory (dataView this) readOffset with
    | Throw e => (Throw e, this)
    | Return centralDirectory =>
        readCentralDirectoriesUntil fuel offset
          (readOffset + CentralDirectory.totalLength centralDirectory)
          (setCentralDirectories
             (centralDirectories this ++ [centralDirectory]) this)
    end
  else (Return tt, this).
Proof.
  cbn [readCentralDirectoriesUntil]. unfold bind, lift.
  destruct (readOffset <? offset); [|reflexivity].
  destruct (readCentralDirectory (dataView this) readOffset); reflexivity.
Qed.

Lemma heuristicsCentralDirectorySearch_eq (offset : Z) (this : ZipReader) :
  heuristicsCentralDirectorySearch offset this =
  match getUint32 (dataView this) offset with
  | Throw e => (Throw e, this)
  | Return signature =>
      if signature =? 0x06054b50 then
        match readEndCentralDirectory (dataView this) offset with
        | Throw e => (Throw e, this)
        | Return record =>
            if EndCentralDirectory.totalLength record
               =? byteLength (dataView this) - offset then
              match getUint32 (dataView this)
                      (EndCentralDirectory.centralDirectoryOffset record) with
              | Throw e => (Throw e, this)
              | Return signature' =>
                  if signature' =? 0x02014b50 then
                    match readCentralDirectoriesUntil
                            (Z.to_nat
                               (offset
                                - EndCentralDirectory.centralDirectoryOffset record))
                            offset
                            (EndCentralDirectory.centralDirectoryOffset record)
                            (setEndOfCentralDirectory (Some record) this) with
                    | (Return _, this') => (Return true, this')
                    | (Throw e, this') => (Throw e, this')
                    end
                  else (Return false, this)
              end
            else (Return false, this)
        end
      else (Return false, this)
  end.
Proof.
  unfold heuristicsCentralDirectorySearch, bind, get, lift, modify, ret.
  destruct (getUint32 (dataView this) offset) as [signature|e]; [|reflexivity].
  destruct (signature =? 0x06054b50); [|reflexivity].
  destruct (readEndCentralDirectory (dataView this) offset) as [record|e];
    [|reflexivity].
  destruct (EndCentralDirectory.totalLength record
            =? byteLength (dataView this) - offset); [|reflexivity].
  destruct (getUint32 (dataView this)
              (EndCentralDirectory.centralDirectoryOffset record))
    as [signature'|e]; [|reflexivity].
  destruct (signature' =? 0x02014b50); reflexivity.
Qed.

Lemma readCentralDirectoriesUntil_chain (offset : Z) (fuel : nat) :
  forall (readOffset : Z) (this this' : ZipReader),
    readCentralDirectoriesUntil fuel offset readOffset this = (Return tt, this') ->
    exists entries,
      DirectoryChain (dataView this) offset readOffset entries
      /\ this' = setCentralDirectories (centralDirectories this ++ entries) this.
Proof.
  induction fuel as [|fuel IH]; intros readOffset this this'.
  - cbn [readCentralDirectoriesUntil].
    destruct (Z.ltb_spec readOffset offset); [discriminate|].
    intros Hr; injection Hr as <-. exists []. split; [constructor; assumption|].
    rewrite app_nil_r. destruct this; reflexivity.
  - rewrite readCentralDirectoriesUntil_S.
    destruct (Z.ltb_spec readOffset offset).
    + destruct (readCentralDirectory (dataView this) readOffset) as [entry|e] eqn:Ec;
        [|discriminate].
      intros Hr. apply IH in Hr as (entries & Hchain & ->).
      exists (entry :: entries). split.
      * econstructor; eassumption.
      * cbn [centralDirectories setCentralDirectories].
        rewrite <- app_assoc. reflexivity.
    + intros Hr; injection Hr as <-. exists []. split; [constructor; assumption|].
      rewrite app_nil_r. destruct this; reflexivity.
Qed.

Lemma chain_readCentralDirectoriesUntil (dv : DataView) (offset readOffset : Z)
    (entries : list CentralDirectory.t) :
  DirectoryChain dv offset readOffset entries ->
  forall (fuel : nat) (this : ZipReader),
    dataView this = dv ->
    (Z.to_nat (offset - readOffset) <= fuel)%nat ->
    readCentralDirectoriesUntil fuel offset readOffset this
    = (Return tt, setCentralDirectories (centralDirectories this ++ entries) this).
Proof.
  induction 1 as [readOffset Hge|readOffset entry rest Hlt Hc Hchain IH];
    intros fuel this Hdv Hfuel.
  - destruct fuel; cbn [readCentralDirectoriesUntil];
      destruct (Z.ltb_spec readOffset offset); try lia;
      rewrite app_nil_r; destruct this; reflexivity.
  - destruct fuel as [|fuel]; [lia|].
    rewrite readCentralDirectoriesUntil_S.
    destruct (Z.ltb_spec readOffset offset); [|lia].
    rewrite Hdv, Hc.
    pose proof (readCentralDirectory_Return _ _ _ Hc) as [Ht _].
    rewrite IH; [|exact Hdv|lia].
    cbn [centralDirectories setCentralDirectories].
    rewrite <- app_assoc. reflexivity.
Qed.

(** A walk that does not return has met a header that runs past the
    buffer; the end record is stored by then. *)
Lemma readCentralDirectoriesUntil_Throw (offset : Z) (fuel : nat) :
  forall (readOffset : Z) (this this' : ZipReader) (e : error),
    (Z.to_nat (offset - readOffset) <= fuel)%nat ->
    readCentralDirectoriesUntil fuel offset readOffset this = (Throw e, this') ->
    e = RangeError
    /\ endOfCentralDirectory this' = endOfCentralDirectory this.
Proof.
  induction fuel as [|fuel IH]; intros readOffset this this' e Hfuel.
  - cbn [readCentralDirectoriesUntil].
    destruct (Z.ltb_spec readOffset offset); [lia|discriminate].
  - rewrite readCentralDirectoriesUntil_S.
    destruct (Z.ltb_spec readOffset offset); [|discriminate].
    destruct (readCentralDirectory (dataView this) readOffset) as [entry|e'] eqn:Ec.
    + pose proof (readCentralDirectory_Return _ _ _ Ec) as [Ht _].
      intros Hr. apply IH in Hr as [-> ->]; [|lia]. split; reflexivity.
    + intros Hr; injection Hr as <- <-.
      split; [|reflexivity]. eapply readCentralDirectory_Throw; eassumption.
Qed.

(** A candidate that is turned down leaves the reader untouched. *)
Lemma heuristicsCentralDirectorySearch_false (offset : Z) (this this' : ZipReader) :
  heuristicsCentralDirectorySearch offset this = (Return false, this') ->
  this' = this.
Proof.
  rewrite heuristicsCentralDirectorySearch_eq.
  repeat match goal with
         | |- context [match ?x with _ => _ end] => destruct x
         end;
    intros H; try discriminate H; injection H as <-; reflexivity.
Qed.

Lemma heuristicsCentralDirectorySearch_Throw (offset : Z) (this this' : ZipReader)
    (e : error) :
  heuristicsCentralDirectorySearch offset this = (Throw e, this') ->
  e = RangeError.
Proof.
  rewrite heuristicsCentralDirectorySearch_eq.
  destruct (getUint32 (dataView this) offset) as [signature|e1] eqn:E1.
  2:{ intros H; injection H as <- _. eapply getUint_Throw; eassumption. }
  destruct (signature =? 0x06054b50); [|discriminate].
  destruct (readEndCentralDirectory (dataView this) offset) as [record|e2] eqn:E2.
  2:{ intros H; injection H as <- _.
      eapply readEndCentralDirectory_Throw; eassumption. }
  destruct (EndCentralDirectory.totalLength record
            =? byteLength (dataView this) - offset); [|discriminate].
  destruct (getUint32 (dataView this)
              (EndCentralDirectory.centralDirectoryOffset record))
    as [signature'|e3] eqn:E3.
  2:{ intros H; injection H as <- _. eapply getUint_Throw; eassumption. }
  destruct (signature' =? 0x02014b50); [|discriminate].
  match goal with
  | |- context [readCentralDirectoriesUntil ?f ?o ?r ?s] =>
      destruct (readCentralDirectoriesUntil f o r s) as [[[]|e4] this4] eqn:E4
  end; [discriminate|].
  intros H; injection H as <- _.
  apply readCentralDirectoriesUntil_Throw in E4 as [-> _]; [reflexivity|lia].
Qed.

(** When the three checks pass the validation cannot answer [false]: it
    returns [true], or a header of the chain runs past the buffer and it
    throws [RangeError] with the end record already stored. *)
Lemma heuristicsCentralDirectorySearch_checked (offset : Z) (this : ZipReader)
    (record : EndCentralDirectory.t) :
  getUint32 (dataView this) offset = Return 0x06054b50 ->
  readEndCentralDirectory (dataView this) offset = Return record ->
  EndCentralDirectory.totalLength record = byteLength (dataView this) - offset ->
  getUint32 (dataView this)
    (EndCentralDirectory.centralDirectoryOffset record) = Return 0x02014b50 ->
  let result := heuristicsCentralDirectorySearch offset this in
  ((exists entries,
       DirectoryChain (dataView this) offset
         (EndCentralDirectory.centralDirectoryOffset record) entries
       /\ fst result = Return true)
   \/ fst result = Throw RangeError)
  /\ endOfCentralDirectory (snd result) = Some record.
Proof.
  intros H1 H2 H3 H4. cbn zeta.
  rewrite heuristicsCentralDirectorySearch_eq, H1, Z.eqb_refl, H2, H3,
    Z.eqb_refl, H4, Z.eqb_refl.
  match goal with
  | |- context [readCentralDirectoriesUntil ?f ?o ?r ?s] =>
      destruct (readCentralDirectoriesUntil f o r s) as [[[]|e4] this4] eqn:E4
  end; cbn [fst snd].
  - apply readCentralDirectoriesUntil_chain in E4 as (entries & Hchain & ->).
    split; [|reflexivity]. left. exists entries. split; [exact Hchain|reflexivity].
  - apply readCentralDirectoriesUntil_Throw in E4 as [-> ->]; [|lia].
    split; [right; reflexivity|reflexivity].
Qed.

(** C3, as the code has it: the validation returns [true] exactly when
    the three checks pass and the chain of central directory headers
    from the declared offset up to the candidate decodes within the
    buffer; the reader then holds the end record and the chain's
    entries, appended in order.  When the three checks pass and the
    chain does not decode within the buffer, the validation throws
    [RangeError], and the end record is stored by then. *)
Theorem heuristicsCentralDirectorySearch_true_iff (offset : Z)
    (this this' : ZipReader) :
  (heuristicsCentralDirectorySearch offset this = (Return true, this')
   <->
   exists (record : EndCentralDirectory.t) (entries : list CentralDirectory.t),
     getUint32 (dataView this) offset = Return 0x06054b50
     /\ readEndCentralDirectory (dataView this) offset = Return record
     /\ EndCentralDirectory.totalLength record = byteLength (dataView this) - offset
     /\ getUint32 (dataView this)
          (EndCentralDirectory.centralDirectoryOffset record) = Return 0x02014b50
     /\ DirectoryChain (dataView this) offset
          (EndCentralDirectory.centralDirectoryOffset record) entries
     /\ this' = setCentralDirectories (centralDirectories this ++ entries)
                  (setEndOfCentralDirectory (Some record) this))
  /\ forall record : EndCentralDirectory.t,
       getUint32 (dataView this) offset = Return 0x06054b50 ->
       readEndCentralDirectory (dataView this) offset = Return record ->
       EndCentralDirectory.totalLength record = byteLength (dataView this) - offset ->
       getUint32 (dataView this)
         (EndCentralDirectory.centralDirectoryOffset record) = Return 0x02014b50 ->
       (forall entries,
           ~ DirectoryChain (dataView this) offset
               (EndCentralDirectory.centralDirectoryOffset record) entries) ->
       fst (heuristicsCentralDirectorySearch offset this) = Throw RangeError
       /\ endOfCentralDirectory (snd (heuristicsCentralDirectorySearch offset this))
          = Some record.
Proof.
  split.
  - rewrite heuristicsCentralDirectorySearch_eq. split.
    + destruct (getUint32 (dataView this) offset) as [signature|e1] eqn:E1;
        [|discriminate].
      destruct (Z.eqb_spec signature 0x06054b50) as [->|]; [|discriminate].
      destruct (readEndCentralDirectory (dataView this) offset)
        as [record|e2] eqn:E2; [|discriminate].
      destruct (Z.eqb_spec (EndCentralDirectory.totalLength record)
                  (byteLength (dataView this) - offset)) as [Hlen|];
        [|discriminate].
      destruct (getUint32 (dataView this)
                  (EndCentralDirectory.centralDirectoryOffset record))
        as [signature'|e3] eqn:E3; [|discriminate].
      destruct (Z.eqb_spec signature' 0x02014b50) as [->|]; [|discriminate].
      match goal with
      | |- context [readCentralDirectoriesUntil ?f ?o ?r ?s] =>
          destruct (readCentralDirectoriesUntil f o r s) as [[[]|e4] this4] eqn:E4
      end; [|discriminate].
      intros H; injection H as <-.
      apply readCentralDirectoriesUntil_chain in E4 as (entries & Hchain & ->).
      exists record, entries. repeat split; assumption.
    + intros (record & entries & -> & -> & Hlen & -> & Hchain & ->).
      rewrite Z.eqb_refl, Hlen, Z.eqb_refl, Z.eqb_refl.
      erewrite chain_readCentralDirectoriesUntil;
        [reflexivity|exact Hchain|reflexivity|lia].
  - intros record H1 H2 H3 H4 Hno.
    destruct (heuristicsCentralDirectorySearch_checked offset this record
                H1 H2 H3 H4) as [[(entries & Hchain & _)|Hthrow] Hstored].
    + exfalso. exact (Hno entries Hchain).
    + split; [exact Hthrow|exact Hstored].
Qed.

(** C3, as stated, fails on [truncatedDirectory]: the forward scan of
    a fresh reader stops at the first four bytes and stores no end
    record, so the locator calls the validation at the end minus 22,
    offset 8.  There the three checks pass, yet decoding the header at 4
    runs past the 30 bytes: the validation throws, and [read] with
    it. *)
Lemma heuristics_truncatedDirectory_throws :
  let this := snd (scan false (newZipReader truncatedDirectory)) in
  scan false (newZipReader truncatedDirectory) = (Return tt, this)
  /\ endOfCentralDirectory this = None
  /\ byteLength (dataView this) - 22 = 8
  /\ (exists record,
        getUint32 (dataView this) 8 = Return 0x06054b50
        /\ readEndCentralDirectory (dataView this) 8 = Return record
        /\ EndCentralDirectory.totalLength record = byteLength (dataView this) - 8
        /\ getUint32 (dataView this)
             (EndCentralDirectory.centralDirectoryOffset record)
           = Return 0x02014b50)
  /\ fst (heuristicsCentralDirectorySearch 8 this) = Throw RangeError
  /\ ~ (exists this',
          heuristicsCentralDirectorySearch 8 this = (Return true, this'))
  /\ fst (read false (newZipReader truncatedDirectory)) = Throw RangeError.
Proof.
  cbn zeta. split; [vm_compute; reflexivity|]. split; [vm_compute; reflexivity|].
  split; [vm_compute; reflexivity|]. split; [|split; [|split]].
  - eexists. split; [vm_compute; reflexivity|].
    split; [vm_compute; reflexivity|].
    split; vm_compute; reflexivity.
  - vm_compute. reflexivity.
  - intros [this' H].
    assert (fst (heuristicsCentralDirectorySearch 8
                   (snd (scan false (newZipReader truncatedDirectory))))
            = Return true) as Hf
        by (rewrite H; reflexivity).
    vm_compute in Hf. discriminate Hf.
  - vm_compute. reflexivity.
Qed.

Lemma heuristicsCentralDirectorySearch_true_iff_witness :
  let this := snd (scan false (newZipReader streamedEntry)) in
  exists (record : EndCentralDirectory.t) (entries : list CentralDirectory.t),
    DirectoryChain (dataView this) 96
      (EndCentralDirectory.centralDirectoryOffset record) entries
    /\ List.length entries = 1%nat.
Proof.
  cbn zeta.
  destruct (proj1 (proj1 (heuristicsCentralDirectorySearch_true_iff 96
                     (snd (scan false (newZipReader streamedEntry)))
                     (snd (heuristicsCentralDirectorySearch 96
                             (snd (scan false (newZipReader streamedEntry))))))))
    as (record & entries & _ & _ & _ & _ & Hchain & Hthis).
  - vm_compute. reflexivity.
  - exists record, entries. split; [exact Hchain|].
    apply (f_equal (fun s => List.length (centralDirectories s))) in Hthis.
    cbn [centralDirectories setCentralDirectories setEndOfCentralDirectory] in Hthis.
    assert (centralDirectories (snd (scan false (newZipReader streamedEntry))) = [])
      as Hnil by (vm_compute; reflexivity).
    rewrite Hnil in Hthis. cbn [app] in Hthis.
    rewrite <- Hthis. vm_compute. reflexivity.
Defined.

(** ** The locator *)

(** The validation never reads [backwardIndex]. *)
Lemma readCentralDirectoriesUntil_setBackwardIndex (b : option Z) (offset : Z)
    (fuel : nat) :
  forall (readOffset : Z) (this : ZipReader),
    readCentralDirectoriesUntil fuel offset readOffset (setBackwardIndex b this)
    = (fst (readCentralDirectoriesUntil fuel offset readOffset this),
       setBackwardIndex b
         (snd (readCentralDirectoriesUntil fuel offset readOffset this))).
Proof.
  induction fuel as [|fuel IH]; intros readOffset this.
  - cbn [readCentralDirectoriesUntil].
    destruct (readOffset <? offset); reflexivity.
  - rewrite !readCentralDirectoriesUntil_S.
    destruct (readOffset <? offset); [|reflexivity].
    cbn [dataView setBackwardIndex].
    destruct (readCentralDirectory (dataView this) readOffset); [|reflexivity].
    rewrite <- IH. reflexivity.
Qed.

Lemma heuristicsCentralDirectorySearch_setBackwardIndex (b : option Z)
    (offset : Z) (this : ZipReader) :
  heuristicsCentralDirectorySearch offset (setBackwardIndex b this)
  = (fst (heuristicsCentralDirectorySearch offset this),
     setBackwardIndex b (snd (heuristicsCentralDirectorySearch offset this))).
Proof.
  rewrite !heuristicsCentralDirectorySearch_eq. cbn [dataView setBackwardIndex].
  destruct (getUint32 (dataView this) offset) as [signature|e]; [|reflexivity].
  destruct (signature =? 0x06054b50); [|reflexivity].
  destruct (readEndCentralDirectory (dataView this) offset) as [record|e];
    [|reflexivity].
  destruct (EndCentralDirectory.totalLength record
            =? byteLength (dataView this) - offset); [|reflexivity].
  destruct (getUint32 (dataView this)
              (EndCentralDirectory.centralDirectoryOffset record))
    as [signature'|e]; [|reflexivity].
  destruct (signature' =? 0x02014b50); [|reflexivity].
  change (setEndOfCentralDirectory (Some record) (setBackwardIndex b this))
    with (setBackwardIndex b (setEndOfCentralDirectory (Some record) this)).
  rewrite readCentralDirectoriesUntil_setBackwardIndex.
  match goal with
  | |- context [readCentralDirectoriesUntil ?f ?o ?r ?s] =>
      destruct (readCentralDirectoriesUntil f o r s) as [[[]|e] this']
  end; reflexivity.
Qed.

(** What a validated candidate leaves behind. *)
Lemma heuristicsCentralDirectorySearch_true (offset : Z) (this this' : ZipReader) :
  heuristicsCentralDirectorySearch offset this = (Return true, this') ->
  endOfCentralDirectory this' <> None
  /\ index this' = index this
  /\ localFiles this' = localFiles this
  /\ dataView this' = dataView this
  /\ backwardIndex this' = backwardIndex this.
Proof.
  rewrite heuristicsCentralDirectorySearch_eq.
  destruct (getUint32 (dataView this) offset) as [signature|e]; [|discriminate].
  destruct (signature =? 0x06054b50); [|discriminate].
  destruct (readEndCentralDirectory (dataView this) offset) as [record|e];
    [|discriminate].
  destruct (EndCentralDirectory.totalLength record
            =? byteLength (dataView this) - offset); [|discriminate].
  destruct (getUint32 (dataView this)
              (EndCentralDirectory.centralDirectoryOffset record))
    as [signature'|e]; [|discriminate].
  destruct (signature' =? 0x02014b50); [|discriminate].
  match goal with
  | |- context [readCentralDirectoriesUntil ?f ?o ?r ?s] =>
      destruct (readCentralDirectoriesUntil f o r s) as [[[]|e] this1] eqn:E
  end; [|discriminate].
  apply readCentralDirectoriesUntil_chain in E as (entries & _ & ->).
  intros H; injection H as <-. cbn. repeat split. discriminate.
Qed.

(** The closure of [read] keeps the contract of the two searches. *)
Lemma heuristicsCentralDirectorySearch_Validation :
  Validation heuristicsCentralDirectorySearch.
Proof.
  split.
  - intros b offset this. apply heuristicsCentralDirectorySearch_setBackwardIndex.
  - intros offset this this' H.
    apply heuristicsCentralDirectorySearch_false in H as ->.
    split; [reflexivity|]. split; reflexivity.
  - intros offset this this' H.
    apply heuristicsCentralDirectorySearch_true in H as (H & _). exact H.
Qed.

Lemma countdown_In (q : Z) (n : nat) :
  forall hi : Z, In q (countdown hi n) <-> hi - Z.of_nat n < q <= hi.
Proof.
  induction n as [|n IH]; intros hi; cbn [countdown In].
  - lia.
  - rewrite IH. lia.
Qed.

Lemma backwardRange_In (q hi lo : Z) :
  In q (backwardRange hi lo) <-> lo < q <= hi.
Proof. unfold backwardRange. rewrite countdown_In. lia. Qed.

Lemma setBackwardIndex_backwardIndex (this : ZipReader) :
  setBackwardIndex (backwardIndex this) this = this.
Proof. destruct this; reflexivity. Qed.

Section LocatorProperties.
Variable validate : Z -> M bool.

Lemma probeInOrder_app (l1 l2 : list Z) :
  forall this : ZipReader,
    probeInOrder validate (l1 ++ l2) this =
    match probeInOrder validate l1 this with
    | (Return None, this') => probeInOrder validate l2 this'
    | other => other
    end.
Proof.
  induction l1 as [|c l1 IH]; intros this; cbn [app probeInOrder]; [reflexivity|].
  destruct (validate c this) as [[[|]|e] this']; try reflexivity.
  apply IH.
Qed.

Lemma probeHotSpots_probeInOrder (hotSpots : list Z) :
  forall this : ZipReader,
    probeHotSpots validate hotSpots this
    = (void (fst (probeInOrder validate hotSpots this)),
       snd (probeInOrder validate hotSpots this)).
Proof.
  induction hotSpots as [|spot rest IH]; intros this;
    cbn [probeHotSpots probeInOrder]; [reflexivity|].
  unfold bind.
  destruct (validate spot this) as [[[|]|e] this']; try reflexivity.
  apply IH.
Qed.

Lemma bruteForceLoop_S (fuel : nat) (this : ZipReader) (backward : Z) :
  backwardIndex this = Some backward ->
  bruteForceLoop validate (S fuel) this =
  if match endOfCentralDirectory this with None => true | Some _ => false end
     && (backward >? 0) && (backward >? index this)
  then
    match validate backward this with
    | (Return true, this') => (Return tt, this')
    | (Return false, this') =>
        bruteForceLoop validate fuel
          (setBackwardIndex
             (match backwardIndex this' with
              | Some backward' => Some (backward' - 1)
              | None => None
              end) this')
    | (Throw e, this') => (Throw e, this')
    end
  else (Return tt, this).
Proof.
  intros Hb. cbn [bruteForceLoop]. rewrite Hb.
  unfold bind, decrementBackwardIndex, modify, ret.
  destruct (match endOfCentralDirectory this with None => true | Some _ => false end
            && (backward >? 0) && (backward >? index this)); [|reflexivity].
  destruct (validate backward this) as [[[|]|e] this']; reflexivity.
Qed.

Lemma bruteForceLoop_stop (fuel : nat) (this : ZipReader) (backward : Z) :
  backwardIndex this = Some backward ->
  match endOfCentralDirectory this with None => true | Some _ => false end
  && (backward >? 0) && (backward >? index this) = false ->
  bruteForceLoop validate fuel this = (Return tt, this).
Proof.
  intros Hb Hc. destruct fuel; cbn [bruteForceLoop]; rewrite Hb, Hc; reflexivity.
Qed.

(** With an end record stored the backward scan probes nothing. *)
Lemma bruteForceSearch_found (this : ZipReader) :
  endOfCentralDirectory this <> None ->
  bruteForceSearch validate this
  = (Return tt, setBackwardIndex (Some (byteLength (dataView this) - 23)) this).
Proof.
  intros He. unfold bruteForceSearch, bind, get, modify.
  apply bruteForceLoop_stop with (backward := byteLength (dataView this) - 23);
    [reflexivity|].
  cbn [endOfCentralDirectory setBackwardIndex].
  destruct (endOfCentralDirectory this); [reflexivity|congruence].
Qed.

Lemma hotSpotSearch_probeInOrder (this : ZipReader) :
  endOfCentralDirectory this = None ->
  let len := byteLength (dataView this) in
  let hotSpots := [len - 22] ++ (if 65536 + 22 <? len then [len - 65536 - 22] else []) in
  hotSpotSearch validate this
  = (void (fst (probeInOrder validate hotSpots this)),
     snd (probeInOrder validate hotSpots this)).
Proof.
  intros He. cbn zeta. unfold hotSpotSearch, bind, get. rewrite He.
  rewrite probeHotSpots_probeInOrder.
  replace (byteLength (dataView this) - 64 * 1024 - 22 >? 0)
    with (65536 + 22 <? byteLength (dataView this)).
  - destruct (65536 + 22 <? byteLength (dataView this)); reflexivity.
  - destruct (Z.ltb_spec (65536 + 22) (byteLength (dataView this)));
      destruct (Z.gtb_spec (byteLength (dataView this) - 64 * 1024 - 22) 0);
      try reflexivity; lia.
Qed.

Hypothesis contract : Validation validate.

Lemma validation_backwardIndex_kept (offset : Z) (this : ZipReader) :
  backwardIndex (snd (validate offset this)) = backwardIndex this.
Proof.
  pose proof (validation_backwardIndex validate contract (backwardIndex this)
                offset this) as H.
  rewrite setBackwardIndex_backwardIndex in H.
  rewrite H. reflexivity.
Qed.

Lemma probeInOrder_archiveState (l : list Z) :
  forall this : ZipReader,
    forget (probeInOrder validate l (archiveState this))
    = forget (probeInOrder validate l this).
Proof.
  induction l as [|c l IH]; intros this; cbn [probeInOrder]; [reflexivity|].
  unfold archiveState at 1.
  rewrite (validation_backwardIndex validate contract).
  destruct (validate c this) as [[[|]|e] this'];
    cbn [fst snd]; try reflexivity.
  apply IH.
Qed.

Lemma probeInOrder_setBackwardIndex (b : option Z) (l : list Z) (this : ZipReader) :
  forget (probeInOrder validate l (setBackwardIndex b this))
  = forget (probeInOrder validate l this).
Proof.
  rewrite <- (probeInOrder_archiveState l (setBackwardIndex b this)),
    <- (probeInOrder_archiveState l this).
  reflexivity.
Qed.

(** Candidates that are all turned down leave buffer, cursor and end
    record as they were. *)
Lemma probeInOrder_None_frame (l : list Z) :
  forall this this' : ZipReader,
    probeInOrder validate l this = (Return None, this') ->
    dataView this' = dataView this
    /\ index this' = index this
    /\ endOfCentralDirectory this' = endOfCentralDirectory this.
Proof.
  induction l as [|c l IH]; intros this this'; cbn [probeInOrder].
  - intros H; injection H as <-. split; [reflexivity|]. split; reflexivity.
  - destruct (validate c this) as [[[|]|e] this1] eqn:E; try discriminate.
    apply (validation_false validate contract) in E as (E1 & E2 & E3).
    intros H. apply IH in H as (H1 & H2 & H3).
    split; [congruence|]. split; congruence.
Qed.

Lemma probeInOrder_Some_stored (l : list Z) :
  forall (this this' : ZipReader) (c : Z),
    probeInOrder validate l this = (Return (Some c), this') ->
    endOfCentralDirectory this' <> None.
Proof.
  induction l as [|c0 l IH]; intros this this' c; cbn [probeInOrder];
    [discriminate|].
  destruct (validate c0 this) as [[[|]|e] this1] eqn:E; try discriminate.
  - intros H; injection H as _ <-.
    exact (validation_true validate contract _ _ _ E).
  - apply IH.
Qed.

(** The backward loop probes the offsets above the cursor from the top,
    and stops at the first that validates. *)
Lemma bruteForceLoop_probeInOrder (n : nat) :
  forall (fuel : nat) (this : ZipReader) (backward : Z),
    backwardIndex this = Some backward ->
    endOfCentralDirectory this = None ->
    n = Z.to_nat (backward - Z.max (index this) 0) ->
    (n <= fuel)%nat ->
    forget (bruteForceLoop validate fuel this)
    = forget (probeInOrder validate (countdown backward n) this).
Proof.
  induction n as [|n IH]; intros fuel this backward Hb He Hn Hfuel.
  - rewrite (bruteForceLoop_stop fuel this backward Hb); [reflexivity|].
    rewrite He. cbn [andb].
    destruct (Z.gtb_spec backward 0); [|reflexivity].
    destruct (Z.gtb_spec backward (index this)); [lia|reflexivity].
  - destruct fuel as [|fuel]; [lia|].
    rewrite (bruteForceLoop_S fuel this backward Hb), He.
    cbn [andb countdown probeInOrder].
    destruct (Z.gtb_spec backward 0); [|lia].
    destruct (Z.gtb_spec backward (index this)); [|lia].
    cbn [andb].
    pose proof (validation_backwardIndex_kept backward this) as Hkept.
    destruct (validate backward this) as [[[|]|e] this'] eqn:E; try reflexivity.
    cbn [snd] in Hkept. rewrite Hkept, Hb.
    apply (validation_false validate contract) in E as (E1 & E2 & E3).
    rewrite (IH fuel (setBackwardIndex (Some (backward - 1)) this') (backward - 1));
      try reflexivity.
    + apply probeInOrder_setBackwardIndex.
    + cbn [endOfCentralDirectory setBackwardIndex]. congruence.
    + cbn [index setBackwardIndex]. rewrite E2. lia.
    + lia.
Qed.

Lemma bruteForceSearch_probeInOrder (this : ZipReader) :
  endOfCentralDirectory this = None ->
  forget (bruteForceSearch validate this)
  = forget (probeInOrder validate
              (backwardRange (byteLength (dataView this) - 23)
                 (Z.max (index this) 0)) this).
Proof.
  intros He. unfold bruteForceSearch, bind, get, modify, backwardRange.
  rewrite (bruteForceLoop_probeInOrder
             (Z.to_nat (byteLength (dataView this) - 23 - Z.max (index this) 0))
             _ _ (byteLength (dataView this) - 23));
    try reflexivity; try assumption; [|lia].
  apply probeInOrder_setBackwardIndex.
Qed.

(** The two phases of the locator against the ordered list of candidates. *)
Lemma locator_probeInOrder (this : ZipReader) :
  match endOfCentralDirectory this with
  | None =>
      forget (locateEndOfCentralDirectory validate this)
      = forget (probeInOrder validate (locatorCandidates this) this)
  | Some _ =>
      locateEndOfCentralDirectory validate this
      = (Return tt,
         setBackwardIndex (Some (byteLength (dataView this) - 23)) this)
  end.
Proof.
  unfold locateEndOfCentralDirectory.
  destruct (endOfCentralDirectory this) as [record|] eqn:He.
  - unfold bind at 1. unfold hotSpotSearch, bind, get, ret. rewrite He.
    apply bruteForceSearch_found. congruence.
  - unfold bind. rewrite (hotSpotSearch_probeInOrder this He). cbn zeta.
    unfold locatorCandidates. cbn zeta. rewrite app_assoc.
    set (hotSpots := [byteLength (dataView this) - 22]
                     ++ (if 65536 + 22 <? byteLength (dataView this)
                         then [byteLength (dataView this) - 65536 - 22] else [])).
    rewrite probeInOrder_app.
    destruct (probeInOrder validate hotSpots this) as [[[c|]|e] this1] eqn:E;
      cbn [void fst snd].
    + apply probeInOrder_Some_stored in E.
      rewrite bruteForceSearch_found by exact E. reflexivity.
    + apply probeInOrder_None_frame in E as (E1 & E2 & E3).
      rewrite bruteForceSearch_probeInOrder by congruence.
      rewrite E1, E2. reflexivity.
    + reflexivity.
Qed.

(** Where the backward position stands when nothing has validated: at
    the cursor, unless it started at or below it. *)
Lemma bruteForceLoop_backwardIndex (n : nat) :
  forall (fuel : nat) (this this2 : ZipReader) (backward : Z),
    backwardIndex this = Some backward ->
    endOfCentralDirectory this = None ->
    n = Z.to_nat (backward - Z.max (index this) 0) ->
    (n <= fuel)%nat ->
    bruteForceLoop validate fuel this = (Return tt, this2) ->
    endOfCentralDirectory this2 = None ->
    backwardIndex this2 = Some (Z.min backward (Z.max (index this) 0)).
Proof.
  induction n as [|n IH]; intros fuel this this2 backward Hb He Hn Hfuel.
  - rewrite (bruteForceLoop_stop fuel this backward Hb).
    + intros Hr _. injection Hr as <-. rewrite Hb. f_equal. lia.
    + rewrite He. cbn [andb].
      destruct (Z.gtb_spec backward 0); [|reflexivity].
      destruct (Z.gtb_spec backward (index this)); [lia|reflexivity].
  - destruct fuel as [|fuel]; [lia|].
    rewrite (bruteForceLoop_S fuel this backward Hb), He. cbn [andb].
    destruct (Z.gtb_spec backward 0); [|lia].
    destruct (Z.gtb_spec backward (index this)); [|lia].
    cbn [andb].
    pose proof (validation_backwardIndex_kept backward this) as Hkept.
    destruct (validate backward this) as [[[|]|e] this'] eqn:E; [| |discriminate].
    + pose proof (validation_true validate contract _ _ _ E) as Hset.
      intros Hr Hnone. injection Hr as <-. contradiction.
    + cbn [snd] in Hkept. rewrite Hkept, Hb.
      apply (validation_false validate contract) in E as (E1 & E2 & E3).
      intros Hr Hnone.
      rewrite (IH fuel (setBackwardIndex (Some (backward - 1)) this') this2
                 (backward - 1)); try reflexivity; try assumption.
      * cbn [index setBackwardIndex]. rewrite E2. f_equal. lia.
      * cbn [endOfCentralDirectory setBackwardIndex]. congruence.
      * cbn [index setBackwardIndex]. rewrite E2. lia.
      * lia.
Qed.

Lemma locator_backwardIndex (this this2 : ZipReader) :
  locateEndOfCentralDirectory validate this = (Return tt, this2) ->
  endOfCentralDirectory this2 = None ->
  backwardIndex this2
  = Some (Z.min (byteLength (dataView this) - 23) (Z.max (index this) 0)).
Proof.
  intros Hrun Hnone.
  destruct (endOfCentralDirectory this) as [record|] eqn:He.
  { pose proof (locator_probeInOrder this) as H. rewrite He, Hrun in H.
    injection H as ->. cbn in Hnone. congruence. }
  unfold locateEndOfCentralDirectory, bind in Hrun.
  rewrite (hotSpotSearch_probeInOrder this He) in Hrun.
  cbn zeta in Hrun.
  match type of Hrun with
  | context [probeInOrder validate ?l this] =>
      destruct (probeInOrder validate l this) as [[[c|]|e] this1] eqn:Ep
  end; cbn [void fst snd] in Hrun; [| |discriminate Hrun].
  - apply probeInOrder_Some_stored in Ep.
    rewrite (bruteForceSearch_found this1 Ep) in Hrun. injection Hrun as <-.
    cbn in Hnone. contradiction.
  - apply probeInOrder_None_frame in Ep as (E1 & E2 & E3).
    unfold bruteForceSearch, bind, get, modify in Hrun.
    rewrite <- E1, <- E2.
    apply (bruteForceLoop_backwardIndex
             (Z.to_nat (byteLength (dataView this1) - 23 - Z.max (index this1) 0))
             (Z.to_nat (byteLength (dataView this1) - 23))
             (setBackwardIndex (Some (byteLength (dataView this1) - 23)) this1)
             this2 (byteLength (dataView this1) - 23));
      [reflexivity|cbn [endOfCentralDirectory setBackwardIndex]; congruence
      |reflexivity|lia|exact Hrun|exact Hnone].
Qed.
End LocatorProperties.

(** For the closure of [read], candidates that are turned down leave
    the reader as it was. *)
Lemma probeInOrder_None (l : list Z) :
  forall this this' : ZipReader,
    probeInOrder heuristicsCentralDirectorySearch l this = (Return None, this') ->
    this' = this.
Proof.
  induction l as [|c l IH]; intros this this'; cbn [probeInOrder].
  - intros H; injection H as <-. reflexivity.
  - destruct (heuristicsCentralDirectorySearch c this) as [[[|]|e] this1] eqn:E;
      try discriminate.
    apply heuristicsCentralDirectorySearch_false in E as ->. apply IH.
Qed.

Lemma probeInOrder_Some (l : list Z) :
  forall (this this' : ZipReader) (c : Z),
    probeInOrder heuristicsCentralDirectorySearch l this
    = (Return (Some c), this') ->
    In c l /\ heuristicsCentralDirectorySearch c this = (Return true, this').
Proof.
  induction l as [|c0 l IH]; intros this this' c; cbn [probeInOrder];
    [discriminate|].
  destruct (heuristicsCentralDirectorySearch c0 this) as [[[|]|e] this1] eqn:E;
    try discriminate.
  - intros H; injection H as <- <-. split; [left; reflexivity|exact E].
  - apply heuristicsCentralDirectorySearch_false in E as ->.
    intros H. apply IH in H as [Hin H]. split; [right; exact Hin|exact H].
Qed.

Lemma read_false_locator (this : ZipReader) :
  read false this =
  match scan false this with
  | (Return _, this') =>
      locateEndOfCentralDirectory heuristicsCentralDirectorySearch this'
  | (Throw e, this') => (Throw e, this')
  end.
Proof.
  unfold read. unfold bind at 1 2. unfold ret.
  destruct (scan false this) as [[[]|e] this']; reflexivity.
Qed.

(** C4: when the forward scan returns, [read] runs the locator on the
    reader the scan left, with its validation closure, which keeps the
    contract [Validation].  For every closure that keeps the contract
    the locator calls it as follows.  With no end record stored it
    probes the candidates of [locatorCandidates] in their order (the end
    minus 22; the end minus 65536 minus 22 if the buffer is larger than
    that; then from the end minus 23 downwards as long as the offset is
    above the cursor and above zero) and stops at the first that
    validates; when nothing has validated the backward position has come
    down to the cursor, which is itself not probed, and not below it.
    With an end record stored it calls nothing and only assigns
    [backwardIndex]. *)
Theorem read_locator_candidates (this this1 : ZipReader) :
  scan false this = (Return tt, this1) ->
  read false this
  = locateEndOfCentralDirectory heuristicsCentralDirectorySearch this1
  /\ Validation heuristicsCentralDirectorySearch
  /\ forall validate : Z -> M bool,
       Validation validate ->
       match endOfCentralDirectory this1 with
       | None =>
           forget (locateEndOfCentralDirectory validate this1)
           = forget (probeInOrder validate (locatorCandidates this1) this1)
           /\ forall this2,
                locateEndOfCentralDirectory validate this1 = (Return tt, this2) ->
                endOfCentralDirectory this2 = None ->
                backwardIndex this2
                = Some (Z.min (byteLength (dataView this1) - 23)
                          (Z.max (index this1) 0))
       | Some _ =>
           locateEndOfCentralDirectory validate this1
           = (Return tt,
              setBackwardIndex (Some (byteLength (dataView this1) - 23)) this1)
       end.
Proof.
  intros H. split; [rewrite read_false_locator, H; reflexivity|].
  split; [exact heuristicsCentralDirectorySearch_Validation|].
  intros validate contract.
  pose proof (locator_probeInOrder validate contract this1) as Hl.
  destruct (endOfCentralDirectory this1) eqn:He; [exact Hl|].
  split; [exact Hl|].
  intros this2 Hrun Hnone.
  exact (locator_backwardIndex validate contract this1 this2 Hrun Hnone).
Qed.

Lemma read_locator_candidates_witness :
  let this := newZipReader streamedEntry in
  let this1 := snd (scan false this) in
  endOfCentralDirectory this1 = None
  /\ locatorCandidates this1 = 96 :: backwardRange 95 31
  /\ forget (read false this)
     = forget (probeInOrder heuristicsCentralDirectorySearch
                 (locatorCandidates this1) this1).
Proof.
  cbn zeta. split; [vm_compute; reflexivity|]. split; [vm_compute; reflexivity|].
  destruct (read_locator_candidates (newZipReader streamedEntry)
              (snd (scan false (newZipReader streamedEntry))))
    as (Hread & Hcontract & W).
  - vm_compute. reflexivity.
  - specialize (W heuristicsCentralDirectorySearch Hcontract).
    assert (endOfCentralDirectory (snd (scan false (newZipReader streamedEntry)))
            = None) as He by (vm_compute; reflexivity).
    rewrite He in W. rewrite Hread. exact (proj1 W).
Defined.

Lemma acceptAtTwo_Validation : Validation acceptAtTwo.
Proof.
  split; unfold acceptAtTwo.
  - intros b offset this. destruct (offset =? 2); reflexivity.
  - intros offset this this'. destruct (offset =? 2); [discriminate|].
    intros H; injection H as <-. split; [reflexivity|]. split; reflexivity.
  - intros offset this this'. destruct (offset =? 2); [|discriminate].
    intros H; injection H as <-. discriminate.
Qed.

(** The closure that accepts offset 2 and nothing else shows the probe
    of the second hot spot: on 65560 bytes the locator returns with the
    end record of the closure stored and the backward position where it
    started, so the offset was accepted before the backward scan. *)
Lemma locateEndOfCentralDirectory_second_hot_spot :
  let this := snd (scan false (newZipReader (repeat x00 (Z.to_nat 65560)))) in
  index this = 0
  /\ firstn 2 (locatorCandidates this) = [65538; 2]
  /\ fst (locateEndOfCentralDirectory acceptAtTwo this) = Return tt
  /\ endOfCentralDirectory (snd (locateEndOfCentralDirectory acceptAtTwo this))
     <> None
  /\ backwardIndex (snd (locateEndOfCentralDirectory acceptAtTwo this))
     = Some 65537.
Proof.
  cbn zeta. split; [vm_compute; reflexivity|]. split; [vm_compute; reflexivity|].
  split; [vm_compute; reflexivity|]. split; [vm_compute; discriminate|].
  vm_compute. reflexivity.
Qed.

(** ** Hot spots against the backward scan *)

(** An end record is twenty-two bytes and its comment. *)
Lemma readEndCentralDirectory_totalLength (dv : DataView) (offset : Z)
    (record : EndCentralDirectory.t) :
  readEndCentralDirectory dv offset = Return record ->
  EndCentralDirectory.totalLength record
  = 22 + EndCentralDirectory.commentLength record
  /\ 0 <= EndCentralDirectory.commentLength record <= 65535.
Proof.
  rewrite readEndCentralDirectory_eq. intros H.
  do 9 bind_step H. apply Return_inj in H. subst record.
  cbv [EndCentralDirectory.totalLength EndCentralDirectory.commentLength].
  unfold getUint16 in E6.
  pose proof (getUint_Return _ _ _ _ E6) as (_ & _ & Hc).
  pose proof (getUint_bound 2 _ _ _ ltac:(lia) E6) as Hc'.
  change (256 ^ 2) with 65536 in Hc'. split; [reflexivity|lia].
Qed.

(** Whatever the validation answers, an end record that it stores is the
    one decoded at the candidate, and reaches the end of the buffer. *)
Lemma heuristicsCentralDirectorySearch_stored (offset : Z) (this : ZipReader) :
  let this' := snd (heuristicsCentralDirectorySearch offset this) in
  endOfCentralDirectory this' = endOfCentralDirectory this
  \/ exists record,
       endOfCentralDirectory this' = Some record
       /\ readEndCentralDirectory (dataView this) offset = Return record
       /\ EndCentralDirectory.totalLength record
          = byteLength (dataView this) - offset.
Proof.
  cbn zeta. rewrite heuristicsCentralDirectorySearch_eq.
  destruct (getUint32 (dataView this) offset) as [signature|e];
    [|left; reflexivity].
  destruct (signature =? 0x06054b50); [|left; reflexivity].
  destruct (readEndCentralDirectory (dataView this) offset) as [record|e] eqn:Er;
    [|left; reflexivity].
  destruct (Z.eqb_spec (EndCentralDirectory.totalLength record)
              (byteLength (dataView this) - offset)) as [Hlen|];
    [|left; reflexivity].
  destruct (getUint32 (dataView this)
              (EndCentralDirectory.centralDirectoryOffset record))
    as [signature'|e]; [|left; reflexivity].
  destruct (signature' =? 0x02014b50); [|left; reflexivity].
  right. exists record.
  match goal with
  | |- context [readCentralDirectoriesUntil ?f ?o ?r ?s] =>
      destruct (readCentralDirectoriesUntil f o r s) as [[[]|e] this1] eqn:E
  end; cbn [snd].
  - apply readCentralDirectoriesUntil_chain in E as (entries & _ & ->).
    split; [reflexivity|]. split; [reflexivity|exact Hlen].
  - apply readCentralDirectoriesUntil_Throw in E as [_ ->]; [|lia].
    split; [reflexivity|]. split; [reflexivity|exact Hlen].
Qed.

Lemma probeInOrder_stored (l : list Z) :
  forall (this : ZipReader) (record : EndCentralDirectory.t),
    endOfCentralDirectory this = None ->
    endOfCentralDirectory
      (snd (probeInOrder heuristicsCentralDirectorySearch l this))
    = Some record ->
    exists offset,
      In offset l
      /\ readEndCentralDirectory (dataView this) offset = Return record
      /\ EndCentralDirectory.totalLength record
         = byteLength (dataView this) - offset.
Proof.
  induction l as [|c l IH]; intros this record Hnone; cbn [probeInOrder].
  - cbn [snd]. congruence.
  - pose proof (heuristicsCentralDirectorySearch_stored c this) as Hs.
    cbn zeta in Hs.
    destruct (heuristicsCentralDirectorySearch c this) as [[[|]|e] this1] eqn:E;
      cbn [snd] in *.
    + intros Hr. destruct Hs as [Hs|(record' & Hs & Hd & Hlen)]; [congruence|].
      exists c. split; [left; reflexivity|]. split; congruence.
    + apply heuristicsCentralDirectorySearch_false in E as ->.
      intros Hr. destruct (IH this record Hnone Hr) as (offset & Hin & Hd & Hlen).
      exists offset. split; [right; exact Hin|]. split; [exact Hd|exact Hlen].
    + intros Hr. destruct Hs as [Hs|(record' & Hs & Hd & Hlen)]; [congruence|].
      exists c. split; [left; reflexivity|]. split; congruence.
Qed.

(** No end record reaches from the second hot spot to the end of the
    buffer: it would be 65558 bytes long. *)
Lemma heuristicsCentralDirectorySearch_jumpPos (this this' : ZipReader) :
  heuristicsCentralDirectorySearch (byteLength (dataView this) - 65536 - 22) this
  <> (Return true, this').
Proof.
  intros H.
  pose proof (heuristicsCentralDirectorySearch_stored
                (byteLength (dataView this) - 65536 - 22) this) as Hs.
  pose proof (heuristicsCentralDirectorySearch_true _ _ _ H) as (Hset & _).
  rewrite H in Hs. cbn [snd] in Hs.
  destruct Hs as [Hs|(record & _ & Hr & Hlen)].
  - rewrite heuristicsCentralDirectorySearch_eq in H.
    destruct (getUint32 (dataView this) (byteLength (dataView this) - 65536 - 22))
      as [signature|e]; [|discriminate H].
    destruct (signature =? 0x06054b50); [|discriminate H].
    destruct (readEndCentralDirectory (dataView this)
                (byteLength (dataView this) - 65536 - 22)) as [record|e] eqn:Er;
      [|discriminate H].
    apply readEndCentralDirectory_totalLength in Er.
    destruct (Z.eqb_spec (EndCentralDirectory.totalLength record)
                (byteLength (dataView this)
                 - (byteLength (dataView this) - 65536 - 22))); [lia|discriminate H].
  - apply readEndCentralDirectory_totalLength in Hr. lia.
Qed.

(** C5, as the code has it: an end record that the hot spots find is the
    one validated at the end minus 22, and is twenty-two bytes long,
    without comment; the second hot spot never validates.  The backward
    scan alone, on the same reader, starts one byte lower: an end record
    that it stores, returning or throwing, is at least twenty-three
    bytes long, with a comment, and so never the one of the hot
    spots. *)
Theorem hotSpotSearch_out_of_bruteForceSearch (this this1 : ZipReader)
    (record : EndCentralDirectory.t) :
  endOfCentralDirectory this = None ->
  hotSpotSearch heuristicsCentralDirectorySearch this = (Return tt, this1) ->
  endOfCentralDirectory this1 = Some record ->
  heuristicsCentralDirectorySearch (byteLength (dataView this) - 22) this
  = (Return true, this1)
  /\ EndCentralDirectory.totalLength record = 22
  /\ EndCentralDirectory.commentLength record = 0
  /\ (forall this',
         heuristicsCentralDirectorySearch
           (byteLength (dataView this) - 65536 - 22) this
         <> (Return true, this'))
  /\ forall record',
       endOfCentralDirectory
         (snd (bruteForceSearch heuristicsCentralDirectorySearch this))
       = Some record' ->
       23 <= EndCentralDirectory.totalLength record'
       /\ 1 <= EndCentralDirectory.commentLength record'
       /\ record' <> record.
Proof.
  intros Hnone Hrun Hsome.
  assert (heuristicsCentralDirectorySearch (byteLength (dataView this) - 22) this
          = (Return true, this1)) as Hfirst.
  { rewrite (hotSpotSearch_probeInOrder _ this Hnone) in Hrun. cbn zeta in Hrun.
    cbn [app probeInOrder] in Hrun.
    destruct (heuristicsCentralDirectorySearch
                (byteLength (dataView this) - 22) this)
      as [[[|]|e] thisA] eqn:E1; cbn [fst snd void] in Hrun.
    - injection Hrun as <-. reflexivity.
    - apply heuristicsCentralDirectorySearch_false in E1 as ->.
      destruct (65536 + 22 <? byteLength (dataView this)).
      + cbn [probeInOrder] in Hrun.
        destruct (heuristicsCentralDirectorySearch
                    (byteLength (dataView this) - 65536 - 22) this)
          as [[[|]|e] thisB] eqn:E2; cbn [fst snd void] in Hrun.
        * exfalso. exact (heuristicsCentralDirectorySearch_jumpPos _ _ E2).
        * apply heuristicsCentralDirectorySearch_false in E2 as ->.
          injection Hrun as <-. congruence.
        * discriminate Hrun.
      + cbn [probeInOrder fst snd void] in Hrun. injection Hrun as <-. congruence.
    - discriminate Hrun. }
  assert (EndCentralDirectory.totalLength record = 22
          /\ EndCentralDirectory.commentLength record = 0) as [Hlen Hcomment].
  { pose proof (heuristicsCentralDirectorySearch_stored
                  (byteLength (dataView this) - 22) this) as Hs.
    rewrite Hfirst in Hs. cbn [snd] in Hs.
    destruct Hs as [Hs|(record0 & Hs & Hd & Hl)]; [congruence|].
    assert (record0 = record) as -> by congruence.
    apply readEndCentralDirectory_totalLength in Hd. lia. }
  split; [exact Hfirst|]. split; [exact Hlen|]. split; [exact Hcomment|].
  split; [intros this'; apply heuristicsCentralDirectorySearch_jumpPos|].
  intros record' Hr.
  pose proof (bruteForceSearch_probeInOrder _
                heuristicsCentralDirectorySearch_Validation this Hnone) as Hb.
  apply (f_equal (fun r => endOfCentralDirectory (snd r))) in Hb.
  unfold forget in Hb. cbn [snd archiveState endOfCentralDirectory
                            setBackwardIndex] in Hb.
  rewrite Hb in Hr.
  apply probeInOrder_stored in Hr as (offset & Hin & Hd & Hl); [|exact Hnone].
  apply backwardRange_In in Hin.
  apply readEndCentralDirectory_totalLength in Hd.
  assert (23 <= EndCentralDirectory.totalLength record') as H23 by lia.
  split; [exact H23|]. split; [lia|]. intros ->. lia.
Qed.

Lemma hotSpotSearch_out_of_bruteForceSearch_witness :
  let this := snd (scan false (newZipReader streamedEntry)) in
  exists record,
    endOfCentralDirectory (snd (hotSpotSearch heuristicsCentralDirectorySearch this))
    = Some record
    /\ EndCentralDirectory.totalLength record = 22
    /\ endOfCentralDirectory
         (snd (bruteForceSearch heuristicsCentralDirectorySearch this))
       <> Some record.
Proof.
  cbn zeta.
  set (this := snd (scan false (newZipReader streamedEntry))).
  destruct (endOfCentralDirectory
              (snd (hotSpotSearch heuristicsCentralDirectorySearch this)))
    as [record|] eqn:E; [|vm_compute in E; discriminate E].
  exists record. split; [reflexivity|].
  destruct (hotSpotSearch_out_of_bruteForceSearch this
              (snd (hotSpotSearch heuristicsCentralDirectorySearch this)) record)
    as (_ & Hlen & _ & _ & Hother).
  - vm_compute. reflexivity.
  - vm_compute. reflexivity.
  - exact E.
  - split; [exact Hlen|]. intros Hb. destruct (Hother record Hb) as (_ & _ & Hne).
    apply Hne. reflexivity.
Defined.

(** C5, as stated, fails on [streamedEntry]: the first hot spot, the end
    minus 22, validates and yields the end record and one central
    directory entry; the backward scan on the same reader starts one
    byte lower, validates nothing and stores neither. *)
Lemma bruteForceSearch_misses_first_hot_spot :
  let this := snd (scan false (newZipReader streamedEntry)) in
  endOfCentralDirectory this = None
  /\ fst (hotSpotSearch heuristicsCentralDirectorySearch this) = Return tt
  /\ option_map EndCentralDirectory.centralDirectoryOffset
       (endOfCentralDirectory
          (snd (hotSpotSearch heuristicsCentralDirectorySearch this))) = Some 49
  /\ map CentralDirectory.fileName
       (centralDirectories
          (snd (hotSpotSearch heuristicsCentralDirectorySearch this)))
     = ["a"%string]
  /\ fst (bruteForceSearch heuristicsCentralDirectorySearch this) = Return tt
  /\ endOfCentralDirectory
       (snd (bruteForceSearch heuristicsCentralDirectorySearch this)) = None
  /\ centralDirectories
       (snd (bruteForceSearch heuristicsCentralDirectorySearch this)) = [].
Proof. vm_compute. repeat split. Qed.

(** ** extract *)

Lemma newBlob_single (data : list byte) :
  newBlob [data] EmptyString
  = {| blobBytes := data; blobType := EmptyString |}.
Proof.
  unfold newBlob. cbn [List.concat normalizeType everyChar mapChars].
  rewrite app_nil_r. reflexivity.
Qed.

Lemma extract_eq (inflateRaw : list byte -> outcome (list (list byte)))
    (entry : Entry) (type : string) (this : ZipReader) :
  extract inflateRaw entry type this =
  match localFileOf this entry with
  | Throw e => (Throw e, this)
  | Return local =>
      let data := slice (buffer (dataView this)) (LocalFile.startsAt local)
                    (LocalFile.startsAt local + sliceSize local entry) in
      if LocalFile.compressionMethod local =? 0x00 then
        (Return {| blobBytes := data; blobType := EmptyString |}, this)
      else if LocalFile.compressionMethod local =? 0x08 then
        match inflateRaw data with
        | Return chunks => (Return (newBlob chunks type), this)
        | Throw e => (Throw e, this)
        end
      else (Throw UnsupportedCompressionMethod, this)
  end.
Proof.
  unfold extract, bind, get, lift, ret, throw, localFileOf, sliceSize.
  destruct entry as [e|c].
  - rewrite newBlob_single.
    destruct (LocalFile.compressionMethod e =? 0); [reflexivity|].
    destruct (LocalFile.compressionMethod e =? 8); [|reflexivity].
    match goal with |- context [inflateRaw ?d] => destruct (inflateRaw d) end;
      reflexivity.
  - destruct (readLocalFile (dataView this) (CentralDirectory.offset c)) as [e|err];
      [|reflexivity].
    rewrite newBlob_single.
    destruct (LocalFile.compressionMethod e =? 0); [reflexivity|].
    destruct (LocalFile.compressionMethod e =? 8); [|reflexivity].
    match goal with |- context [inflateRaw ?d] => destruct (inflateRaw d) end;
      reflexivity.
Qed.

Lemma clampIndex_range (len rel : Z) :
  0 <= len -> 0 <= clampIndex len rel <= len.
Proof.
  intros H. unfold clampIndex. destruct (Z.ltb_spec rel 0); lia.
Qed.

(** The length of a slice: the distance of the two clamped ends. *)
Lemma slice_clamped (buf : list byte) (begin_ end_ : Z) :
  let len := Z.of_nat (List.length buf) in
  Z.of_nat (List.length (slice buf begin_ end_))
  = Z.max (clampIndex len end_ - clampIndex len begin_) 0.
Proof.
  cbn zeta. unfold slice.
  pose proof (clampIndex_range (Z.of_nat (List.length buf)) begin_ ltac:(lia)).
  pose proof (clampIndex_range (Z.of_nat (List.length buf)) end_ ltac:(lia)).
  rewrite length_firstn, length_skipn. lia.
Qed.

Lemma slice_length (buf : list byte) (begin_ end_ : Z) :
  0 <= begin_ <= end_ -> end_ <= Z.of_nat (List.length buf) ->
  Z.of_nat (List.length (slice buf begin_ end_)) = end_ - begin_.
Proof.
  intros H1 H2. rewrite slice_clamped. unfold clampIndex.
  destruct (Z.ltb_spec begin_ 0); [lia|].
  destruct (Z.ltb_spec end_ 0); lia.
Qed.

(** C7, as the code has it: with method 0 [extract] returns, with the
    reader unchanged, the slice that starts at [startsAt] and is as long
    as the compressed size it uses (the local header's, or when that is
    zero the one of the entry it was given), both ends clamped to the
    buffer.  When that range lies in the buffer the output has exactly
    that many bytes; [uncompressedSize] is not read, and the output has
    that length only when it equals the compressed size used. *)
Theorem extract_stored (inflateRaw : list byte -> outcome (list (list byte)))
    (this : ZipReader) (entry : Entry) (type : string) (local : LocalFile.t) :
  localFileOf this entry = Return local ->
  LocalFile.compressionMethod local = 0x00 ->
  let len := byteLength (dataView this) in
  let begin_ := LocalFile.startsAt local in
  let end_ := LocalFile.startsAt local + sliceSize local entry in
  exists blob,
    extract inflateRaw entry type this = (Return blob, this)
    /\ blobBytes blob = slice (buffer (dataView this)) begin_ end_
    /\ Z.of_nat (List.length (blobBytes blob))
       = Z.max (clampIndex len end_ - clampIndex len begin_) 0
    /\ (0 <= begin_ -> 0 <= sliceSize local entry -> end_ <= len ->
        Z.of_nat (List.length (blobBytes blob)) = sliceSize local entry
        /\ (Z.of_nat (List.length (blobBytes blob))
            = LocalFile.uncompressedSize local
            <-> LocalFile.uncompressedSize local = sliceSize local entry)).
Proof.
  intros Hl Hm. cbn zeta. rewrite extract_eq, Hl. cbn zeta. rewrite Hm.
  change (0 =? 0) with true. cbv iota.
  eexists. split; [reflexivity|]. cbn [blobBytes]. split; [reflexivity|].
  split; [apply slice_clamped|].
  intros H0 H1 H2.
  rewrite slice_length; [|lia|exact H2].
  split; [lia|]. split; intros H; lia.
Qed.

Lemma extract_stored_witness :
  let this := snd (read false (newZipReader threeStoredEntries)) in
  exists local blob,
    nth_error (entries this) 1 = Some local
    /\ extract (fun _ => Throw DecompressionFailed) (ELocal local) EmptyString this
       = (Return blob, this)
    /\ blobBytes blob = Fixture.chars "y".
Proof.
  cbn zeta.
  destruct (nth_error (entries (snd (read false (newZipReader threeStoredEntries)))) 1)
    as [local|] eqn:E; [|vm_compute in E; discriminate E].
  destruct (extract_stored (fun _ => Throw DecompressionFailed)
              (snd (read false (newZipReader threeStoredEntries)))
              (ELocal local) EmptyString local) as (blob & H1 & H2 & _).
  - reflexivity.
  - vm_compute in E. injection E as <-. reflexivity.
  - exists local, blob. split; [reflexivity|]. split; [exact H1|].
    rewrite H2. vm_compute in E. injection E as <-. vm_compute. reflexivity.
Defined.

(** C7, as stated, fails on [mismatchedSizes]: the entry is stored, its
    header declares compressed size 1 and uncompressed size 5, and
    [extract] returns one byte. *)
Lemma extract_stored_ignores_uncompressedSize :
  let this := snd (read false (newZipReader mismatchedSizes)) in
  exists local,
    entries this = [local]
    /\ LocalFile.compressionMethod local = 0
    /\ LocalFile.compressedSize local = 1
    /\ LocalFile.uncompressedSize local = 5
    /\ forall inflateRaw,
         option_map (fun blob => List.length (blobBytes blob))
           match fst (extract inflateRaw (ELocal local) EmptyString this) with
           | Return blob => Some blob
           | Throw _ => None
           end = Some 1%nat.
Proof.
  cbn zeta. eexists. split; [vm_compute; reflexivity|].
  split; [reflexivity|]. split; [reflexivity|]. split; [reflexivity|].
  intros inflateRaw. vm_compute. reflexivity.
Qed.

(** C8, as the code has it: when the local file entry that [extract]
    works on (the entry itself, or the header decoded at the offset of a
    central directory entry) has a method other than 0 and 8, [extract]
    throws the unsupported-method error, returns nothing and leaves the
    reader as it was; the method of a central directory entry itself is
    not read.  When there is no such local file entry, because the
    header at the offset of a central directory entry runs past the
    buffer, [extract] throws [RangeError] and leaves the reader as it
    was. *)
Theorem extract_unsupported (inflateRaw : list byte -> outcome (list (list byte)))
    (this : ZipReader) (entry : Entry) (type : string) :
  (forall local,
      localFileOf this entry = Return local ->
      LocalFile.compressionMethod local <> 0x00 ->
      LocalFile.compressionMethod local <> 0x08 ->
      extract inflateRaw entry type this
      = (Throw UnsupportedCompressionMethod, this))
  /\ (forall e,
         localFileOf this entry = Throw e ->
         (exists centralDirectory, entry = ECentral centralDirectory)
         /\ extract inflateRaw entry type this = (Throw RangeError, this)).
Proof.
  split.
  - intros local Hl H0 H8. rewrite extract_eq, Hl. cbn zeta.
    destruct (Z.eqb_spec (LocalFile.compressionMethod local) 0); [contradiction|].
    destruct (Z.eqb_spec (LocalFile.compressionMethod local) 8); [contradiction|].
    reflexivity.
  - intros e Hl. rewrite extract_eq, Hl.
    destruct entry as [local|centralDirectory]; [discriminate Hl|].
    cbn [localFileOf] in Hl. apply readLocalFile_Throw in Hl as ->.
    split; [exists centralDirectory; reflexivity|reflexivity].
Qed.

Lemma extract_unsupported_witness :
  let this := snd (read false (newZipReader unknownMethod)) in
  exists centralDirectory,
    centralDirectories this = [centralDirectory]
    /\ extract (fun _ => Throw DecompressionFailed) (ECentral centralDirectory)
         EmptyString this
       = (Throw UnsupportedCompressionMethod, this).
Proof.
  cbn zeta.
  destruct (centralDirectories (snd (read false (newZipReader unknownMethod))))
    as [|centralDirectory [|other rest]] eqn:Ec;
    try (vm_compute in Ec; discriminate Ec).
  exists centralDirectory. split; [reflexivity|].
  destruct (localFileOf (snd (read false (newZipReader unknownMethod)))
              (ECentral centralDirectory)) as [local|e] eqn:El.
  - apply (proj1 (extract_unsupported _ _ _ _) local El);
      vm_compute in Ec; injection Ec as <-;
      vm_compute in El; injection El as <-; discriminate.
  - vm_compute in Ec. injection Ec as <-. vm_compute in El. discriminate El.
Defined.

(** C8, as stated, fails on [mislabelledMethod]: the central directory
    entry carries method 12, the local header at its offset method 0,
    and [extract] of the central directory entry returns the byte. *)
Lemma extract_central_returns_bytes :
  let this := snd (read false (newZipReader mislabelledMethod)) in
  exists centralDirectory,
    centralDirectories this = [centralDirectory]
    /\ CentralDirectory.compressionMethod centralDirectory = 12
    /\ forall inflateRaw,
         fst (extract inflateRaw (ECentral centralDirectory) EmptyString this)
         = Return {| blobBytes := Fixture.chars "x"; blobType := EmptyString |}.
Proof.
  cbn zeta. eexists. split; [vm_compute; reflexivity|].
  split; [reflexivity|]. intros inflateRaw. vm_compute. reflexivity.
Qed.

(** ** Data descriptors *)

Lemma lastLocalFile_Some (this : ZipReader) (target : LocalFile.t) :
  lastLocalFile this = Some target ->
  localFiles this = removelast (localFiles this) ++ [target].
Proof.
  unfold lastLocalFile. intros H.
  destruct (localFiles this) as [|e l] eqn:El using rev_ind; [discriminate H|].
  rewrite rev_app_distr in H. cbn in H. injection H as <-.
  rewrite removelast_last. reflexivity.
Qed.

Lemma lastLocalFile_last (this : ZipReader) (init : list LocalFile.t)
    (target : LocalFile.t) :
  localFiles this = init ++ [target] ->
  lastLocalFile this = Some target /\ removelast (localFiles this) = init.
Proof.
  intros H. unfold lastLocalFile. rewrite H, rev_app_distr, removelast_last.
  split; reflexivity.
Qed.

Lemma Patched_refl (l : list LocalFile.t) : Patched l l.
Proof. left. exists []. rewrite app_nil_r. reflexivity. Qed.

Lemma Patched_trans (a b c : list LocalFile.t) :
  Patched a b -> Patched b c -> Patched a c.
Proof.
  intros [[x ->]|(i & t & k1 & k2 & k3 & x & -> & ->)]
         [[y ->]|(j & u & m1 & m2 & m3 & y & Hb & ->)].
  - left. exists (x ++ y). rewrite app_assoc. reflexivity.
  - destruct x as [|z x' _] using rev_ind.
    + rewrite app_nil_r in Hb. right. exists j, u, m1, m2, m3, y.
      split; [exact Hb|reflexivity].
    + rewrite app_assoc in Hb. apply app_inj_tail in Hb as [<- <-].
      left. exists (x' ++ LocalFile.enrich z m1 m2 m3 :: y).
      rewrite app_assoc. reflexivity.
  - right. exists i, t, k1, k2, k3, (x ++ y). split; [reflexivity|].
    rewrite <- app_assoc. reflexivity.
  - right. destruct x as [|z x' _] using rev_ind.
    + apply app_inj_tail in Hb as [<- <-].
      exists i, t, m1, m2, m3, y. split; reflexivity.
    + change (i ++ LocalFile.enrich t k1 k2 k3 :: x' ++ [z])
        with (i ++ (LocalFile.enrich t k1 k2 k3 :: x') ++ [z]) in Hb.
      rewrite app_assoc in Hb. apply app_inj_tail in Hb as [<- <-].
      exists i, t, k1, k2, k3, (x' ++ LocalFile.enrich z m1 m2 m3 :: y).
      split; [reflexivity|]. rewrite <- app_assoc. reflexivity.
Qed.

(** The data descriptor branch: the entry appended last receives crc
    and sizes, the cursor moves on by sixteen. *)
Lemma scanStep_dataDescriptor (useCentralDirectory : bool) (this : ZipReader)
    (init : list LocalFile.t) (target : LocalFile.t)
    (descriptor : DataDescriptor.t) :
  localFiles this = init ++ [target] ->
  getUint32 (dataView this) (index this) = Return 0x08074b50 ->
  readDataDescriptor (dataView this) (index this) = Return descriptor ->
  scanStep useCentralDirectory this
  = (Return Continue,
     setIndex (index this + 16)
       (setLocalFiles
          (init ++ [LocalFile.enrich target (DataDescriptor.crc descriptor)
                      (DataDescriptor.compressedSize descriptor)
                      (DataDescriptor.uncompressedSize descriptor)])
          this)).
Proof.
  intros Hl Hs Hd. rewrite scanStep_eq, Hs.
  change (0x08074b50 =? 0x04034b50) with false.
  change (0x08074b50 =? 0x08074b50) with true. cbv iota.
  rewrite Hd. destruct (lastLocalFile_last this init target Hl) as [-> ->].
  rewrite (readDataDescriptor_Return _ _ _ Hd). reflexivity.
Qed.

(** What one turn does to the local entries: nothing, or it appends one,
    or at a data descriptor it patches the last. *)
Lemma scanStep_localFiles (useCentralDirectory : bool) (this : ZipReader) :
  let result := scanStep useCentralDirectory this in
  (localFiles (snd result) = localFiles this
   /\ (useCentralDirectory = true -> fst result <> Return Continue))
  \/ (exists entry, localFiles (snd result) = localFiles this ++ [entry])
  \/ (exists init target descriptor,
        getUint32 (dataView this) (index this) = Return 0x08074b50
        /\ localFiles this = init ++ [target]
        /\ localFiles (snd result)
           = init ++ [LocalFile.enrich target (DataDescriptor.crc descriptor)
                        (DataDescriptor.compressedSize descriptor)
                        (DataDescriptor.uncompressedSize descriptor)]).
Proof.
  cbn zeta. rewrite scanStep_eq.
  destruct (getUint32 (dataView this) (index this)) as [signature|e] eqn:Es;
    [|left; split; [reflexivity|discriminate]].
  destruct (Z.eqb_spec signature 0x04034b50) as [->|Hne].
  { destruct (readLocalFile (dataView this) (index this)) as [entry|e];
      [|left; split; [reflexivity|discriminate]].
    right; left. exists entry. cbn zeta.
    destruct (LocalFile.needsDataDescriptor entry); [|reflexivity].
    destruct useCentralDirectory; [|reflexivity].
    match goal with
    | |- context [entryByFileName ?n ?b ?s] => destruct (entryByFileName n b s)
    end; reflexivity. }
  destruct (Z.eqb_spec signature 0x08074b50) as [->|Hne'].
  { destruct (readDataDescriptor (dataView this) (index this))
      as [descriptor|e]; [|left; split; [reflexivity|discriminate]].
    destruct (lastLocalFile this) as [target|] eqn:Et;
      [|left; split; [reflexivity|discriminate]].
    right; right. exists (removelast (localFiles this)), target, descriptor.
    split; [reflexivity|]. split; [|reflexivity].
    exact (lastLocalFile_Some this target Et). }
  destruct useCentralDirectory; [left; split; [reflexivity|discriminate]|].
  left. split; [|discriminate].
  destruct (signature =? 0x02014b50).
  { destruct (readCentralDirectory (dataView this) (index this)); reflexivity. }
  destruct (signature =? 0x06054b50); [|reflexivity].
  destruct (readEndCentralDirectory (dataView this) (index this)); reflexivity.
Qed.

Lemma scanStep_Patched (useCentralDirectory : bool) (this : ZipReader) :
  Patched (localFiles this)
    (localFiles (snd (scanStep useCentralDirectory this))).
Proof.
  destruct (scanStep_localFiles useCentralDirectory this)
    as [[-> _]|[[entry ->]|(init & target & descriptor & _ & Hl & ->)]].
  - apply Patched_refl.
  - left. exists [entry]. reflexivity.
  - right. exists init, target, (DataDescriptor.crc descriptor),
      (DataDescriptor.compressedSize descriptor),
      (DataDescriptor.uncompressedSize descriptor), [].
    split; [exact Hl|reflexivity].
Qed.

Lemma scanLoop_Patched (useCentralDirectory : bool) (fuel : nat) :
  forall this : ZipReader,
    Patched (localFiles this)
      (localFiles (snd (scanLoop fuel useCentralDirectory this))).
Proof.
  induction fuel as [|fuel IH]; intros this; cbn [scanLoop];
    destruct (index this + 4 <? byteLength (dataView this));
    try apply Patched_refl.
  pose proof (scanStep_Patched useCentralDirectory this) as Hs.
  destruct (scanStep useCentralDirectory this) as [[[|]|e] this']; cbn [snd] in *;
    try exact Hs.
  eapply Patched_trans; [exact Hs|apply IH].
Qed.

(** In central directory mode the first local entry stays as it is once
    a second one is behind it, or when the scan does not go on with a
    data descriptor. *)
Lemma scanLoop_first (first : LocalFile.t) (fuel : nat) :
  forall (this : ZipReader) (rest : list LocalFile.t),
    localFiles this = first :: rest ->
    (rest = [] ->
     index this + 4 < byteLength (dataView this) ->
     getUint32 (dataView this) (index this) <> Return 0x08074b50) ->
    exists rest',
      localFiles (snd (scanLoop fuel true this)) = first :: rest'.
Proof.
  induction fuel as [|fuel IH]; intros this rest Hl Hnext; cbn [scanLoop];
    destruct (Z.ltb_spec (index this + 4) (byteLength (dataView this)))
      as [Hin|Hout]; try (exists rest; exact Hl).
  pose proof (scanStep_localFiles true this) as Hs. cbn zeta in Hs.
  destruct (scanStep true this) as [result this'] eqn:Estep. cbn [fst snd] in Hs.
  destruct Hs
    as [[Hsame Hstop]
       |[[entry Hpush]
        |(init & target & descriptor & Hsig & Hi & Hpatch)]].
  - destruct result as [[|]|err]; [exfalso; apply (Hstop eq_refl); reflexivity| |];
      cbn [snd]; exists rest; congruence.
  - assert (localFiles this' = first :: (rest ++ [entry])) as Hl'
        by (rewrite Hpush, Hl; reflexivity).
    destruct result as [[|]|err]; cbn [snd]; try (eexists; exact Hl').
    apply (IH this' (rest ++ [entry]) Hl').
    intros Hnil. destruct rest; discriminate Hnil.
  - destruct rest as [|second rest].
    { exfalso. exact (Hnext eq_refl Hin Hsig). }
    destruct init as [|first' init'].
    { rewrite Hl in Hi. discriminate Hi. }
    rewrite Hl in Hi. injection Hi as <- Hi.
    set (patched := init' ++ [LocalFile.enrich target (DataDescriptor.crc descriptor)
                                (DataDescriptor.compressedSize descriptor)
                                (DataDescriptor.uncompressedSize descriptor)]).
    assert (localFiles this' = first :: patched) as Hl' by exact Hpatch.
    destruct result as [[|]|err]; cbn [snd]; try (eexists; exact Hl').
    apply (IH this' patched Hl').
    intros Hnil. unfold patched in Hnil. destruct init'; discriminate Hnil.
Qed.




(** ** Reading twice *)

Lemma scan_Stalled (this : ZipReader) :
  Stalled this -> scan false this = (Return tt, this).
Proof.
  intros Hs. rewrite scan_unfold by discriminate.
  destruct (Z.ltb_spec (index this + 4) (byteLength (dataView this))) as [Hin|Hout];
    [|reflexivity].
  destruct Hs as [Hs|(signature & Hs & H1 & H2 & H3 & H4)]; [lia|].
  rewrite scanStep_eq, Hs.
  destruct (Z.eqb_spec signature 0x04034b50); [contradiction|].
  destruct (Z.eqb_spec signature 0x08074b50); [contradiction|].
  destruct (Z.eqb_spec signature 0x02014b50); [contradiction|].
  destruct (Z.eqb_spec signature 0x06054b50); [contradiction|].
  reflexivity.
Qed.

Lemma locatorCandidates_archiveState (this this' : ZipReader) :
  archiveState this = archiveState this' ->
  locatorCandidates this = locatorCandidates this'.
Proof.
  intros H. unfold locatorCandidates.
  pose proof (f_equal dataView H) as Hd. pose proof (f_equal index H) as Hi.
  cbn in Hd, Hi. rewrite Hd, Hi. reflexivity.
Qed.

(** A locator that returns without an end record has validated nothing
    and would do the same again. *)
Lemma locator_again (this this1 : ZipReader) :
  locateEndOfCentralDirectory heuristicsCentralDirectorySearch this = (Return tt, this1) ->
  endOfCentralDirectory this1 = None ->
  archiveState this1 = archiveState this
  /\ forget (locateEndOfCentralDirectory heuristicsCentralDirectorySearch this1)
     = (Return tt, archiveState this1).
Proof.
  intros Hrun Hnone.
  pose proof (locator_probeInOrder _
                heuristicsCentralDirectorySearch_Validation this)
    as Hfirst.
  destruct (endOfCentralDirectory this) as [record|] eqn:He.
  { rewrite Hrun in Hfirst. injection Hfirst as ->.
    cbn in Hnone. congruence. }
  rewrite Hrun in Hfirst. unfold forget at 1 in Hfirst. cbn [fst snd void] in Hfirst.
  destruct (probeInOrder heuristicsCentralDirectorySearch
              (locatorCandidates this) this)
    as [[[c|]|e] this'] eqn:Ep;
    unfold forget in Hfirst; cbn [fst snd void] in Hfirst; try discriminate Hfirst.
  - apply probeInOrder_Some in Ep as [_ Ep].
    apply heuristicsCentralDirectorySearch_true in Ep as (Ep & _).
    pose proof (f_equal snd Hfirst) as Hs. cbn [snd] in Hs.
    apply (f_equal endOfCentralDirectory) in Hs. cbn in Hs. congruence.
  - apply probeInOrder_None in Ep as Heq. subst this'.
    pose proof (f_equal snd Hfirst) as Hs. cbn [snd] in Hs.
    split; [exact Hs|].
    pose proof (locator_probeInOrder _
                  heuristicsCentralDirectorySearch_Validation this1)
      as Hsecond. rewrite Hnone in Hsecond.
    rewrite Hsecond, (locatorCandidates_archiveState this1 this Hs).
    rewrite <- (probeInOrder_archiveState _ heuristicsCentralDirectorySearch_Validation), Hs,
      (probeInOrder_archiveState _ heuristicsCentralDirectorySearch_Validation), Ep.
    reflexivity.
Qed.

(** C9, as the code has it: a second [read] resumes at the cursor the
    first one left.  When the first call returned and left the cursor at
    the end of the buffer or at a signature that is none of the four,
    the second call returns as well and leaves cursor, local entries,
    central directory entries and end record as they were. *)
Theorem read_twice_stalled (this this1 : ZipReader) :
  read false this = (Return tt, this1) ->
  Stalled this1 ->
  exists this2,
    read false this1 = (Return tt, this2)
    /\ archiveState this2 = archiveState this1.
Proof.
  intros Hfirst Hstalled.
  rewrite read_false_locator, (scan_Stalled this1 Hstalled).
  destruct (endOfCentralDirectory this1) as [record|] eqn:He.
  - pose proof (locator_probeInOrder _
                  heuristicsCentralDirectorySearch_Validation this1)
      as H. rewrite He in H.
    rewrite H. eexists. split; reflexivity.
  - rewrite read_false_locator in Hfirst.
    destruct (scan false this) as [[[]|e] thisA] eqn:Es; [|discriminate Hfirst].
    destruct (locator_again thisA this1 Hfirst He) as [_ H].
    destruct (locateEndOfCentralDirectory heuristicsCentralDirectorySearch this1)
      as [[[]|e] this2]; unfold forget in H; cbn [fst snd void] in H;
      [|discriminate H].
    exists this2. split; [reflexivity|].
    exact (f_equal snd H).
Qed.

Lemma read_twice_stalled_witness :
  let this1 := snd (read false (newZipReader streamedEntry)) in
  exists this2,
    read false this1 = (Return tt, this2)
    /\ archiveState this2 = archiveState this1.
Proof.
  cbn zeta.
  apply (read_twice_stalled (newZipReader streamedEntry)).
  - vm_compute. reflexivity.
  - right. exists 0x4b507978.
    split; [vm_compute; reflexivity|]. repeat split; discriminate.
Defined.

(** C9, as stated, fails on [twoStreamedEmpty]: the first [read] stops
    behind the first header with one local entry; the second returns as
    well, having patched that entry from the descriptor at the cursor
    and appended the next one. *)
Lemma read_twice_appends :
  let this1 := snd (read false (newZipReader twoStreamedEmpty)) in
  let this2 := snd (read false this1) in
  fst (read false (newZipReader twoStreamedEmpty)) = Return tt
  /\ fst (read false this1) = Return tt
  /\ map (fun e => (LocalFile.fileName e, LocalFile.enrichedByDataDescriptor e))
       (entries this1) = [("a"%string, false)]
  /\ map (fun e => (LocalFile.fileName e, LocalFile.enrichedByDataDescriptor e))
       (entries this2) = [("a"%string, true); ("b"%string, false)]
  /\ index this1 = 31 /\ index this2 = 125.
Proof. vm_compute. repeat split. Qed.

(** ** The plain scan against the central directory scan *)

Lemma scan_DirectoryOnly (dv : DataView) (position : Z) :
  DirectoryOnly dv position ->
  forall this : ZipReader,
    dataView this = dv -> index this = position ->
    localFiles (snd (scan false this)) = localFiles this.
Proof.
  induction 1 as [position Hstop|position Hin Hsig Hnext IH];
    intros this Hdv Hidx; rewrite scan_unfold by discriminate;
    rewrite Hdv, Hidx.
  - destruct (Z.ltb_spec (position + 4) (byteLength dv)) as [Hlt|]; [|reflexivity].
    rewrite scanStep_eq, Hdv, Hidx.
    destruct (getUint32 dv position) as [signature|e] eqn:Es; [|reflexivity].
    destruct (Hstop Hlt signature eq_refl) as (H1 & H2 & H3).
    destruct (Z.eqb_spec signature 0x04034b50); [contradiction|].
    destruct (Z.eqb_spec signature 0x08074b50); [contradiction|].
    destruct (Z.eqb_spec signature 0x02014b50); [contradiction|].
    destruct (signature =? 0x06054b50); [|reflexivity].
    destruct (readEndCentralDirectory dv position); reflexivity.
  - destruct (Z.ltb_spec (position + 4) (byteLength dv)); [|lia].
    rewrite scanStep_eq, Hdv, Hidx, Hsig.
    change (0x02014b50 =? 0x04034b50) with false.
    change (0x02014b50 =? 0x08074b50) with false.
    change (0x02014b50 =? 0x02014b50) with true. cbv iota.
    destruct (readCentralDirectory dv position) as [entry|e] eqn:Ec; [|reflexivity].
    rewrite (IH entry eq_refl); [reflexivity|exact Hdv|].
    reflexivity.
Qed.

(** An entry with bit 3 set stays in the list: the descriptor patch
    keeps the flag. *)
Lemma scanStep_flag (useCentralDirectory : bool) (this : ZipReader) :
  Exists (fun e => LocalFile.needsDataDescriptor e = true) (localFiles this) ->
  Exists (fun e => LocalFile.needsDataDescriptor e = true)
    (localFiles (snd (scanStep useCentralDirectory this))).
Proof.
  intros H. rewrite scanStep_eq.
  destruct (getUint32 (dataView this) (index this)) as [signature|e]; [|exact H].
  destruct (signature =? 0x04034b50).
  { destruct (readLocalFile (dataView this) (index this)) as [entry|e]; [|exact H].
    cbn zeta.
    assert (Exists (fun e => LocalFile.needsDataDescriptor e = true)
              (localFiles this ++ [entry])) as H'
        by (apply Exists_app; left; exact H).
    destruct (LocalFile.needsDataDescriptor entry); [|exact H'].
    destruct useCentralDirectory; [|exact H'].
    match goal with
    | |- context [entryByFileName ?n ?b ?s] => destruct (entryByFileName n b s)
    end; exact H'. }
  destruct (signature =? 0x08074b50).
  { destruct (readDataDescriptor (dataView this) (index this)) as [entry|e];
      [|exact H].
    destruct (lastLocalFile this) as [target|] eqn:Et; [|exact H].
    cbn [snd localFiles setIndex setLocalFiles].
    rewrite (lastLocalFile_Some this target Et) in H.
    apply Exists_app in H. apply Exists_app.
    destruct H as [H|H]; [left; exact H|right].
    inversion H as [? ? Hflag|? ? Hnil]; [|inversion Hnil].
    constructor. exact Hflag. }
  destruct useCentralDirectory; [exact H|].
  destruct (signature =? 0x02014b50).
  { destruct (readCentralDirectory (dataView this) (index this)); exact H. }
  destruct (signature =? 0x06054b50); [|exact H].
  destruct (readEndCentralDirectory (dataView this) (index this)); exact H.
Qed.

Lemma scanLoop_flag (useCentralDirectory : bool) (fuel : nat) :
  forall this : ZipReader,
    Exists (fun e => LocalFile.needsDataDescriptor e = true) (localFiles this) ->
    Exists (fun e => LocalFile.needsDataDescriptor e = true)
      (localFiles (snd (scanLoop fuel useCentralDirectory this))).
Proof.
  induction fuel as [|fuel IH]; intros this H; cbn [scanLoop];
    destruct (index this + 4 <? byteLength (dataView this)); try exact H.
  pose proof (scanStep_flag useCentralDirectory this H) as Hs.
  destruct (scanStep useCentralDirectory this) as [[[|]|e] this']; cbn [snd] in *;
    try exact Hs.
  apply IH. exact Hs.
Qed.

Lemma flag_contradiction (l : list LocalFile.t) :
  Forall sizeUpfront l ->
  Exists (fun e => LocalFile.needsDataDescriptor e = true) l -> False.
Proof.
  intros Hall Hex. apply Exists_exists in Hex as (e & Hin & Hflag).
  rewrite Forall_forall in Hall. specialize (Hall e Hin).
  unfold sizeUpfront in Hall. congruence.
Qed.

Lemma scan_true_flag (this : ZipReader) :
  Exists (fun e => LocalFile.needsDataDescriptor e = true) (localFiles this) ->
  Forall sizeUpfront (localFiles (snd (scan true this))) -> False.
Proof.
  intros Hex Hall. eapply flag_contradiction; [exact Hall|].
  unfold scan. apply scanLoop_flag. exact Hex.
Qed.

Lemma lastLocalFile_ext (this this' : ZipReader) :
  localFiles this' = localFiles this -> lastLocalFile this' = lastLocalFile this.
Proof. unfold lastLocalFile. intros ->. reflexivity. Qed.

(** Up to the first signature that is neither a local file header nor a
    data descriptor the two scans take the same turns; there the central
    directory scan stops and the plain scan goes on. *)
Lemma scan_simulation (n : nat) :
  forall central plain : ZipReader,
    (Z.to_nat (byteLength (dataView central) - index central) < n)%nat ->
    dataView plain = dataView central ->
    index plain = index central ->
    localFiles plain = localFiles central ->
    DirectoryNonneg central ->
    Forall sizeUpfront (localFiles (snd (scan true central))) ->
    DirectoryOnly (dataView central) (index (snd (scan true central))) ->
    localFiles (snd (scan false plain)) = localFiles (snd (scan true central)).
Proof.
  induction n as [|n IH]; intros central plain Hn Hdv Hidx Hloc Hinv; [lia|].
  rewrite (scan_unfold true central) by (intros _; exact Hinv).
  destruct (Z.ltb_spec (index central + 4) (byteLength (dataView central)))
    as [Hin|Hout].
  2:{ intros _ _. rewrite scan_unfold by discriminate. rewrite Hdv, Hidx.
      destruct (Z.ltb_spec (index central + 4) (byteLength (dataView central)));
        [lia|exact Hloc]. }
  pose proof (scanStep_dataView true central) as Hdv1.
  pose proof (scanStep_Continue true central) as Hstep.
  rewrite scanStep_eq in Hdv1, Hstep |- *.
  destruct (getUint32 (dataView central) (index central)) as [signature|e] eqn:Es.
  2:{ intros _ _. rewrite scan_unfold by discriminate. rewrite Hdv, Hidx.
      destruct (Z.ltb_spec (index central + 4) (byteLength (dataView central)));
        [|lia].
      rewrite scanStep_eq, Hdv, Hidx, Es. exact Hloc. }
  destruct (signature =? 0x04034b50) eqn:E1.
  { (* a local file header *)
    destruct (readLocalFile (dataView central) (index central)) as [entry|e] eqn:El.
    2:{ intros _ _. rewrite scan_unfold by discriminate. rewrite Hdv, Hidx.
        destruct (Z.ltb_spec (index central + 4) (byteLength (dataView central)));
          [|lia].
        rewrite scanStep_eq, Hdv, Hidx, Es, E1, El. exact Hloc. }
    cbn zeta in Hdv1, Hstep |- *.
    destruct (LocalFile.needsDataDescriptor entry) eqn:Ef.
    - (* bit 3 set: the entry stays in the list of the central scan *)
      intros Hall _. exfalso.
      match type of Hall with
      | Forall _ (localFiles (snd ?r)) =>
          assert (Exists (fun e => LocalFile.needsDataDescriptor e = true)
                    (localFiles (snd r))) as Hex
      end.
      { match goal with
        | |- context [entryByFileName ?a ?b ?s] =>
            destruct (entryByFileName a b s) as [found|]
        end; cbn [snd].
        - unfold scan. apply scanLoop_flag.
          cbn [localFiles setIndex setLocalFiles].
          apply Exists_app. right. constructor. exact Ef.
        - cbn [localFiles setIndex setLocalFiles].
          apply Exists_app. right. constructor. exact Ef. }
      exact (flag_contradiction _ Hall Hex).
    - (* bit 3 clear: both go on from related readers *)
      destruct (Hstep _ (fun _ => Hinv) eq_refl) as [Hlt _].
      cbn [snd] in Hdv1.
      intros Hall Hdir.
      rewrite (scan_unfold false plain) by discriminate. rewrite Hdv, Hidx.
      destruct (Z.ltb_spec (index central + 4) (byteLength (dataView central)));
        [|lia].
      rewrite scanStep_eq, Hdv, Hidx, Es, E1, El. cbn zeta. rewrite Ef, Hloc.
      apply IH; try reflexivity; try assumption.
      rewrite Hdv1. lia. }
  destruct (signature =? 0x08074b50) eqn:E2.
  { (* a data descriptor *)
    destruct (readDataDescriptor (dataView central) (index central))
      as [descriptor|e] eqn:Ed.
    2:{ intros _ _. rewrite scan_unfold by discriminate. rewrite Hdv, Hidx.
        destruct (Z.ltb_spec (index central + 4) (byteLength (dataView central)));
          [|lia].
        rewrite scanStep_eq, Hdv, Hidx, Es, E1, E2, Ed. exact Hloc. }
    destruct (lastLocalFile central) as [target|] eqn:Et.
    - destruct (Hstep _ (fun _ => Hinv) eq_refl) as [Hlt _].
      cbn [snd] in Hdv1.
      intros Hall Hdir.
      rewrite (scan_unfold false plain) by discriminate. rewrite Hdv, Hidx.
      destruct (Z.ltb_spec (index central + 4) (byteLength (dataView central)));
        [|lia].
      rewrite scanStep_eq, Hdv, Hidx, Es, E1, E2, Ed,
        (lastLocalFile_ext central plain Hloc), Et, Hloc.
      apply IH; try reflexivity; try assumption.
      rewrite Hdv1. lia.
    - intros _ _. rewrite scan_unfold by discriminate. rewrite Hdv, Hidx.
      destruct (Z.ltb_spec (index central + 4) (byteLength (dataView central)));
        [|lia].
      rewrite scanStep_eq, Hdv, Hidx, Es, E1, E2, Ed,
        (lastLocalFile_ext central plain Hloc), Et.
      exact Hloc. }
  (* any other signature: the central scan stops here *)
  cbn [snd]. intros _ Hdir.
  rewrite (scan_DirectoryOnly _ _ Hdir plain Hdv Hidx). exact Hloc.
Qed.

Lemma DirectoryNonneg_forallb (this : ZipReader) :
  forallb (fun c => 0 <=? CentralDirectory.compressedSize c)
    (centralDirectories this) = true ->
  DirectoryNonneg this.
Proof.
  intros H. unfold DirectoryNonneg. apply Forall_forall. intros c Hc.
  rewrite forallb_forall in H. specialize (H c Hc). lia.
Qed.

(** C2, as the code has it: when every entry that the central directory
    scan recovers has bit 3 clear, and from the place where that scan
    stops the buffer holds central directory headers only, the plain
    scan of a fresh reader recovers the same list of local entries, field
    by field.  (The central directory scan stops at the first signature
    that is neither a local file header nor a data descriptor; the plain
    scan goes on through the central directory.) *)
Theorem scan_plain_eq_central (arrayBuffer : list byte) (this : ZipReader) :
  dataView this = {| buffer := arrayBuffer |} ->
  DirectoryNonneg this ->
  Forall sizeUpfront (localFiles (snd (read true this))) ->
  DirectoryOnly (dataView this) (index (snd (read true this))) ->
  localFiles (snd (scan false (newZipReader arrayBuffer)))
  = localFiles (snd (read true this)).
Proof.
  intros Hdv Hinv. rewrite read_true_eq. intros Hall Hdir.
  apply (scan_simulation
           (S (Z.to_nat (byteLength (dataView this) - 0)))
           (setLocalFiles [] (setIndex 0 this)) (newZipReader arrayBuffer)).
  - cbn [dataView index setLocalFiles setIndex]. lia.
  - cbn [dataView setLocalFiles setIndex newZipReader]. symmetry. exact Hdv.
  - reflexivity.
  - reflexivity.
  - exact Hinv.
  - exact Hall.
  - exact Hdir.
Qed.

Ltac directory_step :=
  apply directory_entry;
  [ vm_compute; reflexivity
  | vm_compute; reflexivity
  | let entry := fresh "entry" in
    let H := fresh "H" in
    intros entry H; vm_compute in H; injection H as <-;
    cbn [CentralDirectory.totalLength Z.add Pos.add Pos.succ Pos.add_carry] ].

Lemma scan_plain_eq_central_witness :
  let this := snd (read false (newZipReader threeStoredEntries)) in
  localFiles (snd (scan false (newZipReader threeStoredEntries)))
  = localFiles (snd (read true this)).
Proof.
  cbn zeta. apply scan_plain_eq_central.
  - vm_compute. reflexivity.
  - apply DirectoryNonneg_forallb. vm_compute. reflexivity.
  - assert (forallb (fun e => negb (LocalFile.needsDataDescriptor e))
              (localFiles
                 (snd (read true (snd (read false (newZipReader threeStoredEntries))))))
            = true) as H by (vm_compute; reflexivity).
    apply Forall_forall. intros e He. rewrite forallb_forall in H.
    specialize (H e He). unfold sizeUpfront.
    destruct (LocalFile.needsDataDescriptor e); [discriminate H|reflexivity].
  - replace (index (snd (read true (snd (read false (newZipReader threeStoredEntries))))))
      with 96 by (vm_compute; reflexivity).
    replace (dataView (snd (read false (newZipReader threeStoredEntries))))
      with {| buffer := threeStoredEntries |} by (vm_compute; reflexivity).
    directory_step. directory_step. directory_step.
    apply directory_stop. intros _ signature Hs.
    vm_compute in Hs. injection Hs as <-. repeat split; discriminate.
Defined.

(** C2, as stated, fails on [headerAfterDirectory]: every local file
    header has bit 3 clear; the plain scan decodes the central directory
    header and goes on to the header behind it, the central directory
    scan stops at the central directory header. *)
Lemma scan_plain_differs_from_central :
  let this1 := snd (read false (newZipReader headerAfterDirectory)) in
  let this2 := snd (read true this1) in
  fst (read false (newZipReader headerAfterDirectory)) = Return tt
  /\ fst (read true this1) = Return tt
  /\ map CentralDirectory.fileName (centralDirectories this1) = ["a"%string]
  /\ map (fun e => (LocalFile.fileName e, LocalFile.needsDataDescriptor e))
       (localFiles (snd (scan false (newZipReader headerAfterDirectory))))
     = [("a"%string, false); ("b"%string, false)]
  /\ map (fun e => (LocalFile.fileName e, LocalFile.needsDataDescriptor e))
       (localFiles this2)
     = [("a"%string, false)].
Proof. vm_compute. repeat split. Qed.

(** ** What read can throw

    The loops never exhaust their bounds and the schemas never leave the
    model: a [read] that does not return has thrown the [RangeError] of
    a read past the buffer or the [TypeError] of a missing entry. *)

Lemma scanStep_Throw (useCentralDirectory : bool) (this this' : ZipReader)
    (e : error) :
  scanStep useCentralDirectory this = (Throw e, this') ->
  e = RangeError \/ e = TypeError.
Proof.
  rewrite scanStep_eq.
  destruct (getUint32 (dataView this) (index this)) as [signature|e1] eqn:E1.
  2:{ intros H; injection H as <- _. left. eapply getUint_Throw; eassumption. }
  destruct (signature =? 0x04034b50).
  { destruct (readLocalFile (dataView this) (index this)) as [entry|e2] eqn:E2.
    2:{ intros H; injection H as <- _. left.
        eapply readLocalFile_Throw; eassumption. }
    cbn zeta. destruct (LocalFile.needsDataDescriptor entry); [|discriminate].
    destruct useCentralDirectory; [|discriminate].
    match goal with
    | |- context [entryByFileName ?n ?b ?s] => destruct (entryByFileName n b s)
    end; [discriminate|].
    intros H; injection H as <- _. right. reflexivity. }
  destruct (signature =? 0x08074b50).
  { destruct (readDataDescriptor (dataView this) (index this)) as [entry|e2] eqn:E2.
    2:{ intros H; injection H as <- _. left.
        eapply readDataDescriptor_Throw; eassumption. }
    destruct (lastLocalFile this); [discriminate|].
    intros H; injection H as <- _. right. reflexivity. }
  destruct useCentralDirectory; [discriminate|].
  destruct (signature =? 0x02014b50).
  { destruct (readCentralDirectory (dataView this) (index this)) as [entry|e2] eqn:E2;
      [discriminate|].
    intros H; injection H as <- _. left.
    eapply readCentralDirectory_Throw; eassumption. }
  destruct (signature =? 0x06054b50); [|discriminate].
  destruct (readEndCentralDirectory (dataView this) (index this)) as [entry|e2] eqn:E2;
    [discriminate|].
  intros H; injection H as <- _. left.
  eapply readEndCentralDirectory_Throw; eassumption.
Qed.

Lemma scan_Throw (useCentralDirectory : bool) (n : nat) :
  forall (this this' : ZipReader) (e : error),
    (Z.to_nat (byteLength (dataView this) - index this) < n)%nat ->
    (useCentralDirectory = true -> DirectoryNonneg this) ->
    scan useCentralDirectory this = (Throw e, this') ->
    e = RangeError \/ e = TypeError.
Proof.
  induction n as [|n IH]; intros this this' e Hn Hinv; [lia|].
  rewrite scan_unfold by exact Hinv.
  destruct (Z.ltb_spec (index this + 4) (byteLength (dataView this))) as [Hin|];
    [|discriminate].
  destruct (scanStep useCentralDirectory this) as [[[|]|e1] this1] eqn:Es;
    [|discriminate|].
  - pose proof (scanStep_dataView useCentralDirectory this) as Hdv.
    rewrite Es in Hdv. cbn [snd] in Hdv.
    apply scanStep_Continue in Es as [Hlt Hcd]; [|exact Hinv].
    apply IH.
    + rewrite Hdv. lia.
    + intros Hu. unfold DirectoryNonneg. rewrite (Hcd Hu). exact (Hinv Hu).
  - intros H; injection H as <- _. eapply scanStep_Throw; eassumption.
Qed.

Lemma probeInOrder_Throw (l : list Z) :
  forall (this this' : ZipReader) (e : error),
    probeInOrder heuristicsCentralDirectorySearch l this = (Throw e, this') -> e = RangeError.
Proof.
  induction l as [|c l IH]; intros this this' e; cbn [probeInOrder];
    [discriminate|].
  destruct (heuristicsCentralDirectorySearch c this) as [[[|]|e1] this1] eqn:E;
    [discriminate| |].
  - apply IH.
  - intros H; injection H as <- _.
    eapply heuristicsCentralDirectorySearch_Throw; eassumption.
Qed.

Lemma locator_Throw (this this' : ZipReader) (e : error) :
  locateEndOfCentralDirectory heuristicsCentralDirectorySearch this = (Throw e, this') ->
  e = RangeError.
Proof.
  intros H.
  pose proof (locator_probeInOrder _
                heuristicsCentralDirectorySearch_Validation this)
    as Hl.
  destruct (endOfCentralDirectory this).
  - rewrite H in Hl. discriminate Hl.
  - rewrite H in Hl. unfold forget in Hl. cbn [fst snd void] in Hl.
    destruct (probeInOrder heuristicsCentralDirectorySearch
                (locatorCandidates this) this)
      as [[x|e1] this1] eqn:Ep;
      cbn [fst snd void] in Hl; [discriminate Hl|].
    injection Hl as -> _. eapply probeInOrder_Throw; eassumption.
Qed.

Lemma read_Throw (useCentralDirectory : bool) (this this' : ZipReader)
    (e : error) :
  DirectoryNonneg this ->
  read useCentralDirectory this = (Throw e, this') ->
  e = RangeError \/ e = TypeError.
Proof.
  intros Hinv. destruct useCentralDirectory.
  - rewrite read_true_eq.
    apply (scan_Throw true
             (S (Z.to_nat (byteLength (dataView this) - 0)))).
    + cbn [dataView index setLocalFiles setIndex]. lia.
    + intros _. exact Hinv.
  - rewrite read_false_locator.
    destruct (scan false this) as [[[]|e1] this1] eqn:Es.
    + intros H. left. eapply locator_Throw; eassumption.
    + intros H; injection H as <- _.
      apply (scan_Throw false
               (S (Z.to_nat (byteLength (dataView this) - index this)))
               this this1 e1); [lia|discriminate|exact Es].
Qed.

(** ** The invariant of the central directory list

    Every reader that [read] has worked on since [newZipReader] satisfies
    [DirectoryNonneg]: the entries of the list are decoded from the
    buffer. *)

Lemma newZipReader_DirectoryNonneg (arrayBuffer : list byte) :
  DirectoryNonneg (newZipReader arrayBuffer).
Proof. constructor. Qed.

Lemma pushed_DirectoryNonneg (this : ZipReader) (offset : Z)
    (entry : CentralDirectory.t) :
  DirectoryNonneg this ->
  readCentralDirectory (dataView this) offset = Return entry ->
  Forall (fun c => 0 <= CentralDirectory.compressedSize c)
    (centralDirectories this ++ [entry]).
Proof.
  intros Hinv Hc. apply Forall_app. split; [exact Hinv|].
  repeat constructor. eapply readCentralDirectory_Return. exact Hc.
Qed.

Lemma scanStep_DirectoryNonneg (useCentralDirectory : bool) (this : ZipReader) :
  DirectoryNonneg this ->
  DirectoryNonneg (snd (scanStep useCentralDirectory this)).
Proof.
  intros H. rewrite scanStep_eq.
  destruct (getUint32 (dataView this) (index this)) as [signature|e]; [|exact H].
  destruct (signature =? 0x04034b50).
  { destruct (readLocalFile (dataView this) (index this)) as [entry|e]; [|exact H].
    cbn zeta. destruct (LocalFile.needsDataDescriptor entry); [|exact H].
    destruct useCentralDirectory; [|exact H].
    match goal with
    | |- context [entryByFileName ?n ?b ?s] => destruct (entryByFileName n b s)
    end; exact H. }
  destruct (signature =? 0x08074b50).
  { destruct (readDataDescriptor (dataView this) (index this)); [|exact H].
    destruct (lastLocalFile this); exact H. }
  destruct useCentralDirectory; [exact H|].
  destruct (signature =? 0x02014b50).
  { destruct (readCentralDirectory (dataView this) (index this)) as [entry|e] eqn:Ec;
      [|exact H].
    exact (pushed_DirectoryNonneg this _ entry H Ec). }
  destruct (signature =? 0x06054b50); [|exact H].
  destruct (readEndCentralDirectory (dataView this) (index this)); exact H.
Qed.

Lemma scanLoop_DirectoryNonneg (useCentralDirectory : bool) (fuel : nat) :
  forall this : ZipReader,
    DirectoryNonneg this ->
    DirectoryNonneg (snd (scanLoop fuel useCentralDirectory this)).
Proof.
  induction fuel as [|fuel IH]; intros this H; cbn [scanLoop];
    destruct (index this + 4 <? byteLength (dataView this)); try exact H.
  pose proof (scanStep_DirectoryNonneg useCentralDirectory this H) as Hs.
  destruct (scanStep useCentralDirectory this) as [[[|]|e] this']; cbn [snd] in *;
    try exact Hs.
  apply IH. exact Hs.
Qed.

Lemma readCentralDirectoriesUntil_DirectoryNonneg (offset : Z) (fuel : nat) :
  forall (readOffset : Z) (this : ZipReader),
    DirectoryNonneg this ->
    DirectoryNonneg (snd (readCentralDirectoriesUntil fuel offset readOffset this)).
Proof.
  induction fuel as [|fuel IH]; intros readOffset this H.
  - cbn [readCentralDirectoriesUntil]. destruct (readOffset <? offset); exact H.
  - rewrite readCentralDirectoriesUntil_S.
    destruct (readOffset <? offset); [|exact H].
    destruct (readCentralDirectory (dataView this) readOffset) as [entry|e] eqn:Ec;
      [|exact H].
    apply IH. exact (pushed_DirectoryNonneg this _ entry H Ec).
Qed.

Lemma heuristicsCentralDirectorySearch_DirectoryNonneg (offset : Z)
    (this : ZipReader) :
  DirectoryNonneg this ->
  DirectoryNonneg (snd (heuristicsCentralDirectorySearch offset this)).
Proof.
  intros H. rewrite heuristicsCentralDirectorySearch_eq.
  destruct (getUint32 (dataView this) offset) as [signature|e]; [|exact H].
  destruct (signature =? 0x06054b50); [|exact H].
  destruct (readEndCentralDirectory (dataView this) offset) as [record|e];
    [|exact H].
  destruct (EndCentralDirectory.totalLength record
            =? byteLength (dataView this) - offset); [|exact H].
  destruct (getUint32 (dataView this)
              (EndCentralDirectory.centralDirectoryOffset record))
    as [signature'|e]; [|exact H].
  destruct (signature' =? 0x02014b50); [|exact H].
  match goal with
  | |- context [readCentralDirectoriesUntil ?f ?o ?r ?s] =>
      pose proof (readCentralDirectoriesUntil_DirectoryNonneg o f r s H) as Hw;
      destruct (readCentralDirectoriesUntil f o r s) as [[[]|e] this1]
  end; exact Hw.
Qed.

Lemma probeHotSpots_DirectoryNonneg (hotSpots : list Z) :
  forall this : ZipReader,
    DirectoryNonneg this ->
    DirectoryNonneg
      (snd (probeHotSpots heuristicsCentralDirectorySearch hotSpots this)).
Proof.
  induction hotSpots as [|spot rest IH]; intros this H; cbn [probeHotSpots];
    [exact H|].
  unfold bind.
  pose proof (heuristicsCentralDirectorySearch_DirectoryNonneg spot this H) as Hs.
  destruct (heuristicsCentralDirectorySearch spot this) as [[[|]|e] this'];
    cbn [snd] in *; try exact Hs.
  apply IH. exact Hs.
Qed.

Lemma bruteForceLoop_DirectoryNonneg (fuel : nat) :
  forall this : ZipReader,
    DirectoryNonneg this ->
    DirectoryNonneg
      (snd (bruteForceLoop heuristicsCentralDirectorySearch fuel this)).
Proof.
  induction fuel as [|fuel IH]; intros this H.
  - cbn [bruteForceLoop]. destruct (backwardIndex this); [|exact H].
    match goal with |- context [if ?c then _ else _] => destruct c end; exact H.
  - destruct (backwardIndex this) as [backward|] eqn:Eb.
    + rewrite (bruteForceLoop_S heuristicsCentralDirectorySearch fuel this backward Eb).
      match goal with |- context [if ?c then _ else _] => destruct c end;
        [|exact H].
      pose proof (heuristicsCentralDirectorySearch_DirectoryNonneg backward this H)
        as Hs.
      destruct (heuristicsCentralDirectorySearch backward this)
        as [[[|]|e] this']; cbn [snd] in *; try exact Hs.
      apply IH. exact Hs.
    + cbn [bruteForceLoop]. rewrite Eb. exact H.
Qed.

Lemma read_DirectoryNonneg (useCentralDirectory : bool) (this : ZipReader) :
  DirectoryNonneg this ->
  DirectoryNonneg (snd (read useCentralDirectory this)).
Proof.
  intros H. destruct useCentralDirectory.
  - rewrite read_true_eq. unfold scan. apply scanLoop_DirectoryNonneg. exact H.
  - rewrite read_false_eq.
    pose proof (scanLoop_DirectoryNonneg false
                  (Z.to_nat (byteLength (dataView this) - index this)) this H)
      as Hs.
    fold (scan false this) in Hs.
    destruct (scan false this) as [[[]|e] this1]; cbn [snd] in *; [|exact Hs].
    assert (DirectoryNonneg
              (snd (hotSpotSearch heuristicsCentralDirectorySearch this1)))
      as Hh.
    { unfold hotSpotSearch, bind, get, ret.
      destruct (endOfCentralDirectory this1); [exact Hs|].
      apply probeHotSpots_DirectoryNonneg. exact Hs. }
    destruct (hotSpotSearch heuristicsCentralDirectorySearch this1)
      as [[[]|e] this2];
      cbn [snd] in *; [|exact Hh].
    unfold bruteForceSearch, bind, get, modify.
    apply bruteForceLoop_DirectoryNonneg. exact Hh.
Qed.

(** * Further properties of the reader *)

(** ** What a decoded record guarantees *)

(** X1: a local file header that decodes lies within the buffer: it is
    thirty bytes plus its name and its extra field long, the name and
    the extra field have the lengths the header declares, and
    [startsAt], the offset behind it, is at most the length of the
    buffer. *)
Theorem readLocalFile_layout (dv : DataView) (offset : Z) (entry : LocalFile.t) :
  readLocalFile dv offset = Return entry ->
  0 <= offset
  /\ LocalFile.totalLength entry
     = 30 + LocalFile.fileNameLength entry + LocalFile.extraLength entry
  /\ Z.of_nat (String.length (LocalFile.fileName entry))
     = LocalFile.fileNameLength entry
  /\ Z.of_nat (String.length (LocalFile.extra entry))
     = LocalFile.extraLength entry
  /\ LocalFile.startsAt entry = offset + LocalFile.totalLength entry
  /\ LocalFile.startsAt entry <= byteLength dv.
Proof.
  rewrite readLocalFile_eq. intros H.
  bind_step H. pose proof (getUint_Return _ _ _ _ E) as (Hoff & _ & _).
  do 12 bind_step H.
  rename v8 into nameLength, E8 into Ename, v9 into extraLength, E9 into Eextra,
    E10 into Echars, E11 into Echars'.
  apply Return_inj in H. subst entry.
  cbv [LocalFile.totalLength LocalFile.fileNameLength LocalFile.extraLength
       LocalFile.fileName LocalFile.extra LocalFile.startsAt].
  pose proof (getUint_Return _ _ _ _ Ename) as (_ & _ & Hn).
  pose proof (getUint_Return _ _ _ _ Eextra) as (_ & Hfixed & He).
  apply readChars_Return in Echars as [Hlen Hrange].
  apply readChars_Return in Echars' as [Hlen' Hrange'].
  split; [lia|]. split; [reflexivity|]. split; [lia|]. split; [lia|].
  split; [reflexivity|].
  destruct (Z.to_nat extraLength) as [|k] eqn:Ek.
  - destruct (Z.to_nat nameLength) as [|j] eqn:Ej; [lia|].
    destruct Hrange as [_ Hr]; [discriminate|]. lia.
  - destruct Hrange' as [_ Hr]; [discriminate|]. lia.
Qed.

Lemma readLocalFile_layout_witness :
  exists entry,
    readLocalFile {| buffer := threeStoredEntries |} 32 = Return entry
    /\ LocalFile.totalLength entry = 31
    /\ LocalFile.startsAt entry = 63.
Proof.
  destruct (readLocalFile {| buffer := threeStoredEntries |} 32) as [entry|e] eqn:E;
    [|vm_compute in E; discriminate E].
  exists entry. split; [reflexivity|].
  destruct (readLocalFile_layout _ _ _ E) as (_ & Ht & _ & _ & Hs & _).
  assert (LocalFile.fileNameLength entry = 1 /\ LocalFile.extraLength entry = 0)
    as [Hn Hx] by (vm_compute in E; injection E as <-; split; reflexivity).
  rewrite Hs, Ht, Hn, Hx. split; reflexivity.
Defined.

(** X2: a local file header decodes exactly when it fits into the
    buffer; when it does not, the reader throws [RangeError] and nothing
    else. *)
Theorem readLocalFile_fits_iff (dv : DataView) (offset : Z) :
  ((exists entry, readLocalFile dv offset = Return entry)
   <-> localFileFits dv offset)
  /\ (~ localFileFits dv offset -> readLocalFile dv offset = Throw RangeError).
Proof.
  assert ((exists entry, readLocalFile dv offset = Return entry)
          <-> localFileFits dv offset) as Hiff.
  { split.
    - intros [entry H]. pose proof (readLocalFile_layout _ _ _ H) as Hl.
      rewrite readLocalFile_eq in H.
      do 13 bind_step H. apply Return_inj in H. subst entry.
      cbv [LocalFile.totalLength LocalFile.fileNameLength LocalFile.extraLength
           LocalFile.fileName LocalFile.extra LocalFile.startsAt] in Hl.
      destruct Hl as (H0 & _ & _ & _ & _ & Hfit).
      split; [exact H0|]. exists v8, v9. repeat split; try assumption. lia.
    - intros (H0 & n & m & En & Em & Hfit).
      pose proof (getUint_Return _ _ _ _ En) as (_ & _ & Hn).
      pose proof (getUint_Return _ _ _ _ Em) as (_ & Hfixed & Hm).
      rewrite readLocalFile_eq. unfold getUint32, getUint16 in *.
      destruct (getUint_in_range 4 dv (offset + 0)) as [x0 ->]; [lia|lia|].
      destruct (getUint_in_range 2 dv (offset + 4)) as [x1 ->]; [lia|lia|].
      destruct (getUint_in_range 2 dv (offset + 6)) as [x2 ->]; [lia|lia|].
      destruct (getUint_in_range 2 dv (offset + 8)) as [x3 ->]; [lia|lia|].
      destruct (getUint_in_range 2 dv (offset + 10)) as [x4 ->]; [lia|lia|].
      destruct (getUint_in_range 2 dv (offset + 12)) as [x5 ->]; [lia|lia|].
      destruct (getUint_in_range 4 dv (offset + 14)) as [x6 ->]; [lia|lia|].
      destruct (getUint_in_range 4 dv (offset + 18)) as [x7 ->]; [lia|lia|].
      destruct (getUint_in_range 4 dv (offset + 22)) as [x8 ->]; [lia|lia|].
      rewrite En, Em. cbn [obind].
      destruct (readChars_in_range dv (Z.to_nat n) (offset + 30)) as [name ->].
      { destruct (Z.to_nat n) eqn:E; [left; reflexivity|right; lia]. }
      cbn [obind].
      destruct (readChars_in_range dv (Z.to_nat m) (offset + (30 + n)))
        as [extra ->].
      { destruct (Z.to_nat m) eqn:E; [left; reflexivity|right; lia]. }
      cbn [obind]. eexists. reflexivity. }
  split; [exact Hiff|].
  intros Hnot. destruct (readLocalFile dv offset) as [entry|e] eqn:E.
  - exfalso. apply Hnot. apply Hiff. exists entry. reflexivity.
  - f_equal. eapply readLocalFile_Throw. exact E.
Qed.

Lemma readLocalFile_fits_iff_witness :
  readLocalFile {| buffer := threeStoredEntries |} 250 = Throw RangeError.
Proof.
  apply (proj2 (readLocalFile_fits_iff {| buffer := threeStoredEntries |} 250)).
  intros (_ & n & m & _ & Em & _). vm_compute in Em. discriminate Em.
Defined.

(** X3: the numeric fields of a decoded local file header are unsigned
    values of the width the schema gives them: sixteen bits for version,
    flags, method, time, date and the two lengths, thirty-two for
    signature, crc and the two sizes. *)
Theorem readLocalFile_ranges (dv : DataView) (offset : Z) (entry : LocalFile.t) :
  readLocalFile dv offset = Return entry ->
  isUint 32 (LocalFile.signature entry)
  /\ isUint 16 (LocalFile.version entry)
  /\ isUint 16 (LocalFile.generalPurpose entry)
  /\ isUint 16 (LocalFile.compressionMethod entry)
  /\ isUint 16 (LocalFile.lastModifiedTime entry)
  /\ isUint 16 (LocalFile.lastModifiedDate entry)
  /\ isUint 32 (LocalFile.crc entry)
  /\ isUint 32 (LocalFile.compressedSize entry)
  /\ isUint 32 (LocalFile.uncompressedSize entry)
  /\ isUint 16 (LocalFile.fileNameLength entry)
  /\ isUint 16 (LocalFile.extraLength entry).
Proof.
  rewrite readLocalFile_eq. intros H.
  do 13 bind_step H. apply Return_inj in H. subst entry.
  cbv [LocalFile.signature LocalFile.version LocalFile.generalPurpose
       LocalFile.compressionMethod LocalFile.lastModifiedTime
       LocalFile.lastModifiedDate LocalFile.crc LocalFile.compressedSize
       LocalFile.uncompressedSize LocalFile.fileNameLength
       LocalFile.extraLength isUint].
  unfold getUint32, getUint16 in *.
  repeat match goal with
         | E : getUint ?w _ _ = Return ?v |- _ =>
             pose proof (getUint_Return _ _ _ _ E) as (_ & _ & ?);
             pose proof (getUint_bound w _ _ _ ltac:(lia) E);
             clear E
         end.
  change (256 ^ 4) with (2 ^ 32) in *. change (256 ^ 2) with (2 ^ 16) in *.
  repeat split; assumption.
Qed.

Lemma readLocalFile_ranges_witness :
  exists entry,
    readLocalFile {| buffer := streamedEntry |} 0 = Return entry
    /\ isUint 16 (LocalFile.generalPurpose entry)
    /\ isUint 32 (LocalFile.compressedSize entry).
Proof.
  destruct (readLocalFile {| buffer := streamedEntry |} 0) as [entry|e] eqn:E;
    [|vm_compute in E; discriminate E].
  exists entry. split; [reflexivity|].
  destruct (readLocalFile_ranges _ _ _ E)
    as (_ & _ & Hg & _ & _ & _ & _ & Hc & _).
  split; assumption.
Defined.

Lemma readChars_fits (dv : DataView) (position : Z) (n : Z) (s : string) :
  0 <= n ->
  readChars dv position (Z.to_nat n) = Return s ->
  Z.of_nat (String.length s) = n
  /\ (0 < n -> 0 <= position /\ position + n <= byteLength dv).
Proof.
  intros Hn H. apply readChars_Return in H as [Hlen Hrange].
  split; [lia|]. intros Hpos. destruct Hrange as [H0 H1]; lia.
Qed.

(** X4: a central directory header that decodes lies within the buffer:
    it is forty-six bytes plus its name, extra field and comment long,
    the three texts have the lengths it declares, and the offset it
    gives for the local file header is an unsigned 32-bit value. *)
Theorem readCentralDirectory_layout (dv : DataView) (offset : Z)
    (entry : CentralDirectory.t) :
  readCentralDirectory dv offset = Return entry ->
  0 <= offset
  /\ CentralDirectory.totalLength entry
     = 46 + CentralDirectory.fileNameLength entry
       + CentralDirectory.extraLength entry
       + CentralDirectory.fileCommentLength entry
  /\ Z.of_nat (String.length (CentralDirectory.fileName entry))
     = CentralDirectory.fileNameLength entry
  /\ Z.of_nat (String.length (CentralDirectory.extra entry))
     = CentralDirectory.extraLength entry
  /\ Z.of_nat (String.length (CentralDirectory.comments entry))
     = CentralDirectory.fileCommentLength entry
  /\ offset + CentralDirectory.totalLength entry <= byteLength dv
  /\ isUint 32 (CentralDirectory.offset entry)
  /\ isUint 32 (CentralDirectory.compressedSize entry).
Proof.
  rewrite readCentralDirectory_eq. intros H.
  do 20 bind_step H. apply Return_inj in H. subst entry.
  cbv [CentralDirectory.totalLength CentralDirectory.fileNameLength
       CentralDirectory.extraLength CentralDirectory.fileCommentLength
       CentralDirectory.fileName CentralDirectory.extra
       CentralDirectory.comments CentralDirectory.offset
       CentralDirectory.compressedSize isUint].
  rename v9 into nameLength, v10 into extraLength, v11 into commentLength.
  unfold getUint32, getUint16 in *.
  pose proof (getUint_Return _ _ _ _ E) as (Hoff & _ & _).
  pose proof (getUint_Return _ _ _ _ E9) as (_ & _ & Hn).
  pose proof (getUint_Return _ _ _ _ E10) as (_ & _ & Hx).
  pose proof (getUint_Return _ _ _ _ E11) as (_ & _ & Hc).
  pose proof (getUint_Return _ _ _ _ E15) as (_ & Hfixed & Ho).
  pose proof (getUint_bound 4 _ _ _ ltac:(lia) E15) as Ho'.
  pose proof (getUint_Return _ _ _ _ E7) as (_ & _ & Hs).
  pose proof (getUint_bound 4 _ _ _ ltac:(lia) E7) as Hs'.
  change (256 ^ 4) with (2 ^ 32) in *.
  apply readChars_fits in E16 as [L1 R1]; [|exact Hn].
  apply readChars_fits in E17 as [L2 R2]; [|exact Hx].
  apply readChars_fits in E18 as [L3 R3]; [|exact Hc].
  split; [lia|]. split; [reflexivity|].
  split; [exact L1|]. split; [exact L2|]. split; [exact L3|].
  split; [|split; split; assumption].
  destruct (Z.eq_dec commentLength 0) as [->|]; [|lia].
  destruct (Z.eq_dec extraLength 0) as [->|]; [|lia].
  destruct (Z.eq_dec nameLength 0) as [->|]; lia.
Qed.

Lemma readCentralDirectory_layout_witness :
  exists entry,
    readCentralDirectory {| buffer := threeStoredEntries |} 143 = Return entry
    /\ CentralDirectory.totalLength entry = 47
    /\ isUint 32 (CentralDirectory.offset entry).
Proof.
  destruct (readCentralDirectory {| buffer := threeStoredEntries |} 143)
    as [entry|e] eqn:E; [|vm_compute in E; discriminate E].
  exists entry. split; [reflexivity|].
  destruct (readCentralDirectory_layout _ _ _ E)
    as (_ & Ht & _ & _ & _ & _ & Ho & _).
  split; [|exact Ho].
  assert (CentralDirectory.fileNameLength entry = 1
          /\ CentralDirectory.extraLength entry = 0
          /\ CentralDirectory.fileCommentLength entry = 0) as (H1 & H2 & H3)
      by (vm_compute in E; injection E as <-; repeat split).
  rewrite Ht, H1, H2, H3. reflexivity.
Defined.

(** X5: an end record that decodes lies within the buffer: it is
    twenty-two bytes plus its comment long, at most 65557, the comment
    has the declared length, and the central directory offset it gives
    is an unsigned 32-bit value. *)
Theorem readEndCentralDirectory_layout (dv : DataView) (offset : Z)
    (entry : EndCentralDirectory.t) :
  readEndCentralDirectory dv offset = Return entry ->
  0 <= offset
  /\ EndCentralDirectory.totalLength entry
     = 22 + EndCentralDirectory.commentLength entry
  /\ 22 <= EndCentralDirectory.totalLength entry <= 65557
  /\ Z.of_nat (String.length (EndCentralDirectory.comment entry))
     = EndCentralDirectory.commentLength entry
  /\ offset + EndCentralDirectory.totalLength entry <= byteLength dv
  /\ isUint 32 (EndCentralDirectory.centralDirectoryOffset entry).
Proof.
  rewrite readEndCentralDirectory_eq. intros H.
  do 9 bind_step H. apply Return_inj in H. subst entry.
  cbv [EndCentralDirectory.totalLength EndCentralDirectory.commentLength
       EndCentralDirectory.comment EndCentralDirectory.centralDirectoryOffset
       isUint].
  rename v6 into commentLength.
  unfold getUint32, getUint16 in *.
  pose proof (getUint_Return _ _ _ _ E) as (Hoff & _ & _).
  pose proof (getUint_Return _ _ _ _ E5) as (_ & _ & Ho).
  pose proof (getUint_bound 4 _ _ _ ltac:(lia) E5) as Ho'.
  pose proof (getUint_Return _ _ _ _ E6) as (_ & Hfixed & Hc).
  pose proof (getUint_bound 2 _ _ _ ltac:(lia) E6) as Hc'.
  change (256 ^ 4) with (2 ^ 32) in *. change (256 ^ 2) with 65536 in *.
  apply readChars_fits in E7 as [L R]; [|exact Hc].
  split; [lia|]. split; [reflexivity|]. split; [lia|]. split; [exact L|].
  split; [|split; assumption].
  destruct (Z.eq_dec commentLength 0) as [->|]; lia.
Qed.

Lemma readEndCentralDirectory_layout_witness :
  exists entry,
    readEndCentralDirectory {| buffer := commentedArchive |} 96 = Return entry
    /\ EndCentralDirectory.totalLength entry = 24.
Proof.
  destruct (readEndCentralDirectory {| buffer := commentedArchive |} 96)
    as [entry|e] eqn:E; [|vm_compute in E; discriminate E].
  exists entry. split; [reflexivity|].
  destruct (readEndCentralDirectory_layout _ _ _ E) as (_ & Ht & _).
  assert (EndCentralDirectory.commentLength entry = 2) as Hc
      by (vm_compute in E; injection E as <-; reflexivity).
  rewrite Ht, Hc. reflexivity.
Defined.

(** ** readStruct on other schemas *)

Lemma getProp_setProp_same (name : string) (v : value) (struct : Struct) :
  getProp name (setProp name v struct) = Some v.
Proof.
  induction struct as [|[k w] rest IH]; cbn [setProp getProp].
  - rewrite String.eqb_refl. reflexivity.
  - destruct (String.eqb k name) eqn:E; cbn [getProp]; rewrite E;
      [reflexivity|exact IH].
Qed.

Lemma getProp_setProp_other (name name' : string) (v : value) (struct : Struct) :
  name' <> name ->
  getProp name' (setProp name v struct) = getProp name' struct.
Proof.
  intros Hne. induction struct as [|[k w] rest IH]; cbn [setProp getProp].
  - destruct (String.eqb_spec name name'); [congruence|reflexivity].
  - destruct (String.eqb_spec k name) as [->|Hk]; cbn [getProp].
    + destruct (String.eqb_spec name name'); [congruence|reflexivity].
    + destruct (String.eqb k name'); [reflexivity|exact IH].
Qed.

(** What a field of a fixed width decodes to, width by width. *)
Lemma readFixed_cases (dv : DataView) (n position : Z) :
  ((n = 1 \/ n = 2 \/ n = 4)
   /\ exists x, readFixed dv n position = Return (VNumber x))
  \/ (n = 8 /\ exists x, readFixed dv n position = Return (VBigInt x))
  \/ ((n = 1 \/ n = 2 \/ n = 4 \/ n = 8)
      /\ readFixed dv n position = Throw RangeError)
  \/ (n <> 1 /\ n <> 2 /\ n <> 4 /\ n <> 8
      /\ readFixed dv n position = Throw UnsupportedLength).
Proof.
  destruct (Z.eq_dec n 1) as [->|H1].
  { unfold readFixed. cbn [Z.mul Pos.mul].
    destruct (getUint8 dv position) as [x|e] eqn:E; cbn [obind].
    - left. split; [lia|]. exists x. reflexivity.
    - right; right; left. split; [lia|].
      rewrite (getUint_Throw _ _ _ _ E). reflexivity. }
  destruct (Z.eq_dec n 2) as [->|H2].
  { unfold readFixed. cbn [Z.mul Pos.mul].
    destruct (getUint16 dv position) as [x|e] eqn:E; cbn [obind].
    - left. split; [lia|]. exists x. reflexivity.
    - right; right; left. split; [lia|].
      rewrite (getUint_Throw _ _ _ _ E). reflexivity. }
  destruct (Z.eq_dec n 4) as [->|H4].
  { unfold readFixed. cbn [Z.mul Pos.mul].
    destruct (getUint32 dv position) as [x|e] eqn:E; cbn [obind].
    - left. split; [lia|]. exists x. reflexivity.
    - right; right; left. split; [lia|].
      rewrite (getUint_Throw _ _ _ _ E). reflexivity. }
  destruct (Z.eq_dec n 8) as [->|H8].
  { unfold readFixed. cbn [Z.mul Pos.mul].
    destruct (getBigUint64 dv position) as [x|e] eqn:E; cbn [obind].
    - right; left. split; [reflexivity|]. exists x. reflexivity.
    - right; right; left. split; [lia|].
      rewrite (getUint_Throw _ _ _ _ E). reflexivity. }
  right; right; right.
  split; [exact H1|]. split; [exact H2|]. split; [exact H4|]. split; [exact H8|].
  unfold readFixed.
  destruct (n * 8) as [|p|p] eqn:En; try reflexivity.
  repeat (destruct p as [p|p|]; try reflexivity); lia.
Qed.

Lemma readFields_unsupported (dv : DataView) (offset : Z) (name : string) (n : Z) :
  n <> 1 -> n <> 2 -> n <> 4 -> n <> 8 ->
  forall (fields : list Field.t) (numbers : list string) (struct : Struct)
         (totalLength : Z),
    (forall lengthName,
        In lengthName numbers ->
        exists x, getProp lengthName struct = Some (VNumber x)) ->
    lengthsDecoded numbers fields = true ->
    In (Field.mk name (Bytes n)) fields ->
    readFields dv fields offset struct totalLength = Throw UnsupportedLength
    \/ readFields dv fields offset struct totalLength = Throw RangeError.
Proof.
  intros H1 H2 H4 H8.
  induction fields as [|field rest IH]; intros numbers struct total Hnum Hdec Hin;
    [destruct Hin|].
  cbn [readFields lengthsDecoded] in *.
  destruct (Field.length field) as [m|lengthName] eqn:Ef.
  - assert (m = n \/ In (Field.mk name (Bytes n)) rest) as Hin'.
    { destruct Hin as [->|Hin]; [|right; exact Hin].
      cbn [Field.length] in Ef. injection Ef as ->. left. reflexivity. }
    destruct (readFixed_cases dv m (offset + total))
      as [[Hm [x Er]]|[[Hm [x Er]]|[[_ Er]|(K1 & K2 & K4 & K8 & Er)]]];
      rewrite Er; cbn [obind]; [|subst m|right; reflexivity|left; reflexivity].
    + destruct Hin' as [->|Hin']; [lia|].
      assert ((m =? 1) || (m =? 2) || (m =? 4) = true) as Hc.
      { destruct Hm as [-> | [-> | ->]]; reflexivity. }
      rewrite Hc in Hdec.
      apply (IH (Field.name field :: numbers)); [|exact Hdec|exact Hin'].
      intros lengthName [<-|Hl].
      * exists x. apply getProp_setProp_same.
      * destruct (string_dec lengthName (Field.name field)) as [->|Hne].
        -- exists x. apply getProp_setProp_same.
        -- rewrite getProp_setProp_other by exact Hne. exact (Hnum _ Hl).
    + destruct Hin' as [Hmn|Hin']; [exfalso; apply H8; symmetry; exact Hmn|].
      change ((8 =? 1) || (8 =? 2) || (8 =? 4)) with false in Hdec.
      change (8 =? 8) with true in Hdec. cbv iota in Hdec.
      apply (IH (remove string_dec (Field.name field) numbers));
        [|exact Hdec|exact Hin'].
      intros lengthName Hl. apply in_remove in Hl as [Hl Hne].
      rewrite getProp_setProp_other by exact Hne. exact (Hnum _ Hl).
  - apply andb_prop in Hdec as [Hdec Hrest].
    apply andb_prop in Hdec as [Hknown _].
    apply existsb_exists in Hknown as (known & Hknown & Heq).
    apply String.eqb_eq in Heq. subst known.
    destruct (Hnum _ Hknown) as [x ->].
    destruct (readChars dv (offset + total) (Z.to_nat x)) as [str|e] eqn:Er;
      cbn [obind].
    + apply (IH (remove string_dec (Field.name field) numbers));
        [|exact Hrest|].
      * intros l Hl. apply in_remove in Hl as [Hl Hne].
        rewrite getProp_setProp_other by exact Hne. exact (Hnum _ Hl).
      * destruct Hin as [->|Hin]; [discriminate Ef|exact Hin].
    + right. rewrite (readChars_Throw _ _ _ _ Er). reflexivity.
Qed.



(** ** Looking entries up by name *)

Lemma entryByFileName_heapOf (name : string) (useCentralDirectory : bool)
    (this : ZipReader) :
  entryByFileName name useCentralDirectory this
  = find (fun e => String.eqb (entryFileName e) name)
      (heapOf useCentralDirectory this).
Proof. reflexivity. Qed.

Lemma find_first {A} (f : A -> bool) (l : list A) (x : A) :
  find f l = Some x <->
  exists l1 l2, l = l1 ++ x :: l2 /\ f x = true
                /\ forall y, In y l1 -> f y = false.
Proof.
  induction l as [|a l IH]; cbn [find].
  - split; [discriminate|]. intros (l1 & l2 & H & _). destruct l1; discriminate H.
  - destruct (f a) eqn:Ea.
    + split.
      * intros H; injection H as <-. exists [], l. repeat split; [exact Ea|].
        intros y [].
      * intros (l1 & l2 & H & Hx & Hnone). destruct l1 as [|b l1].
        -- injection H as -> _. reflexivity.
        -- injection H as <- _.
           rewrite (Hnone a (or_introl eq_refl)) in Ea. discriminate Ea.
    + rewrite IH. split.
      * intros (l1 & l2 & -> & Hx & Hnone). exists (a :: l1), l2.
        repeat split; [exact Hx|]. intros y [<-|Hy]; [exact Ea|auto].
      * intros (l1 & l2 & H & Hx & Hnone). destruct l1 as [|b l1].
        -- injection H as -> _. rewrite Hx in Ea. discriminate Ea.
        -- injection H as <- ->. exists l1, l2. repeat split; [exact Hx|].
           intros y Hy. apply Hnone. right. exact Hy.
Qed.

(** X7: [entryByFileName] answers with the first entry of the list it
    searches (the central directory list or the local one) that carries
    the name: an entry is the answer exactly when it has the name and no
    entry before it has. *)
Theorem entryByFileName_first (name : string) (useCentralDirectory : bool)
    (this : ZipReader) (entry : Entry) :
  entryByFileName name useCentralDirectory this = Some entry <->
  exists before after,
    heapOf useCentralDirectory this = before ++ entry :: after
    /\ entryFileName entry = name
    /\ forall other, In other before -> entryFileName other <> name.
Proof.
  rewrite entryByFileName_heapOf, find_first. split.
  - intros (l1 & l2 & H & Hx & Hnone). exists l1, l2.
    repeat split; [exact H|apply String.eqb_eq; exact Hx|].
    intros other Ho. apply String.eqb_neq. auto.
  - intros (l1 & l2 & H & Hx & Hnone). exists l1, l2.
    repeat split; [exact H|apply String.eqb_eq; exact Hx|].
    intros other Ho. apply String.eqb_neq. auto.
Qed.

(** X8: [entryByFileName] answers [undefined] exactly when no entry of
    the list it searches carries the name; entries of the other list do
    not count. *)
Theorem entryByFileName_None (name : string) (useCentralDirectory : bool)
    (this : ZipReader) :
  entryByFileName name useCentralDirectory this = None <->
  forall entry, In entry (heapOf useCentralDirectory this) ->
                entryFileName entry <> name.
Proof.
  rewrite entryByFileName_heapOf. split.
  - intros H entry Hin. apply String.eqb_neq.
    exact (find_none _ _ H entry Hin).
  - intros H.
    destruct (find (fun e => String.eqb (entryFileName e) name)
                (heapOf useCentralDirectory this)) as [entry|] eqn:E;
      [|reflexivity].
    apply find_some in E as [Hin Hname]. apply String.eqb_eq in Hname.
    destruct (H entry Hin Hname).
Qed.

Lemma entryByFileName_None_witness :
  let this := snd (read false (newZipReader threeStoredEntries)) in
  entryByFileName "c" false this = None
  /\ exists entry, entryByFileName "c" true this = Some entry.
Proof.
  cbn zeta. split.
  - apply entryByFileName_None. intros entry Hin Hname.
    assert (existsb (fun e => String.eqb (entryFileName e) "c")
              (heapOf false (snd (read false (newZipReader threeStoredEntries))))
            = false) as Hn by (vm_compute; reflexivity).
    assert (existsb (fun e => String.eqb (entryFileName e) "c")
              (heapOf false (snd (read false (newZipReader threeStoredEntries))))
            = true) as Hy.
    { apply existsb_exists. exists entry. split; [exact Hin|].
      apply String.eqb_eq. exact Hname. }
    congruence.
  - destruct (entryByFileName "c" true
                (snd (read false (newZipReader threeStoredEntries))))
      as [entry|] eqn:E; [|vm_compute in E; discriminate E].
    exists entry. reflexivity.
Defined.

(** ** extract *)

(** X9: [extractByFileName] returns [undefined], and leaves the reader
    alone, when no entry of the searched list carries the name; when
    one does, it extracts the first such entry with the empty content
    type. *)
Theorem extractByFileName_lookup
    (inflateRaw : list byte -> outcome (list (list byte)))
    (name : string) (useCentralDirectory : bool) (this : ZipReader) :
  ((forall entry, In entry (heapOf useCentralDirectory this) ->
                  entryFileName entry <> name) ->
   extractByFileName inflateRaw name useCentralDirectory this
   = (Return None, this))
  /\ (forall before entry after,
        heapOf useCentralDirectory this = before ++ entry :: after ->
        entryFileName entry = name ->
        (forall other, In other before -> entryFileName other <> name) ->
        extractByFileName inflateRaw name useCentralDirectory this
        = match extract inflateRaw entry EmptyString this with
          | (Return blob, this') => (Return (Some blob), this')
          | (Throw e, this') => (Throw e, this')
          end).
Proof.
  split.
  - intros Hnone. unfold extractByFileName, bind, get, ret.
    rewrite entryByFileName_heapOf.
    destruct (find (fun e => String.eqb (entryFileName e) name)
                (heapOf useCentralDirectory this)) as [entry|] eqn:E;
      [|reflexivity].
    apply find_some in E as [Hin Hname]. apply String.eqb_eq in Hname.
    destruct (Hnone entry Hin Hname).
  - intros before entry after Hheap Hname Hbefore.
    assert (entryByFileName name useCentralDirectory this = Some entry) as E.
    { rewrite entryByFileName_heapOf. apply find_first.
      exists before, after. repeat split; [exact Hheap| |].
      - apply String.eqb_eq. exact Hname.
      - intros y Hy. apply String.eqb_neq. auto. }
    unfold extractByFileName, bind, get, ret. rewrite E.
    destruct (extract inflateRaw entry EmptyString this) as [[blob|e] this'];
      reflexivity.
Qed.

Lemma extractByFileName_lookup_witness :
  let this := snd (read false (newZipReader threeStoredEntries)) in
  extractByFileName (fun _ => Throw DecompressionFailed) "missing" true this
  = (Return None, this).
Proof.
  cbn zeta.
  apply (proj1 (extractByFileName_lookup (fun _ => Throw DecompressionFailed)
                  "missing" true
                  (snd (read false (newZipReader threeStoredEntries))))).
  intros entry Hin Hname.
  assert (existsb (fun e => String.eqb (entryFileName e) "missing")
            (heapOf true (snd (read false (newZipReader threeStoredEntries))))
          = false) as Hn by (vm_compute; reflexivity).
  assert (existsb (fun e => String.eqb (entryFileName e) "missing")
            (heapOf true (snd (read false (newZipReader threeStoredEntries))))
          = true) as Hy.
  { apply existsb_exists. exists entry. split; [exact Hin|].
    apply String.eqb_eq. exact Hname. }
  congruence.
Defined.

(** X10: a central directory entry whose local file header declares a
    compressed size other than zero is extracted exactly like that local
    file entry: sizes, method and offset of the data are those of the
    local header, and nothing of the central directory entry but its
    [offset] is used. *)
Theorem extract_central_as_local
    (inflateRaw : list byte -> outcome (list (list byte)))
    (this : ZipReader) (centralDirectory : CentralDirectory.t)
    (local : LocalFile.t) (type : string) :
  readLocalFile (dataView this) (CentralDirectory.offset centralDirectory)
  = Return local ->
  LocalFile.compressedSize local <> 0 ->
  extract inflateRaw (ECentral centralDirectory) type this
  = extract inflateRaw (ELocal local) type this.
Proof.
  intros Hl Hsize. rewrite !extract_eq. cbn [localFileOf]. rewrite Hl.
  unfold sliceSize.
  destruct (Z.eqb_spec (LocalFile.compressedSize local) 0); [contradiction|].
  reflexivity.
Qed.

Lemma extract_central_as_local_witness :
  let this := snd (read false (newZipReader threeStoredEntries)) in
  exists centralDirectory local,
    nth_error (centralDirectories this) 2 = Some centralDirectory
    /\ readLocalFile (dataView this) 64 = Return local
    /\ extract (fun _ => Throw DecompressionFailed) (ECentral centralDirectory)
         EmptyString this
       = extract (fun _ => Throw DecompressionFailed) (ELocal local)
           EmptyString this.
Proof.
  cbn zeta.
  destruct (nth_error
              (centralDirectories
                 (snd (read false (newZipReader threeStoredEntries)))) 2)
    as [centralDirectory|] eqn:Ec; [|vm_compute in Ec; discriminate Ec].
  destruct (readLocalFile
              (dataView (snd (read false (newZipReader threeStoredEntries)))) 64)
    as [local|e] eqn:El; [|vm_compute in El; discriminate El].
  exists centralDirectory, local. split; [reflexivity|]. split; [reflexivity|].
  assert (CentralDirectory.offset centralDirectory = 64) as Ho
      by (vm_compute in Ec; injection Ec as <-; reflexivity).
  apply extract_central_as_local.
  - rewrite Ho. exact El.
  - vm_compute in El. injection El as <-. discriminate.
Defined.

(** X11: [extract] reads the buffer and the entry it is given and
    nothing else: it leaves the reader as it is, and its result is the
    one a fresh reader over the same buffer gives, whatever [read] has
    collected or wherever its cursor stands. *)
Theorem extract_reads_buffer_only
    (inflateRaw : list byte -> outcome (list (list byte)))
    (this : ZipReader) (entry : Entry) (type : string) :
  extract inflateRaw entry type this
  = (fst (extract inflateRaw entry type
            (newZipReader (buffer (dataView this)))),
     this).
Proof.
  rewrite !extract_eq. unfold localFileOf.
  assert (dataView (newZipReader (buffer (dataView this))) = dataView this) as ->
      by (destruct this as [i l c e b [buf]]; reflexivity).
  destruct (match entry with
            | ELocal e => Return e
            | ECentral c => readLocalFile (dataView this) (CentralDirectory.offset c)
            end) as [local|e]; [|reflexivity].
  cbn zeta.
  destruct (LocalFile.compressionMethod local =? 0); [reflexivity|].
  destruct (LocalFile.compressionMethod local =? 8); [|reflexivity].
  match goal with |- context [inflateRaw ?d] => destruct (inflateRaw d) end;
    reflexivity.
Qed.

Lemma normalizeType_kept (type : string) :
  everyChar keptInType type = true -> normalizeType type = type.
Proof.
  unfold normalizeType. intros H.
  assert (everyChar inTypeRange type = true /\ mapChars asciiLowercase type = type)
    as [-> ->]; [|reflexivity].
  induction type as [|c rest IH]; [split; reflexivity|].
  cbn [everyChar mapChars] in *.
  apply andb_prop in H as [Hc Hrest]. destruct (IH Hrest) as [-> ->].
  unfold keptInType in Hc. apply andb_prop in Hc as [-> Hupper].
  split; [reflexivity|]. unfold asciiLowercase.
  apply negb_true_iff in Hupper. rewrite Hupper. reflexivity.
Qed.

(** X12: with method 0 the content type handed to [extract] is dropped
    and the decompression stream is not used: the blob is the same for
    every type and every stream, and its type is empty.  With method 8
    a blob that is returned holds the chunks of the stream, and as its
    type what the [Blob] constructor makes of the given one: the empty
    string when a character lies outside U+0020 to U+007E, the type in
    lower case otherwise, hence the type itself when it has no
    upper-case letter either. *)
Theorem extract_type
    (inflateRaw : list byte -> outcome (list (list byte)))
    (this : ZipReader) (entry : Entry) (type : string) (local : LocalFile.t) :
  localFileOf this entry = Return local ->
  (LocalFile.compressionMethod local = 0x00 ->
   forall inflateRaw' type',
     extract inflateRaw entry type this = extract inflateRaw' entry type' this
     /\ exists blob,
          extract inflateRaw entry type this = (Return blob, this)
          /\ blobType blob = EmptyString)
  /\ (LocalFile.compressionMethod local = 0x08 ->
      forall blob this',
        extract inflateRaw entry type this = (Return blob, this') ->
        blobType blob
        = (if everyChar inTypeRange type
           then mapChars asciiLowercase type else EmptyString)
        /\ (everyChar keptInType type = true -> blobType blob = type)
        /\ exists chunks,
             inflateRaw (slice (buffer (dataView this)) (LocalFile.startsAt local)
                           (LocalFile.startsAt local + sliceSize local entry))
             = Return chunks
             /\ blobBytes blob = List.concat chunks).
Proof.
  intros Hl. split.
  - intros Hm inflateRaw' type'. rewrite !extract_eq, Hl. cbn zeta. rewrite Hm.
    change (0 =? 0) with true. cbv iota.
    split; [reflexivity|]. eexists. split; reflexivity.
  - intros Hm blob this'. rewrite extract_eq, Hl. cbn zeta. rewrite Hm.
    change (8 =? 0) with false. change (8 =? 8) with true. cbv iota.
    destruct (inflateRaw _) as [chunks|e] eqn:Ei; [|discriminate].
    intros H. apply (f_equal fst) in H. cbn [fst] in H.
    apply Return_inj in H. subst blob. cbn [blobType blobBytes newBlob].
    split; [reflexivity|].
    split; [apply normalizeType_kept|].
    exists chunks. split; reflexivity.
Qed.

Lemma extract_type_witness :
  let this := snd (read false (newZipReader deflatedEntry)) in
  exists local blob,
    entries this = [local]
    /\ extract (fun data => Return [data]) (ELocal local) "Text/Plain" this
       = (Return blob, this)
    /\ blobType blob = "text/plain"%string.
Proof.
  cbn zeta.
  destruct (entries (snd (read false (newZipReader deflatedEntry))))
    as [|local [|other rest]] eqn:E; try (vm_compute in E; discriminate E).
  destruct (extract (fun data => Return [data]) (ELocal local) "Text/Plain"
              (snd (read false (newZipReader deflatedEntry))))
    as [[blob|e] this'] eqn:Ex;
    [|vm_compute in E; injection E as <-; vm_compute in Ex; discriminate Ex].
  assert (this' = snd (read false (newZipReader deflatedEntry))) as ->.
  { rewrite extract_eq in Ex. cbn [localFileOf] in Ex. cbn zeta in Ex.
    repeat match type of Ex with
           | context [if ?c then _ else _] => destruct c
           end; apply (f_equal snd) in Ex; cbn [snd] in Ex; congruence. }
  exists local, blob. split; [reflexivity|]. split; [exact Ex|].
  destruct (extract_type (fun data => Return [data])
              (snd (read false (newZipReader deflatedEntry)))
              (ELocal local) "Text/Plain" local eq_refl) as [_ H8].
  destruct (H8 ltac:(vm_compute in E; injection E as <-; reflexivity) blob _ Ex)
    as (Htype & _).
  rewrite Htype. vm_compute. reflexivity.
Defined.

(** ** What read keeps *)

Lemma LocatorFrame_refl (this : ZipReader) : LocatorFrame this this.
Proof.
  split; [reflexivity|]. split; [reflexivity|]. split; [reflexivity|].
  exists []. rewrite app_nil_r. split; [reflexivity|constructor].
Qed.

Lemma LocatorFrame_trans (a b c : ZipReader) :
  LocatorFrame a b -> LocatorFrame b c -> LocatorFrame a c.
Proof.
  intros (H1 & H2 & H3 & l & H4 & H5) (K1 & K2 & K3 & l' & K4 & K5).
  split; [congruence|]. split; [congruence|]. split; [congruence|].
  exists (l ++ l'). rewrite K4, H4, app_assoc. split; [reflexivity|].
  apply Forall_app. split; [exact H5|]. rewrite <- H1. exact K5.
Qed.

Lemma LocatorFrame_setBackwardIndex (b : option Z) (this : ZipReader) :
  LocatorFrame this (setBackwardIndex b this).
Proof.
  split; [reflexivity|]. split; [reflexivity|]. split; [reflexivity|].
  exists []. cbn. rewrite app_nil_r. split; [reflexivity|constructor].
Qed.

Lemma LocatorFrame_setEndOfCentralDirectory (e : option EndCentralDirectory.t)
    (this : ZipReader) :
  LocatorFrame this (setEndOfCentralDirectory e this).
Proof.
  split; [reflexivity|]. split; [reflexivity|]. split; [reflexivity|].
  exists []. cbn. rewrite app_nil_r. split; [reflexivity|constructor].
Qed.

Lemma LocatorFrame_push (this : ZipReader) (offset : Z)
    (entry : CentralDirectory.t) :
  readCentralDirectory (dataView this) offset = Return entry ->
  LocatorFrame this
    (setCentralDirectories (centralDirectories this ++ [entry]) this).
Proof.
  intros H.
  split; [reflexivity|]. split; [reflexivity|]. split; [reflexivity|].
  exists [entry]. split; [reflexivity|]. repeat constructor.
  exists offset. exact H.
Qed.

Lemma readCentralDirectoriesUntil_frame (offset : Z) (fuel : nat) :
  forall (readOffset : Z) (this : ZipReader),
    LocatorFrame this
      (snd (readCentralDirectoriesUntil fuel offset readOffset this)).
Proof.
  induction fuel as [|fuel IH]; intros readOffset this.
  - cbn [readCentralDirectoriesUntil].
    destruct (readOffset <? offset); apply LocatorFrame_refl.
  - rewrite readCentralDirectoriesUntil_S.
    destruct (readOffset <? offset); [|apply LocatorFrame_refl].
    destruct (readCentralDirectory (dataView this) readOffset) as [entry|e] eqn:Ec;
      [|apply LocatorFrame_refl].
    eapply LocatorFrame_trans; [|apply IH].
    exact (LocatorFrame_push this readOffset entry Ec).
Qed.

Lemma heuristicsCentralDirectorySearch_frame (offset : Z) (this : ZipReader) :
  LocatorFrame this (snd (heuristicsCentralDirectorySearch offset this)).
Proof.
  rewrite heuristicsCentralDirectorySearch_eq.
  destruct (getUint32 (dataView this) offset) as [signature|e];
    [|apply LocatorFrame_refl].
  destruct (signature =? 0x06054b50); [|apply LocatorFrame_refl].
  destruct (readEndCentralDirectory (dataView this) offset) as [record|e];
    [|apply LocatorFrame_refl].
  destruct (EndCentralDirectory.totalLength record
            =? byteLength (dataView this) - offset); [|apply LocatorFrame_refl].
  destruct (getUint32 (dataView this)
              (EndCentralDirectory.centralDirectoryOffset record))
    as [signature'|e]; [|apply LocatorFrame_refl].
  destruct (signature' =? 0x02014b50); [|apply LocatorFrame_refl].
  match goal with
  | |- context [readCentralDirectoriesUntil ?f ?o ?r ?s] =>
      pose proof (readCentralDirectoriesUntil_frame o f r s) as Hw;
      destruct (readCentralDirectoriesUntil f o r s) as [[[]|e] this1]
  end; cbn [snd] in *;
    (eapply LocatorFrame_trans; [|exact Hw]);
    apply LocatorFrame_setEndOfCentralDirectory.
Qed.

Lemma probeHotSpots_frame (hotSpots : list Z) :
  forall this : ZipReader,
    LocatorFrame this (snd (probeHotSpots heuristicsCentralDirectorySearch hotSpots this)).
Proof.
  induction hotSpots as [|spot rest IH]; intros this; cbn [probeHotSpots];
    [apply LocatorFrame_refl|].
  unfold bind.
  pose proof (heuristicsCentralDirectorySearch_frame spot this) as Hs.
  destruct (heuristicsCentralDirectorySearch spot this) as [[[|]|e] this'];
    cbn [snd] in *; try exact Hs.
  eapply LocatorFrame_trans; [exact Hs|apply IH].
Qed.

Lemma bruteForceLoop_frame (fuel : nat) :
  forall this : ZipReader,
    LocatorFrame this
      (snd (bruteForceLoop heuristicsCentralDirectorySearch fuel this)).
Proof.
  induction fuel as [|fuel IH]; intros this.
  - cbn [bruteForceLoop]. destruct (backwardIndex this);
      [|apply LocatorFrame_refl].
    match goal with |- context [if ?c then _ else _] => destruct c end;
      apply LocatorFrame_refl.
  - destruct (backwardIndex this) as [backward|] eqn:Eb.
    + rewrite (bruteForceLoop_S heuristicsCentralDirectorySearch fuel this backward Eb).
      match goal with |- context [if ?c then _ else _] => destruct c end;
        [|apply LocatorFrame_refl].
      pose proof (heuristicsCentralDirectorySearch_frame backward this) as Hs.
      destruct (heuristicsCentralDirectorySearch backward this)
        as [[[|]|e] this']; cbn [snd] in *; try exact Hs.
      eapply LocatorFrame_trans; [exact Hs|].
      eapply LocatorFrame_trans; [apply LocatorFrame_setBackwardIndex|apply IH].
    + cbn [bruteForceLoop]. rewrite Eb. apply LocatorFrame_refl.
Qed.

Lemma locator_frame (this : ZipReader) :
  LocatorFrame this (snd (locateEndOfCentralDirectory heuristicsCentralDirectorySearch this)).
Proof.
  unfold locateEndOfCentralDirectory. unfold bind at 1.
  assert (LocatorFrame this (snd (hotSpotSearch heuristicsCentralDirectorySearch this))) as Hh.
  { unfold hotSpotSearch, bind, get, ret.
    destruct (endOfCentralDirectory this); [apply LocatorFrame_refl|].
    apply probeHotSpots_frame. }
  destruct (hotSpotSearch heuristicsCentralDirectorySearch this)
    as [[[]|e] this1];
    cbn [snd] in *; [|exact Hh].
  eapply LocatorFrame_trans; [exact Hh|].
  unfold bruteForceSearch, bind, get, modify.
  eapply LocatorFrame_trans; [apply LocatorFrame_setBackwardIndex|].
  apply bruteForceLoop_frame.
Qed.

Lemma Extends_refl (this : ZipReader) : Extends this this.
Proof.
  split; [reflexivity|]. split; [lia|]. split; [apply Patched_refl|].
  exists []. rewrite app_nil_r. split; [reflexivity|constructor].
Qed.

Lemma Extends_trans (a b c : ZipReader) :
  Extends a b -> Extends b c -> Extends a c.
Proof.
  intros (H1 & H2 & H3 & l & H4 & H5) (K1 & K2 & K3 & l' & K4 & K5).
  split; [congruence|]. split; [lia|].
  split; [exact (Patched_trans _ _ _ H3 K3)|].
  exists (l ++ l'). rewrite K4, H4, app_assoc. split; [reflexivity|].
  apply Forall_app. split; [exact H5|]. rewrite <- H1. exact K5.
Qed.

Lemma LocatorFrame_Extends (this this' : ZipReader) :
  LocatorFrame this this' -> Extends this this'.
Proof.
  intros (H1 & H2 & H3 & H4).
  split; [exact H1|]. split; [lia|].
  split; [rewrite H3; apply Patched_refl|exact H4].
Qed.

Lemma scanStep_Extends (this : ZipReader) :
  Extends this (snd (scanStep false this)).
Proof.
  pose proof (scanStep_Patched false this) as Hp.
  pose proof (scanStep_dataView false this) as Hdv.
  split; [exact Hdv|]. split; [|split; [exact Hp|]]; clear Hp Hdv.
  - destruct (scanStep false this) as [[[|]|e] this'] eqn:Es; cbn [snd].
    + apply scanStep_Continue in Es as [Hlt _]; [lia|discriminate].
    + revert Es. rewrite scanStep_eq.
      destruct (getUint32 (dataView this) (index this)) as [signature|e] eqn:Eg;
        [|discriminate].
      apply getUint_Return in Eg as (Hidx & _ & _).
      destruct (signature =? 0x04034b50).
      { destruct (readLocalFile (dataView this) (index this)) as [entry|e] eqn:El;
          [|discriminate].
        apply readLocalFile_Return in El as (Hs & Ht & Hc & _).
        cbn zeta. destruct (LocalFile.needsDataDescriptor entry);
          intros H; try discriminate H; injection H as <-;
          cbn [index setIndex setLocalFiles]; lia. }
      destruct (signature =? 0x08074b50).
      { destruct (readDataDescriptor (dataView this) (index this)); [|discriminate].
        destruct (lastLocalFile this); discriminate. }
      destruct (signature =? 0x02014b50).
      { destruct (readCentralDirectory (dataView this) (index this)); discriminate. }
      destruct (signature =? 0x06054b50).
      { destruct (readEndCentralDirectory (dataView this) (index this))
          as [entry|e] eqn:Ee; [|discriminate].
        apply readEndCentralDirectory_Return in Ee as [Ht _].
        intros H; injection H as <-.
        cbn [index setIndex setEndOfCentralDirectory]. lia. }
      intros H; injection H as <-. lia.
    + revert Es. rewrite scanStep_eq.
      repeat first
        [ progress cbn zeta
        | match goal with
          | |- context [match ?x with _ => _ end] => destruct x
          end ];
        intros H; try discriminate H; injection H as _ <-; lia.
  - rewrite scanStep_eq.
    destruct (getUint32 (dataView this) (index this)) as [signature|e];
      [|exists []; rewrite app_nil_r; split; [reflexivity|constructor]].
    destruct (signature =? 0x04034b50).
    { destruct (readLocalFile (dataView this) (index this)) as [entry|e];
        [|exists []; rewrite app_nil_r; split; [reflexivity|constructor]].
      cbn zeta. exists [].
      destruct (LocalFile.needsDataDescriptor entry); cbn; rewrite app_nil_r;
        (split; [reflexivity|constructor]). }
    destruct (signature =? 0x08074b50).
    { exists [].
      destruct (readDataDescriptor (dataView this) (index this));
        [destruct (lastLocalFile this)|]; cbn; rewrite app_nil_r;
        (split; [reflexivity|constructor]). }
    destruct (signature =? 0x02014b50).
    { destruct (readCentralDirectory (dataView this) (index this)) as [entry|e] eqn:Ec;
        [|exists []; rewrite app_nil_r; split; [reflexivity|constructor]].
      exists [entry]. split; [reflexivity|]. repeat constructor.
      exists (index this). exact Ec. }
    exists [].
    destruct (signature =? 0x06054b50);
      [destruct (readEndCentralDirectory (dataView this) (index this))|];
      cbn; rewrite app_nil_r; (split; [reflexivity|constructor]).
Qed.

Lemma scanLoop_Extends (fuel : nat) :
  forall this : ZipReader, Extends this (snd (scanLoop fuel false this)).
Proof.
  induction fuel as [|fuel IH]; intros this; cbn [scanLoop];
    destruct (index this + 4 <? byteLength (dataView this));
    try apply Extends_refl.
  pose proof (scanStep_Extends this) as Hs.
  destruct (scanStep false this) as [[[|]|e] this']; cbn [snd] in *;
    try exact Hs.
  eapply Extends_trans; [exact Hs|apply IH].
Qed.


(** X14: every central directory entry that a fresh reader lists after
    a plain [read], returned or thrown, is a central directory header
    decoded at some offset of the buffer; so it lies within the buffer
    and its fields are in range. *)
Theorem read_directory_decoded (arrayBuffer : list byte)
    (entry : CentralDirectory.t) :
  In entry (centralDirectories (snd (read false (newZipReader arrayBuffer)))) ->
  exists offset,
    readCentralDirectory {| buffer := arrayBuffer |} offset = Return entry
    /\ 0 <= offset
    /\ offset + CentralDirectory.totalLength entry
       <= Z.of_nat (List.length arrayBuffer).
Proof.
  intros Hin.
  assert (Extends (newZipReader arrayBuffer)
            (snd (read false (newZipReader arrayBuffer)))) as Hext.
  { rewrite read_false_locator.
    pose proof (scanLoop_Extends (Z.to_nat (Z.of_nat (List.length arrayBuffer) - 0))
                  (newZipReader arrayBuffer)) as Hs.
    change (scanLoop (Z.to_nat (Z.of_nat (List.length arrayBuffer) - 0)) false
              (newZipReader arrayBuffer))
      with (scan false (newZipReader arrayBuffer)) in Hs.
    destruct (scan false (newZipReader arrayBuffer)) as [[[]|e] this1];
      cbn [snd] in *; [|exact Hs].
    eapply Extends_trans; [exact Hs|].
    apply LocatorFrame_Extends. apply locator_frame. }
  destruct Hext as (_ & _ & _ & added & Hcd & Hdec).
  rewrite Hcd in Hin. cbn [centralDirectories newZipReader app] in Hin.
  rewrite Forall_forall in Hdec. destruct (Hdec entry Hin) as [offset Ho].
  cbn [dataView newZipReader] in Ho.
  exists offset. split; [exact Ho|].
  pose proof (readCentralDirectory_Return _ _ _ Ho) as [Ht _].
  rewrite readCentralDirectory_eq in Ho.
  do 20 bind_step Ho. apply Return_inj in Ho. subst entry.
  cbv [CentralDirectory.totalLength] in *.
  unfold getUint32, getUint16 in *.
  pose proof (getUint_Return _ _ _ _ E) as (Hoff & _ & _).
  pose proof (getUint_Return _ _ _ _ E9) as (_ & _ & Hn).
  pose proof (getUint_Return _ _ _ _ E10) as (_ & _ & Hx).
  pose proof (getUint_Return _ _ _ _ E11) as (_ & _ & Hc).
  pose proof (getUint_Return _ _ _ _ E15) as (_ & Hfixed & _).
  apply readChars_fits in E16 as [_ R1]; [|exact Hn].
  apply readChars_fits in E17 as [_ R2]; [|exact Hx].
  apply readChars_fits in E18 as [_ R3]; [|exact Hc].
  unfold byteLength in *. cbn [buffer] in *.
  split; [lia|].
  destruct (Z.eq_dec v11 0) as [->|]; [|lia].
  destruct (Z.eq_dec v10 0) as [->|]; [|lia].
  destruct (Z.eq_dec v9 0) as [->|]; lia.
Qed.

Lemma read_directory_decoded_witness :
  exists entry offset,
    nth_error (centralDirectories (snd (read false (newZipReader streamedEntry)))) 0
    = Some entry
    /\ readCentralDirectory {| buffer := streamedEntry |} offset = Return entry.
Proof.
  destruct (nth_error
              (centralDirectories (snd (read false (newZipReader streamedEntry)))) 0)
    as [entry|] eqn:E; [|vm_compute in E; discriminate E].
  destruct (read_directory_decoded streamedEntry entry) as (offset & H & _).
  - eapply nth_error_In. exact E.
  - exists entry, offset. split; [reflexivity|exact H].
Defined.

Lemma scanStep_true_frame (this : ZipReader) :
  let this' := snd (scanStep true this) in
  dataView this' = dataView this
  /\ centralDirectories this' = centralDirectories this
  /\ endOfCentralDirectory this' = endOfCentralDirectory this
  /\ backwardIndex this' = backwardIndex this.
Proof.
  cbn zeta. rewrite scanStep_eq.
  repeat first
    [ progress cbn zeta
    | match goal with
      | |- context [match ?x with _ => _ end] => destruct x
      end ];
    repeat split.
Qed.

Lemma scanLoop_true_frame (fuel : nat) :
  forall this : ZipReader,
    let this' := snd (scanLoop fuel true this) in
    dataView this' = dataView this
    /\ centralDirectories this' = centralDirectories this
    /\ endOfCentralDirectory this' = endOfCentralDirectory this
    /\ backwardIndex this' = backwardIndex this.
Proof.
  induction fuel as [|fuel IH]; intros this; cbn zeta; cbn [scanLoop];
    destruct (index this + 4 <? byteLength (dataView this));
    try (repeat split; fail).
  pose proof (scanStep_true_frame this) as Hs. cbn zeta in Hs.
  destruct (scanStep true this) as [[[|]|e] this']; cbn [snd] in *;
    try exact Hs.
  destruct Hs as (H1 & H2 & H3 & H4).
  destruct (IH this') as (K1 & K2 & K3 & K4).
  repeat split; congruence.
Qed.

(** X15: [read] in central directory mode, returned or thrown, rebuilds
    the local entries only: the buffer, the central directory list, the
    end record and [backwardIndex] are as before, and the cursor and
    the local entries it started from play no part in the result. *)
Theorem read_true_frame (this : ZipReader) :
  (let this' := snd (read true this) in
   dataView this' = dataView this
   /\ centralDirectories this' = centralDirectories this
   /\ endOfCentralDirectory this' = endOfCentralDirectory this
   /\ backwardIndex this' = backwardIndex this)
  /\ forall cursor entries,
       read true (setIndex cursor (setLocalFiles entries this)) = read true this.
Proof.
  split.
  - cbn zeta. rewrite read_true_eq. unfold scan.
    apply (scanLoop_true_frame _ (setLocalFiles [] (setIndex 0 this))).
  - intros cursor entries. rewrite !read_true_eq. reflexivity.
Qed.

(** ** Buffers too short for an end record *)

Lemma scanStep_short (useCentralDirectory : bool) (this : ZipReader) :
  byteLength (dataView this) < 22 ->
  endOfCentralDirectory (snd (scanStep useCentralDirectory this))
  = endOfCentralDirectory this.
Proof.
  intros Hshort. rewrite scanStep_eq.
  destruct (getUint32 (dataView this) (index this)) as [signature|e];
    [|reflexivity].
  destruct (signature =? 0x04034b50).
  { destruct (readLocalFile (dataView this) (index this)); [|reflexivity].
    cbn zeta. destruct (LocalFile.needsDataDescriptor _); [|reflexivity].
    destruct useCentralDirectory; [|reflexivity].
    match goal with
    | |- context [entryByFileName ?n ?b ?s] => destruct (entryByFileName n b s)
    end; reflexivity. }
  destruct (signature =? 0x08074b50).
  { destruct (readDataDescriptor (dataView this) (index this)); [|reflexivity].
    destruct (lastLocalFile this); reflexivity. }
  destruct useCentralDirectory; [reflexivity|].
  destruct (signature =? 0x02014b50).
  { destruct (readCentralDirectory (dataView this) (index this)); reflexivity. }
  destruct (signature =? 0x06054b50); [|reflexivity].
  destruct (readEndCentralDirectory (dataView this) (index this)) as [entry|e] eqn:E;
    [|reflexivity].
  exfalso. rewrite readEndCentralDirectory_eq in E.
  do 8 bind_step E.
  unfold getUint32, getUint16 in *.
  apply getUint_Return in E0 as (H0 & _ & _).
  apply getUint_Return in E7 as (_ & H1 & _). lia.
Qed.

Lemma scanLoop_short (useCentralDirectory : bool) (fuel : nat) :
  forall this : ZipReader,
    byteLength (dataView this) < 22 ->
    endOfCentralDirectory (snd (scanLoop fuel useCentralDirectory this))
    = endOfCentralDirectory this.
Proof.
  induction fuel as [|fuel IH]; intros this Hshort; cbn [scanLoop];
    destruct (index this + 4 <? byteLength (dataView this)); try reflexivity.
  pose proof (scanStep_short useCentralDirectory this Hshort) as Hs.
  pose proof (scanStep_dataView useCentralDirectory this) as Hdv.
  destruct (scanStep useCentralDirectory this) as [[[|]|e] this']; cbn [snd] in *;
    try exact Hs.
  rewrite IH; [exact Hs|]. rewrite Hdv. exact Hshort.
Qed.

(** X16: on a buffer shorter than 22 bytes, the empty buffer included,
    a plain [read] of a reader without end record never returns: the
    forward scan throws, or the first hot spot lies before the buffer
    and the locator throws [RangeError]. *)
Theorem read_short_buffer_throws (this : ZipReader) :
  endOfCentralDirectory this = None ->
  byteLength (dataView this) < 22 ->
  exists e this',
    read false this = (Throw e, this')
    /\ (e = RangeError \/ e = TypeError).
Proof.
  intros Hnone Hshort. rewrite read_false_locator.
  pose proof (scanLoop_short false
                (Z.to_nat (byteLength (dataView this) - index this)) this Hshort)
    as He.
  pose proof (scanLoop_Extends
                (Z.to_nat (byteLength (dataView this) - index this)) this)
    as (Hdv & _).
  fold (scan false this) in He, Hdv.
  destruct (scan false this) as [[[]|e] this1] eqn:Es; cbn [snd] in *.
  - exists RangeError, this1. split; [|left; reflexivity].
    unfold locateEndOfCentralDirectory. unfold bind at 1.
    rewrite hotSpotSearch_probeInOrder by congruence. cbn zeta.
    rewrite Hdv.
    destruct (Z.ltb_spec (65536 + 22) (byteLength (dataView this))); [lia|].
    cbn [app probeInOrder].
    rewrite heuristicsCentralDirectorySearch_eq, Hdv.
    unfold getUint32, getUint.
    destruct (Z.leb_spec 0 (byteLength (dataView this) - 22)); [lia|].
    reflexivity.
  - exists e, this1. split; [reflexivity|].
    apply (scan_Throw false
             (S (Z.to_nat (byteLength (dataView this) - index this)))
             this this1 e); [lia|discriminate|exact Es].
Qed.

Lemma read_short_buffer_throws_witness :
  exists e this',
    read false (newZipReader []) = (Throw e, this')
    /\ (e = RangeError \/ e = TypeError).
Proof.
  apply read_short_buffer_throws; [reflexivity|].
  vm_compute. reflexivity.
Defined.

(** ** Entries with bit 3 set *)

(** X17: in central directory mode, when the buffer begins with a local
    file header with bit 3 set whose name the central directory list
    does not carry, [read] throws [TypeError]; the entry is appended and
    the cursor stands behind the header by then. *)
Theorem read_true_unlisted (this : ZipReader) (entry : LocalFile.t) :
  4 < byteLength (dataView this) ->
  getUint32 (dataView this) 0 = Return 0x04034b50 ->
  readLocalFile (dataView this) 0 = Return entry ->
  LocalFile.needsDataDescriptor entry = true ->
  (forall c, In c (centralDirectories this) ->
             CentralDirectory.fileName c <> LocalFile.fileName entry) ->
  read true this
  = (Throw TypeError,
     setIndex (LocalFile.startsAt entry + LocalFile.compressedSize entry)
       (setLocalFiles [entry] this)).
Proof.
  intros Hlen Hsig Hentry Hneeds Hnone.
  assert (entryByFileName (LocalFile.fileName entry) true this = None) as Hfind.
  { unfold entryByFileName.
    destruct (find _ _) as [found|] eqn:E; [|reflexivity].
    apply find_some in E as [Hin Hname]. apply in_map_iff in Hin as (c & <- & Hc).
    apply String.eqb_eq in Hname. cbn in Hname. destruct (Hnone c Hc Hname). }
  rewrite read_true_eq. unfold scan.
  cbn [dataView index setLocalFiles setIndex].
  destruct (Z.to_nat (byteLength (dataView this) - 0)) as [|fuel] eqn:Ef; [lia|].
  cbn [scanLoop]. cbn [dataView index setLocalFiles setIndex].
  destruct (Z.ltb_spec (0 + 4) (byteLength (dataView this))); [|lia].
  rewrite scanStep_eq. cbn [dataView index setLocalFiles setIndex localFiles].
  rewrite Hsig. change (0x04034b50 =? 0x04034b50) with true. cbv iota.
  rewrite Hentry. cbn zeta. rewrite Hneeds.
  change (entryByFileName (LocalFile.fileName entry) true
            (setIndex
               (0 + (LocalFile.startsAt entry + LocalFile.compressedSize entry))
               (setLocalFiles ([] ++ [entry])
                  (setLocalFiles [] (setIndex 0 this)))))
    with (entryByFileName (LocalFile.fileName entry) true this).
  rewrite Hfind. reflexivity.
Qed.

Lemma read_true_unlisted_witness :
  fst (read true (newZipReader streamedEntry)) = Throw TypeError.
Proof.
  destruct (readLocalFile (dataView (newZipReader streamedEntry)) 0)
    as [entry|e] eqn:E; [|vm_compute in E; discriminate E].
  rewrite (read_true_unlisted (newZipReader streamedEntry) entry).
  - reflexivity.
  - vm_compute. reflexivity.
  - vm_compute. reflexivity.
  - exact E.
  - vm_compute in E. injection E as <-. reflexivity.
  - intros c [].
Defined.

(** X18: when the buffer begins with a local file header with bit 3
    set, a plain [read] of a fresh reader, returned or thrown, leaves
    that header as the only local entry, with the values of the header,
    and the cursor behind the header plus its declared compressed size:
    the scan stops there and the locator does not touch either. *)
Theorem read_streamed_first (arrayBuffer : list byte) (entry : LocalFile.t) :
  4 < Z.of_nat (List.length arrayBuffer) ->
  getUint32 {| buffer := arrayBuffer |} 0 = Return 0x04034b50 ->
  readLocalFile {| buffer := arrayBuffer |} 0 = Return entry ->
  LocalFile.needsDataDescriptor entry = true ->
  let this' := snd (read false (newZipReader arrayBuffer)) in
  entries this' = [entry]
  /\ index this' = LocalFile.startsAt entry + LocalFile.compressedSize entry.
Proof.
  intros Hlen Hsig Hentry Hneeds. cbn zeta.
  assert (scan false (newZipReader arrayBuffer)
          = (Return tt,
             setIndex (0 + (LocalFile.startsAt entry
                            + LocalFile.compressedSize entry))
               (setLocalFiles ([] ++ [entry]) (newZipReader arrayBuffer))))
    as Hscan.
  { rewrite scan_unfold by discriminate.
    cbn [index dataView newZipReader]. unfold byteLength. cbn [buffer].
    destruct (Z.ltb_spec (0 + 4) (Z.of_nat (List.length arrayBuffer))); [|lia].
    rewrite scanStep_eq. cbn [index dataView newZipReader localFiles].
    rewrite Hsig. change (0x04034b50 =? 0x04034b50) with true. cbv iota.
    rewrite Hentry. cbn zeta. rewrite Hneeds. reflexivity. }
  rewrite read_false_locator, Hscan.
  match goal with
  | |- context [locateEndOfCentralDirectory _ ?s] =>
      destruct (locator_frame s) as (_ & Hi & Hl & _)
  end.
  unfold entries. rewrite Hl, Hi. cbn. split; reflexivity.
Qed.

Lemma read_streamed_first_witness :
  List.length (entries (snd (read false (newZipReader twoStreamedEmpty)))) = 1%nat
  /\ index (snd (read false (newZipReader twoStreamedEmpty))) = 31.
Proof.
  destruct (readLocalFile {| buffer := twoStreamedEmpty |} 0) as [entry|e] eqn:E;
    [|vm_compute in E; discriminate E].
  destruct (read_streamed_first twoStreamedEmpty entry) as [H1 H2].
  - vm_compute. reflexivity.
  - vm_compute. reflexivity.
  - exact E.
  - vm_compute in E. injection E as <-. reflexivity.
  - rewrite H1, H2. split; [reflexivity|].
    vm_compute in E. injection E as <-. reflexivity.
Defined.

(** ** Failures and outcomes of read *)

(** X19: whatever the buffer, a [read] of a fresh reader, and a second
    [read] after it in either mode, throws nothing but the [RangeError]
    of a read past the buffer or the [TypeError] of an absent entry; in
    particular its loops end. *)
Theorem read_throws_range_or_type (arrayBuffer : list byte)
    (first second : bool) (e : error) (this' : ZipReader) :
  read first (newZipReader arrayBuffer) = (Throw e, this')
  \/ read second (snd (read first (newZipReader arrayBuffer))) = (Throw e, this') ->
  e = RangeError \/ e = TypeError.
Proof.
  intros [H|H].
  - eapply read_Throw; [|exact H]. apply newZipReader_DirectoryNonneg.
  - eapply read_Throw; [|exact H].
    apply read_DirectoryNonneg. apply newZipReader_DirectoryNonneg.
Qed.

Lemma read_throws_range_or_type_witness :
  exists e,
    fst (read true (newZipReader truncatedDirectory)) = Return tt
    /\ fst (read false (snd (read true (newZipReader truncatedDirectory))))
       = Throw e
    /\ (e = RangeError \/ e = TypeError).
Proof.
  destruct (read false (snd (read true (newZipReader truncatedDirectory))))
    as [[[]|e] this'] eqn:E; [vm_compute in E; discriminate E|].
  exists e. split; [vm_compute; reflexivity|]. split; [reflexivity|].
  apply (read_throws_range_or_type truncatedDirectory true false e this').
  right. exact E.
Defined.

(** X20: a plain [read] that returns without an end record has found
    nothing: the forward scan had returned, and apart from
    [backwardIndex] the reader is the one the scan left; no probe of the
    locator has changed it. *)
Theorem read_without_end_record (this this2 : ZipReader) :
  read false this = (Return tt, this2) ->
  endOfCentralDirectory this2 = None ->
  exists this1,
    scan false this = (Return tt, this1)
    /\ archiveState this2 = archiveState this1
    /\ forall candidate,
         In candidate (locatorCandidates this1) ->
         heuristicsCentralDirectorySearch candidate this1 = (Return false, this1).
Proof.
  intros Hread Hnone. rewrite read_false_locator in Hread.
  destruct (scan false this) as [[[]|e] this1] eqn:Es; [|discriminate Hread].
  exists this1. split; [reflexivity|].
  destruct (locator_again this1 this2 Hread Hnone) as [Hs _].
  split; [exact Hs|].
  pose proof (locator_probeInOrder _ heuristicsCentralDirectorySearch_Validation this1) as Hl.
  assert (endOfCentralDirectory this1 = None) as He.
  { apply (f_equal endOfCentralDirectory) in Hs. cbn in Hs. congruence. }
  rewrite He, Hread in Hl. unfold forget in Hl. cbn [fst snd void] in Hl.
  destruct (probeInOrder heuristicsCentralDirectorySearch
              (locatorCandidates this1) this1)
    as [[[c|]|e] this']
    eqn:Ep; cbn [fst snd void] in Hl; try discriminate Hl.
  - apply probeInOrder_Some in Ep as [_ Ep].
    apply heuristicsCentralDirectorySearch_true in Ep as (Ep & _).
    apply (f_equal snd) in Hl. cbn [snd] in Hl.
    apply (f_equal endOfCentralDirectory) in Hl. cbn in Hl. congruence.
  - clear Hl. revert Ep. generalize (locatorCandidates this1) as l.
    induction l as [|c l IH]; intros Ep candidate Hin; [destruct Hin|].
    cbn [probeInOrder] in Ep.
    destruct (heuristicsCentralDirectorySearch c this1) as [[[|]|e] this3] eqn:Ec;
      try discriminate Ep.
    pose proof (heuristicsCentralDirectorySearch_false _ _ _ Ec) as ->.
    destruct Hin as [<-|Hin]; [exact Ec|]. exact (IH Ep candidate Hin).
Qed.

Lemma read_without_end_record_witness :
  exists this1,
    scan false (newZipReader headerAfterDirectory) = (Return tt, this1)
    /\ archiveState (snd (read false (newZipReader headerAfterDirectory)))
       = archiveState this1.
Proof.
  destruct (read_without_end_record (newZipReader headerAfterDirectory)
              (snd (read false (newZipReader headerAfterDirectory))))
    as (this1 & H1 & H2 & _).
  - vm_compute. reflexivity.
  - vm_compute. reflexivity.
  - exists this1. split; [exact H1|exact H2].
Defined.

Lemma heuristicsCentralDirectorySearch_record (offset : Z)
    (this this' : ZipReader) :
  heuristicsCentralDirectorySearch offset this = (Return true, this') ->
  exists record,
    endOfCentralDirectory this' = Some record
    /\ getUint32 (dataView this) offset = Return 0x06054b50
    /\ readEndCentralDirectory (dataView this) offset = Return record
    /\ EndCentralDirectory.totalLength record = byteLength (dataView this) - offset
    /\ getUint32 (dataView this)
         (EndCentralDirectory.centralDirectoryOffset record) = Return 0x02014b50.
Proof.
  rewrite heuristicsCentralDirectorySearch_eq.
  destruct (getUint32 (dataView this) offset) as [signature|e] eqn:Esig;
    [|discriminate].
  destruct (Z.eqb_spec signature 0x06054b50) as [->|]; [|discriminate].
  destruct (readEndCentralDirectory (dataView this) offset) as [record|e]
    eqn:Erec; [|discriminate].
  destruct (Z.eqb_spec (EndCentralDirectory.totalLength record)
              (byteLength (dataView this) - offset)) as [Hlen|]; [|discriminate].
  destruct (getUint32 (dataView this)
              (EndCentralDirectory.centralDirectoryOffset record))
    as [signature'|e] eqn:Ecd; [|discriminate].
  destruct (Z.eqb_spec signature' 0x02014b50) as [->|]; [|discriminate].
  match goal with
  | |- context [readCentralDirectoriesUntil ?f ?o ?r ?s] =>
      destruct (readCentralDirectoriesUntil f o r s) as [[[]|e] this1] eqn:E
  end; [|discriminate].
  apply readCentralDirectoriesUntil_chain in E as (entries & _ & ->).
  intros H. apply (f_equal snd) in H. cbn [snd] in H. subst this'.
  exists record.
  split; [reflexivity|]. split; [reflexivity|]. split; [reflexivity|].
  split; [exact Hlen|exact Ecd].
Qed.

(** X21: the end record that the locator stores is one that ends
    exactly at the end of the buffer: when the forward scan returned
    without an end record and [read] returns with one, that record is
    the one decoded at the buffer length minus its own length, it
    begins with the end-record signature, and the four bytes at the
    central directory offset it declares are the signature of a central
    directory header. *)
Theorem read_located_end_record (this this1 this2 : ZipReader)
    (record : EndCentralDirectory.t) :
  scan false this = (Return tt, this1) ->
  endOfCentralDirectory this1 = None ->
  read false this = (Return tt, this2) ->
  endOfCentralDirectory this2 = Some record ->
  let offset := byteLength (dataView this) - EndCentralDirectory.totalLength record in
  readEndCentralDirectory (dataView this) offset = Return record
  /\ EndCentralDirectory.signature record = 0x06054b50
  /\ getUint32 (dataView this)
       (EndCentralDirectory.centralDirectoryOffset record) = Return 0x02014b50
  /\ In offset (locatorCandidates this1).
Proof.
  intros Hscan Hnone Hread Hsome. cbn zeta.
  pose proof (scanLoop_Extends
                (Z.to_nat (byteLength (dataView this) - index this)) this)
    as (Hdv & _).
  fold (scan false this) in Hdv. rewrite Hscan in Hdv. cbn [snd] in Hdv.
  rewrite read_false_locator, Hscan in Hread.
  pose proof (locator_probeInOrder _ heuristicsCentralDirectorySearch_Validation this1) as Hl.
  rewrite Hnone, Hread in Hl. unfold forget in Hl. cbn [fst snd void] in Hl.
  destruct (probeInOrder heuristicsCentralDirectorySearch
              (locatorCandidates this1) this1)
    as [[[c|]|e] this']
    eqn:Ep; cbn [fst snd void] in Hl; try discriminate Hl.
  - apply (f_equal snd) in Hl. cbn [snd] in Hl.
    apply (f_equal endOfCentralDirectory) in Hl. cbn in Hl.
    apply probeInOrder_Some in Ep as [Hin Ep].
    apply heuristicsCentralDirectorySearch_record in Ep
      as (record' & He & Hs & Hr & Ht & Hc).
    assert (record' = record) as -> by congruence.
    rewrite Hdv in *.
    replace (byteLength (dataView this) - EndCentralDirectory.totalLength record)
      with c by lia.
    split; [exact Hr|]. split; [|split; [exact Hc|exact Hin]].
    rewrite readEndCentralDirectory_eq in Hr.
    apply obind_Return in Hr as (signature & Esig & Hr).
    do 8 bind_step Hr. apply Return_inj in Hr. subst record.
    cbv [EndCentralDirectory.signature].
    replace (c + 0) with c in Esig by lia. congruence.
  - apply probeInOrder_None in Ep as ->.
    apply (f_equal snd) in Hl. cbn [snd] in Hl.
    apply (f_equal endOfCentralDirectory) in Hl. cbn in Hl. congruence.
Qed.

Lemma read_located_end_record_witness :
  exists record,
    endOfCentralDirectory (snd (read false (newZipReader commentedArchive)))
    = Some record
    /\ readEndCentralDirectory {| buffer := commentedArchive |}
         (120 - EndCentralDirectory.totalLength record) = Return record.
Proof.
  destruct (endOfCentralDirectory
              (snd (read false (newZipReader commentedArchive))))
    as [record|] eqn:E; [|vm_compute in E; discriminate E].
  exists record. split; [reflexivity|].
  destruct (read_located_end_record (newZipReader commentedArchive)
              (snd (scan false (newZipReader commentedArchive)))
              (snd (read false (newZipReader commentedArchive))) record)
    as (H & _).
  - vm_compute. reflexivity.
  - vm_compute. reflexivity.
  - vm_compute. reflexivity.
  - exact E.
  - exact H.
Defined.

(** ** The data descriptor *)

(** X22: [readDataDescriptor] is decided by the bounds alone: it returns
    exactly when the sixteen bytes from a non-negative offset fit into
    the buffer, the record is then sixteen bytes long with unsigned
    32-bit checksum and sizes, and otherwise the throw is a
    [RangeError]; the signature is not checked. *)
Theorem readDataDescriptor_layout (dv : DataView) (offset : Z) :
  match readDataDescriptor dv offset with
  | Return entry =>
      0 <= offset /\ offset + 16 <= byteLength dv
      /\ DataDescriptor.totalLength entry = 16
      /\ isUint 32 (DataDescriptor.signature entry)
      /\ isUint 32 (DataDescriptor.crc entry)
      /\ isUint 32 (DataDescriptor.compressedSize entry)
      /\ isUint 32 (DataDescriptor.uncompressedSize entry)
  | Throw e =>
      e = RangeError /\ (offset < 0 \/ byteLength dv < offset + 16)
  end.
Proof.
  destruct (readDataDescriptor dv offset) as [entry|e] eqn:H.
  - rewrite readDataDescriptor_eq in H.
    do 4 bind_step H. apply Return_inj in H. subst entry.
    cbv [DataDescriptor.totalLength DataDescriptor.signature DataDescriptor.crc
         DataDescriptor.compressedSize DataDescriptor.uncompressedSize isUint].
    unfold getUint32 in *.
    pose proof (getUint_Return _ _ _ _ E) as (Hoff & _ & Hs).
    pose proof (getUint_bound 4 _ _ _ ltac:(lia) E) as Hs'.
    pose proof (getUint_Return _ _ _ _ E0) as (_ & _ & Hc).
    pose proof (getUint_bound 4 _ _ _ ltac:(lia) E0) as Hc'.
    pose proof (getUint_Return _ _ _ _ E1) as (_ & _ & Hz).
    pose proof (getUint_bound 4 _ _ _ ltac:(lia) E1) as Hz'.
    pose proof (getUint_Return _ _ _ _ E2) as (_ & Hend & Hu).
    pose proof (getUint_bound 4 _ _ _ ltac:(lia) E2) as Hu'.
    change (256 ^ 4) with (2 ^ 32) in *.
    split; [lia|]. split; [lia|]. split; [reflexivity|].
    split; [lia|]. split; [lia|]. split; lia.
  - split; [exact (readDataDescriptor_Throw _ _ _ H)|].
    destruct (Z_lt_le_dec offset 0) as [|H0]; [left; assumption|].
    destruct (Z_lt_le_dec (byteLength dv) (offset + 16)) as [|H1];
      [right; assumption|].
    destruct (readDataDescriptor_in_range dv offset H0 H1) as (entry & E & _).
    rewrite E in H. discriminate H.
Qed.
